(** * columnize_output: a shallow embedding of [columnize_output.py]

    The development follows the function [columnize_output] of
    [src/columnize_output.py] phase by phase: resolution of the input into
    [list_of_lists_of_strings], the row scan that reconciles row lengths, the
    padding of [justify_cols_list], the computation of [max_col_widths] and
    the rendering loop.

    Python objects are modelled by small inductive types, Python exceptions
    and [sys.exit] by an abort monad, in-place mutation of the rows by
    explicit state passing, and the [while True] loop of the renderer by a
    fuel-indexed function. The semantics is that of Python 3. A string is a
    sequence of characters, one [ascii] each. *)

From Stdlib Require Import ZArith Lia Ascii String DecimalString.
From stdpp Require Import base list strings.

Local Open Scope Z_scope.

(** ** Python values *)

(** A field of a row: the docstring allows "basic data types, e.g., string,
    int"; [None] is treated specially by the code (line 216). *)
Inductive field : Type :=
  | FStr (s : string)
  | FNone
  | FInt (z : Z).

(** An element of [input_data] (and of [list_of_lists_of_strings]): a csv
    string, a list of fields, or an object that is neither (an int). *)
Inductive row : Type :=
  | RowStr (s : string)
  | RowList (l : list field)
  | RowInt (z : Z).

(** Uncaught Python exceptions the function can raise. [CsvError] is
    [csv.Error]. *)
Inductive exn : Type :=
  | IndexError
  | TypeError
  | AttributeError
  | CsvError.

(** How a call of [columnize_output] ends.
    - [Return rc lines data]: [return rc, columnized_output_list_of_strings]
      (line 321); [data] is the caller's [input_data] object as it is after
      the call.
    - [ReturnMsg rc msg]: the early [return 1, "line 195"].
    - [Raise e]: an uncaught exception.
    - [SysExit c]: [sys.exit(c)].
    - [OutOfFuel]: the [while True] loop was cut by the fuel bound. *)
Inductive outcome : Type :=
  | Return (rc : Z) (lines : list field) (data : list row)
  | ReturnMsg (rc : Z) (msg : string)
  | Raise (e : exn)
  | SysExit (code : Z)
  | OutOfFuel.

(** The abort monad: a phase either yields a value or ends the call. *)
Inductive res (A : Type) : Type :=
  | Ok (a : A)
  | Abort (o : outcome).
Arguments Ok {A} a.
Arguments Abort {A} o.

#[global] Instance res_ret : MRet res := fun A a => Ok a.

#[global] Instance res_bind : MBind res := fun A B k m =>
  match m with
  | Ok a => k a
  | Abort o => Abort o
  end.

Definition run (m : res outcome) : outcome :=
  match m with
  | Ok o => o
  | Abort o => o
  end.

(** ** Strings *)

Definition comma : ascii := ","%char.
Definition space : ascii := " "%char.
Definition dquote : ascii := "034"%char.
Definition LF : ascii := "010"%char.
Definition CR : ascii := "013"%char.

(** [' ' * n] *)
Fixpoint spaces (n : nat) : string :=
  match n with
  | O => EmptyString
  | S n' => String space (spaces n')
  end.

(** [s.ljust(n)] and [s.rjust(n)]: no change when [n <= len(s)]. *)
Definition ljust (s : string) (n : nat) : string :=
  s +:+ spaces (n - String.length s).

Definition rjust (s : string) (n : nat) : string :=
  spaces (n - String.length s) +:+ s.

(** [s.split(sep)] for a one-character separator: never returns [[]]. *)
Fixpoint split (sep : ascii) (s : string) : list string :=
  match s with
  | EmptyString => [EmptyString]
  | String c s' =>
      if Ascii.eqb c sep then EmptyString :: split sep s'
      else match split sep s' with
           | [] => [String c EmptyString]
           | t :: ts => String c t :: ts
           end
  end.

(** [str(x)] on a field. *)
Definition str (f : field) : string :=
  match f with
  | FStr s => s
  | FNone => "None"
  | FInt z => NilZero.string_of_int (Z.to_int z)
  end.

(** [re.search('^( +)$', tok)]: the result is [group(1)]. Without
    [re.MULTILINE], [$] matches at the end of the string and also just before
    a newline that ends the string. *)
Fixpoint span_spaces (s : string) : nat * string :=
  match s with
  | String c s' =>
      if Ascii.eqb c space then
        let '(n, rest) := span_spaces s' in (S n, rest)
      else (O, s)
  | EmptyString => (O, EmptyString)
  end.

Definition search_spacer (tok : string) : option string :=
  match span_spaces tok with
  | (O, _) => None
  | (S n, rest) =>
      if String.eqb rest EmptyString || String.eqb rest (String LF EmptyString)
      then Some (spaces (S n))
      else None
  end.

(** Python list indexing [l[i]] with a possibly negative index. *)
Definition py_index {A : Type} (l : list A) (i : Z) : option A :=
  if i <? 0 then
    if i + Z.of_nat (length l) <? 0 then None
    else l !! Z.to_nat (i + Z.of_nat (length l))
  else l !! Z.to_nat i.

(** ** The csv reader

    [csv.reader([row], skipinitialspace=True)] with the default (excel)
    dialect: delimiter comma, quotechar double quote, doublequote on, no
    escapechar, not strict. The model follows the character automaton of CPython's [_csv]
    module ([parse_process_char]); the two escape states are left out because
    the dialect has no escapechar. *)
Module Csv.

Inductive state : Type :=
  | START_RECORD
  | START_FIELD
  | IN_FIELD
  | IN_QUOTED_FIELD
  | QUOTE_IN_QUOTED_FIELD
  | EAT_CRNL.

(** [fields] is the record built so far, [cur] the field being read (both
    in reading order). *)
Record reader : Type := Reader {
  st : state;
  fields : list string;
  cur : string
}.

(** [csv.field_size_limit()] *)
Definition field_limit : Z := 131072.

Definition parse_reset : reader := Reader START_RECORD [] EmptyString.

Definition parse_save_field (r : reader) : reader :=
  Reader (st r) (fields r ++ [cur r]) EmptyString.

Definition parse_add_char (r : reader) (c : ascii) : option reader :=
  if field_limit <=? Z.of_nat (String.length (cur r)) then None
  else Some (Reader (st r) (fields r) (cur r +:+ String c EmptyString)).

Definition set_state (s : state) (r : reader) : reader :=
  Reader s (fields r) (cur r).

Definition is_newline (c : ascii) : bool :=
  Ascii.eqb c LF || Ascii.eqb c CR.

(** One step of the automaton; [None] as the character is the end-of-line
    mark the reader feeds after each line. The result [None] is
    [csv.Error]. *)
Definition parse_process_char (r : reader) (c : option ascii)
  : option reader :=
  let start_field (r : reader) : option reader :=
    match c with
    | None => Some (set_state START_RECORD (parse_save_field r))
    | Some ch =>
        if is_newline ch then Some (set_state EAT_CRNL (parse_save_field r))
        else if Ascii.eqb ch dquote then Some (set_state IN_QUOTED_FIELD r)
        else if Ascii.eqb ch space then Some r
        else if Ascii.eqb ch comma then Some (parse_save_field r)
        else parse_add_char (set_state IN_FIELD r) ch
    end in
  match st r with
  | START_RECORD =>
      match c with
      | None => Some r
      | Some ch =>
          if is_newline ch then Some (set_state EAT_CRNL r)
          else start_field (set_state START_FIELD r)
      end
  | START_FIELD => start_field r
  | IN_FIELD =>
      match c with
      | None => Some (set_state START_RECORD (parse_save_field r))
      | Some ch =>
          if is_newline ch then Some (set_state EAT_CRNL (parse_save_field r))
          else if Ascii.eqb ch comma
          then Some (set_state START_FIELD (parse_save_field r))
          else parse_add_char r ch
      end
  | IN_QUOTED_FIELD =>
      match c with
      | None => Some r
      | Some ch =>
          if Ascii.eqb ch dquote then Some (set_state QUOTE_IN_QUOTED_FIELD r)
          else parse_add_char r ch
      end
  | QUOTE_IN_QUOTED_FIELD =>
      match c with
      | None => Some (set_state START_RECORD (parse_save_field r))
      | Some ch =>
          if Ascii.eqb ch dquote
          then parse_add_char (set_state IN_QUOTED_FIELD r) ch
          else if Ascii.eqb ch comma
          then Some (set_state START_FIELD (parse_save_field r))
          else if is_newline ch
          then Some (set_state EAT_CRNL (parse_save_field r))
          else parse_add_char (set_state IN_FIELD r) ch
      end
  | EAT_CRNL =>
      match c with
      | None => Some (set_state START_RECORD r)
      | Some ch => if is_newline ch then Some r else None
      end
  end.

Fixpoint parse_line (r : reader) (line : string) : option reader :=
  match line with
  | EmptyString => parse_process_char r None
  | String c line' =>
      match parse_process_char r (Some c) with
      | Some r' => parse_line r' line'
      | None => None
      end
  end.

(** The records [csv.reader([line])] yields. The input iterator has this
    one line: when the line ends inside a quoted field the reader finds the
    input exhausted and closes the field. There is always exactly one
    record, or a [csv.Error]. *)
Definition reader_one_line (line : string) : option (list (list string)) :=
  match parse_line parse_reset line with
  | None => None
  | Some r =>
      match st r with
      | IN_QUOTED_FIELD => Some [fields (parse_save_field r)]
      | _ => Some [fields r]
      end
  end.

End Csv.

(** ** Phase 1: resolving the input (lines 159-165)

    [input_data] is a Python list. The branch is chosen by the type of
    [input_data[0]]: a list of csv strings is parsed line by line into fresh
    rows, a list of lists is used as it is (the same object), anything else
    leaves [list_of_lists_of_strings] empty. The stream and file-path
    branches (lines 167-183) read from outside and are not part of the
    model; [save_filename] keeps its default, so nothing is written. *)

Definition csv_entries (r : row) : res (list row) :=
  match r with
  | RowStr s =>
      match Csv.reader_one_line s with
      | Some records => Ok (map (fun entry => RowList (map FStr entry)) records)
      | None => Abort (Raise CsvError)
      end
  | _ => Abort (Raise CsvError)
  end.

Fixpoint parse_rows (input_data : list row) (acc : list row)
  : res (list row) :=
  match input_data with
  | [] => Ok acc
  | r :: rest => entries ← csv_entries r; parse_rows rest (acc ++ entries)
  end.

Definition resolve_input (input_data : list row) : res (list row) :=
  match input_data with
  | [] => Abort (Raise IndexError)
  | RowStr _ :: _ => parse_rows input_data []
  | RowList _ :: _ => Ok input_data
  | RowInt _ :: _ => Ok []
  end.

(** Whether [list_of_lists_of_strings] is the caller's own list (line 165). *)
Definition shares_input (input_data : list row) : bool :=
  match input_data with
  | RowList _ :: _ => true
  | _ => false
  end.

(** ** Phase 2: the row scan (lines 202-243)

    The scan works on the table in place. The state is the table itself:
    the inner lists are taken to be distinct objects, so that an update of
    the row at [index] touches that row only. *)

(** Lines 215-217 on one row: [None] becomes the empty string. *)
Definition none_to_empty (l : list field) : list field :=
  map (fun f => match f with FNone => FStr EmptyString | _ => f end) l.

(** Lines 242-243 on one row:
    [while len(row) < curr_max_num_cols: row.append('')]. A str has a length
    but no [append]; an int has no length. *)
Definition pad_row (curr_max_num_cols : nat) (r : row) : res row :=
  match r with
  | RowList l =>
      Ok (RowList (l ++ replicate (curr_max_num_cols - length l)
                                  (FStr EmptyString)))
  | RowStr s =>
      if (String.length s <? curr_max_num_cols)%nat
      then Abort (Raise AttributeError)
      else Ok r
  | RowInt _ => Abort (Raise TypeError)
  end.

(** Lines 239-243: the padding pass visits every row of the table. *)
Fixpoint pad_all (curr_max_num_cols : nat) (rows : list row)
  : res (list row) :=
  match rows with
  | [] => Ok []
  | r :: rest =>
      r' ← pad_row curr_max_num_cols r;
      rest' ← pad_all curr_max_num_cols rest;
      Ok (r' :: rest')
  end.

(** The variables the scan updates. The warnings and [row_num] only feed
    the log ([reportWarning], [reportError] of [logging_wrappers]) and are
    left out. *)
Record scan_state : Type := ScanState {
  list_of_lists_of_strings : list row;
  curr_max_num_cols : nat;
  rc : Z
}.

(** The body of the loop of line 205 for one [index]. *)
Definition scan_row (index : nat) (s : scan_state) : res scan_state :=
  match list_of_lists_of_strings s !! index with
  | None => Abort (Raise IndexError)
  | Some (RowStr _) => Ok s
  | Some (RowInt _) => Abort (Raise TypeError)
  | Some (RowList l) =>
      if (length l =? 1)%nat then Ok s
      else
        let l := none_to_empty l in
        let rows := <[index := RowList l]> (list_of_lists_of_strings s) in
        if (curr_max_num_cols s =? 0)%nat then
          Ok (ScanState rows (length l) (rc s))
        else if (length l =? curr_max_num_cols s)%nat then
          Ok (ScanState rows (curr_max_num_cols s) (rc s))
        else
          let cmax :=
            if (curr_max_num_cols s <? length l)%nat then length l
            else curr_max_num_cols s in
          rows' ← pad_all cmax rows;
          Ok (ScanState rows' cmax 2)
  end.

Fixpoint scan_from (indices : list nat) (s : scan_state) : res scan_state :=
  match indices with
  | [] => Ok s
  | index :: rest => s' ← scan_row index s; scan_from rest s'
  end.

(** [for index in range(len(list_of_lists_of_strings))], from
    [curr_max_num_cols = 0] and [rc = 0]. *)
Definition scan (rows : list row) : res scan_state :=
  scan_from (seq 0 (length rows)) (ScanState rows 0 0).

(** ** Phase 3: padding the justify list (lines 246-247)

    [while len(justify_cols_list) < curr_max_num_cols:
       justify_cols_list.append(justify_cols_list[-1])] *)
Definition pad_justify (justify_cols_list : list string) (cmax : nat)
  : res (list string) :=
  if (length justify_cols_list <? cmax)%nat then
    match py_index justify_cols_list (-1) with
    | Some tok =>
        Ok (justify_cols_list
              ++ replicate (cmax - length justify_cols_list) tok)
    | None => Abort (Raise IndexError)
    end
  else Ok justify_cols_list.

(** ** Phase 4: the column widths (lines 250-265) *)

(** The body of the inner loop (lines 259-265) for one [index], on a list
    row. [type(row[index]) is not string] compares a type with the module
    [string] and always holds, so every cell is replaced by its [str]. *)
Definition width_cell (index : nat) (st : list field * list nat)
  : res (list field * list nat) :=
  let '(l, max_col_widths) := st in
  match l !! index with
  | None => Abort (Raise IndexError)
  | Some f =>
      let s := str f in
      let l := <[index := FStr s]> l in
      if (length max_col_widths <? length l)%nat then
        Ok (l, max_col_widths ++ [String.length s])
      else
        match max_col_widths !! index with
        | None => Abort (Raise IndexError)
        | Some w =>
            if (w <? String.length s)%nat
            then Ok (l, <[index := String.length s]> max_col_widths)
            else Ok (l, max_col_widths)
        end
  end.

Fixpoint width_cells (indices : list nat) (st : list field * list nat)
  : res (list field * list nat) :=
  match indices with
  | [] => Ok st
  | index :: rest => st' ← width_cell index st; width_cells rest st'
  end.

(** The body of the loop of line 251 for one row. A str row of length other
    than 1 fails at the first cell: on [row[0]] when it is empty, on the
    item assignment otherwise. *)
Definition width_row (cmax : nat) (r : row) (max_col_widths : list nat)
  : res (row * list nat) :=
  match r with
  | RowInt _ => Abort (Raise TypeError)
  | RowStr s =>
      if (String.length s =? 1)%nat then Ok (r, max_col_widths)
      else match cmax with
           | O => Ok (r, max_col_widths)
           | S _ =>
               if (String.length s =? 0)%nat then Abort (Raise IndexError)
               else Abort (Raise TypeError)
           end
  | RowList l =>
      if (length l =? 1)%nat then Ok (r, max_col_widths)
      else
        '(l', widths') ← width_cells (seq 0 cmax) (l, max_col_widths);
        Ok (RowList l', widths')
  end.

Fixpoint width_rows (cmax : nat) (rows : list row) (max_col_widths : list nat)
  : res (list row * list nat) :=
  match rows with
  | [] => Ok ([], max_col_widths)
  | r :: rest =>
      '(r', widths') ← width_row cmax r max_col_widths;
      '(rest', widths'') ← width_rows cmax rest widths';
      Ok (r' :: rest', widths'')
  end.

(** ** Phase 5: rendering (lines 271-308) *)

(** [justify_cols_list[justify_col_curr]] classified as the [if]/[elif]/
    [else] chain of lines 293-304 does. *)
Inductive token : Type :=
  | TokL
  | TokR
  | TokSpacer (blanks : string)
  | TokBad.

Definition classify (tok : string) : token :=
  if String.eqb tok "L" then TokL
  else if String.eqb tok "R" then TokR
  else match search_spacer tok with
       | Some blanks => TokSpacer blanks
       | None => TokBad
       end.

(** [str.join] of the empty separator over [row[curr_col]]. A str cell gives
    itself; [None] and int cells are not iterable. *)
Definition row_field (r : row) (curr_col : Z) : res string :=
  match r with
  | RowList l =>
      match py_index l curr_col with
      | None => Abort (Raise IndexError)
      | Some (FStr s) => Ok s
      | Some _ => Abort (Raise TypeError)
      end
  | RowStr s =>
      match py_index (list_ascii_of_string s) curr_col with
      | None => Abort (Raise IndexError)
      | Some c => Ok (String c EmptyString)
      end
  | RowInt _ => Abort (Raise TypeError)
  end.

Definition col_width (max_col_widths : list nat) (curr_col : Z) : res nat :=
  match py_index max_col_widths curr_col with
  | Some w => Ok w
  | None => Abort (Raise IndexError)
  end.

(** The [while True] loop of lines 285-304. One unit of fuel pays for one
    evaluation of the loop body. *)
Fixpoint render_loop (fuel : nat) (r : row) (max_col_widths : list nat)
    (justify_cols_list : list string)
    (line : string) (justify_col_curr curr_col : Z) : res string :=
  match fuel with
  | O => Abort OutOfFuel
  | S fuel' =>
      let curr_col := curr_col + 1 in
      if curr_col >=? Z.of_nat (length max_col_widths) then Ok line
      else
        let line :=
          if String.eqb line EmptyString then line else line +:+ " " in
        let justify_col_curr :=
          if justify_col_curr <? Z.of_nat (length justify_cols_list) - 1
          then justify_col_curr + 1 else justify_col_curr in
        match py_index justify_cols_list justify_col_curr with
        | None => Abort (Raise IndexError)
        | Some tok =>
            match classify tok with
            | TokL =>
                s ← row_field r curr_col;
                w ← col_width max_col_widths curr_col;
                render_loop fuel' r max_col_widths justify_cols_list
                  (line +:+ ljust s (w + 1)) justify_col_curr curr_col
            | TokR =>
                s ← row_field r curr_col;
                w ← col_width max_col_widths curr_col;
                render_loop fuel' r max_col_widths justify_cols_list
                  (line +:+ rjust s (w + 1)) justify_col_curr curr_col
            | TokSpacer blanks =>
                render_loop fuel' r max_col_widths justify_cols_list
                  (line +:+ blanks) justify_col_curr (curr_col - 1)
            | TokBad => Abort (SysExit 1)
            end
        end
  end.

(** The body of the loop of line 272 for one row: the element appended to
    [columnized_output_list_of_strings]. *)
Definition render_row (fuel : nat) (max_col_widths : list nat)
    (justify_cols_list : list string) (r : row) : res field :=
  let aligned :=
    line ← render_loop fuel r max_col_widths justify_cols_list
             EmptyString (-1) (-1);
    Ok (FStr line) in
  match r with
  | RowList [f] => Ok f
  | RowList _ => aligned
  | RowStr s => Ok (FStr s)
  | RowInt _ => aligned
  end.

Fixpoint render_rows (fuel : nat) (max_col_widths : list nat)
    (justify_cols_list : list string) (rows : list row) : res (list field) :=
  match rows with
  | [] => Ok []
  | r :: rest =>
      out ← render_row fuel max_col_widths justify_cols_list r;
      outs ← render_rows fuel max_col_widths justify_cols_list rest;
      Ok (out :: outs)
  end.

(** ** The function (lines 141-321) *)

Definition columnize_output (fuel : nat) (input_data : list row)
    (justify_cols : string) : outcome :=
  run (
    rows ← resolve_input input_data;
    if (length rows =? 0)%nat then Abort (ReturnMsg 1 "line 195")
    else
      let justify_cols_list := split comma justify_cols in
      s ← scan rows;
      justify_cols_list ← pad_justify justify_cols_list (curr_max_num_cols s);
      '(rows, max_col_widths) ←
        width_rows (curr_max_num_cols s) (list_of_lists_of_strings s) [];
      out ← render_rows fuel max_col_widths justify_cols_list rows;
      Ok (Return (rc s) out
            (if shares_input input_data then rows else input_data))).

(** ** Saving the table and the output (lines 101-124, 197-198, 313-319)

    A file opened with mode ['w'] and closed again is modelled by the
    write it amounts to: its name and its whole content. Failures of the
    file system itself are outside the model. *)

Inductive file_write : Type :=
  | FileWrite (name content : string).

Fixpoint rev_string (s : string) : string :=
  match s with
  | EmptyString => EmptyString
  | String c s' => rev_string s' +:+ String c EmptyString
  end.

Definition ends_with (suffix s : string) : bool :=
  String.prefix (rev_string suffix) (rev_string s).

(** [re.search('\.csv$', name)] and [re.search('\.txt$', name)] as a test:
    [ext] is the extension with its dot. [$] matches at the end of the name
    and before a newline that ends it. *)
Definition search_ext (ext name : string) : bool :=
  ends_with ext name || ends_with (ext +:+ String LF EmptyString) name.

(** Lines 102-106. [scriptName] is the global of line 92. *)
Definition csv_file_name (scriptName csv_filename : string) : string :=
  let csv_filename :=
    if String.eqb csv_filename EmptyString then scriptName +:+ ".csv"
    else csv_filename in
  if search_ext ".csv" csv_filename then csv_filename
  else csv_filename +:+ ".csv".

(** Lines 314-315. *)
Definition txt_file_name (save_filename : string) : string :=
  if search_ext ".txt" save_filename then save_filename
  else save_filename +:+ ".txt".

(** [','.join(map(str, row))] (line 117): the fields of a list row, the
    characters of a str row; an int is not iterable. *)
Definition dump_line (r : row) : res string :=
  match r with
  | RowList l => Ok (String.concat "," (map str l))
  | RowStr t =>
      Ok (String.concat ","
            (map (fun c => String c EmptyString) (list_ascii_of_string t)))
  | RowInt _ => Abort (Raise TypeError)
  end.

Fixpoint dump_lines (rows : list row) : res (list string) :=
  match rows with
  | [] => Ok []
  | r :: rest =>
      line ← dump_line r; lines ← dump_lines rest; Ok (line :: lines)
  end.

(** The loop [for row in ...: fd.write(row + '\n')] on elements that should
    be strs: the text written, and the exception that stopped the loop if
    an element was no str. *)
Fixpoint write_csv_strings (rows : list row) (written : string)
  : string * option exn :=
  match rows with
  | [] => (written, None)
  | RowStr t :: rest =>
      write_csv_strings rest (written +:+ t +:+ String LF EmptyString)
  | _ :: _ => (written, Some TypeError)
  end.

Fixpoint write_lines (lines : list field) (written : string)
  : string * option exn :=
  match lines with
  | [] => (written, None)
  | FStr t :: rest =>
      write_lines rest (written +:+ t +:+ String LF EmptyString)
  | _ :: _ => (written, Some TypeError)
  end.

(** How a call of [save_input_data_to_csv_file] ends: the file written, an
    exception inside the [with] block (the file is closed with what was
    written so far), or an end before the file is opened. *)
Inductive saved : Type :=
  | Saved (w : file_write)
  | SaveBroken (w : file_write) (e : exn)
  | SaveAbort (o : outcome).

Definition save_input_data_to_csv_file (scriptName : string)
    (input_data : list row) (csv_filename : string) : saved :=
  let name := csv_file_name scriptName csv_filename in
  let write (list_of_csv_strings : list row) : saved :=
    match write_csv_strings list_of_csv_strings EmptyString with
    | (content, None) => Saved (FileWrite name content)
    | (content, Some e) => SaveBroken (FileWrite name content) e
    end in
  match input_data with
  | [] => SaveAbort (Raise IndexError)
  | RowStr _ :: _ => write input_data
  | RowList _ :: _ =>
      match dump_lines input_data with
      | Ok lines => write (map RowStr lines)
      | Abort o => SaveAbort o
      end
  | RowInt _ :: _ => SaveAbort (SysExit 1)
  end.

(** Lines 200-308 on the resolved rows: the status, the lines and the rows
    as the width pass left them. *)
Definition render_table (fuel : nat) (rows : list row) (justify_cols : string)
  : res (Z * list field * list row) :=
  let justify_cols_list := split comma justify_cols in
  s ← scan rows;
  justify_cols_list ← pad_justify justify_cols_list (curr_max_num_cols s);
  '(rows, max_col_widths) ←
    width_rows (curr_max_num_cols s) (list_of_lists_of_strings s) [];
  out ← render_rows fuel max_col_widths justify_cols_list rows;
  Ok (rc s, out, rows).

(** [columnize_output] with its [save_filename] parameter: the outcome and
    the files written, in order. With the default [''] both [if
    save_filename != ''] blocks are skipped. *)
Definition columnize_output_saving (scriptName : string) (fuel : nat)
    (input_data : list row) (justify_cols save_filename : string)
  : outcome * list file_write :=
  match resolve_input input_data with
  | Abort o => (o, [])
  | Ok rows =>
      if (length rows =? 0)%nat then (ReturnMsg 1 "line 195", [])
      else
        let render (saved_so_far : list file_write) :=
          match render_table fuel rows justify_cols with
          | Abort o => (o, saved_so_far)
          | Ok (status, out, rows') =>
              let data :=
                if shares_input input_data then rows' else input_data in
              if String.eqb save_filename EmptyString
              then (Return status out data, saved_so_far)
              else
                let name := txt_file_name save_filename in
                match write_lines out EmptyString with
                | (content, None) =>
                    (Return status out data,
                     saved_so_far ++ [FileWrite name content])
                | (content, Some e) =>
                    (Raise e, saved_so_far ++ [FileWrite name content])
                end
          end in
        if String.eqb save_filename EmptyString then render []
        else
          match save_input_data_to_csv_file scriptName rows save_filename with
          | SaveAbort o => (o, [])
          | SaveBroken w e => (Raise e, [w])
          | Saved w => render [w]
          end
  end.

(** A csv field that needs no quoting: no comma, no double quote, no line
    break, no blank in front, not longer than the field limit. *)
Definition plain_char (c : ascii) : bool :=
  negb (Ascii.eqb c comma || Ascii.eqb c dquote
        || Ascii.eqb c LF || Ascii.eqb c CR).

Fixpoint plain_chars (s : string) : bool :=
  match s with
  | EmptyString => true
  | String c s' => plain_char c && plain_chars s'
  end.

Definition plain (s : string) : bool :=
  plain_chars s && negb (String.prefix " " s)
  && (Z.of_nat (String.length s) <=? Csv.field_limit).

(** ** Sample data *)

Definition csv_line : string :=
  "x," +:+ String dquote "y,1" +:+ String dquote ",z".

Definition cells (l : list string) : row := RowList (map FStr l).

(** * Vocabulary of the statements *)

(** The index the loop consults next (lines 291-292). *)
Definition next_justify (jl : list string) (jcc : Z) : Z :=
  if jcc <? Z.of_nat (length jl) - 1 then jcc + 1 else jcc.

Definition is_LR (tok : string) : Prop :=
  classify tok = TokL \/ classify tok = TokR.

(** A token the loop accepts: [L], [R] or a run of blanks. *)
Definition valid_token (tok : string) : Prop := classify tok <> TokBad.

(** A row the renderer aligns: a list row with a field count other than 1. *)
Definition aligned_row (r : row) : bool :=
  match r with
  | RowList l => negb (length l =? 1)%nat
  | _ => false
  end.

(** Every row is a list of fields, with one field or with [c] fields. *)
Definition row_ok (c : nat) (r : row) : Prop :=
  exists l, r = RowList l /\ (length l = 1%nat \/ length l = c).

(** The number of columns the scan resolves for a uniform table. *)
Definition columns (c : nat) (rows : list row) : nat :=
  if existsb aligned_row rows then c else 0%nat.

(** What the scan leaves of a row when no padding takes place. *)
Definition scanned (r : row) : row :=
  match r with
  | RowList l => if (length l =? 1)%nat then r else RowList (none_to_empty l)
  | _ => r
  end.

(** What the width pass leaves of a row. *)
Definition stringed (r : row) : row :=
  match r with
  | RowList l =>
      if (length l =? 1)%nat then r
      else RowList (map (fun f => FStr (str f)) l)
  | _ => r
  end.

Definition strs (l : list field) : list field :=
  map (fun f => FStr (str f)) l.

Definition lens (l : list field) : list nat :=
  map (fun f => String.length (str f)) l.

(** [covers ws l]: every cell of [l], once turned into a string, fits the
    width of its column. *)
Definition covers (ws : list nat) (l : list field) : Prop :=
  Forall2 (fun f w => (String.length (str f) <= w)%nat) l ws.

(** The characters the loop still adds for the columns [ws], given whether
    the line is empty so far: a separator unless the line is empty, and the
    cell justified to its width plus one. *)
Fixpoint tail_len (empty : bool) (ws : list nat) : nat :=
  match ws with
  | [] => 0
  | w :: rest => (if empty then 0 else 1) + (w + 1) + tail_len false rest
  end.

(** What the renderer emits for a row, in terms of the row before the width
    pass: a one-field row gives its field, an aligned row a line of the full
    table width. *)
Definition emitted (ws : list nat) (r : row) (out : field) : Prop :=
  match r with
  | RowList l =>
      if (length l =? 1)%nat then l = [out]
      else exists line, out = FStr line
                        /\ String.length line = tail_len true ws
  | _ => True
  end.

Definition status_code (o : outcome) : option Z :=
  match o with
  | Return rc _ _ => Some rc
  | ReturnMsg rc _ => Some rc
  | SysExit code => Some code
  | Raise _ => None
  | OutOfFuel => None
  end.

Definition output_lines (o : outcome) : list field :=
  match o with
  | Return _ lines _ => lines
  | _ => []
  end.

Definition docstring_table : list row :=
  [cells ["col1"; "col2"; "col3"; "col4"; "col5"; "col6"];
   cells ["test123"; "test45678"; "test789"; "test0123"; "test456"; "test78"]].

(** A list row, and a list row with exactly [n] fields. *)
Definition is_list (r : row) : Prop := exists l, r = RowList l.

Definition has_fields (n : nat) (r : row) : Prop :=
  exists l, r = RowList l /\ length l = n.

(** What the padding pass makes of a list row. *)
Definition padded (cmax : nat) (r : row) : row :=
  match r with
  | RowList l =>
      RowList (l ++ replicate (cmax - length l) (FStr EmptyString))
  | _ => r
  end.

(** The state of the scan before the row at [index] is visited. Once a
    padding pass has run ([rc = 2]) every row has at least
    [curr_max_num_cols] fields and the rows visited so far have exactly
    that many. Before any padding the rows visited so far have one field,
    [curr_max_num_cols] fields, or none. *)
Definition scan_inv (index : nat) (s : scan_state) : Prop :=
  (rc s = 2
   /\ (2 <= curr_max_num_cols s)%nat
   /\ Forall (fun r => exists l, r = RowList l
                                 /\ (curr_max_num_cols s <= length l)%nat)
             (list_of_lists_of_strings s)
   /\ Forall (has_fields (curr_max_num_cols s))
             (take index (list_of_lists_of_strings s)))
  \/ (rc s = 0
      /\ curr_max_num_cols s <> 1%nat
      /\ Forall (fun r => has_fields 1 r
                          \/ has_fields (curr_max_num_cols s) r
                          \/ has_fields 0 r)
                (take index (list_of_lists_of_strings s))).

(** An outcome that is an uncaught exception, and an outcome that is not a
    [return] of the function. *)
Definition raises (o : outcome) : Prop := exists e, o = Raise e.

Definition aborting (o : outcome) : Prop :=
  match o with
  | Return _ _ _ | ReturnMsg _ _ => False
  | _ => True
  end.

(** A row that is not a list is the same object before and after; a list
    row may have been updated. *)
Definition same_unless_list (r r' : row) : Prop :=
  match r with
  | RowList _ => True
  | _ => r' = r
  end.

(** The width pass leaves one-field rows and rows that are not lists as
    they are. *)
Definition same_unless_aligned (r r' : row) : Prop :=
  match r with
  | RowList [f] => r' = r
  | RowList _ => True
  | _ => r' = r
  end.

(** What the renderer appends for a row it does not align. *)
Definition passed_through (r : row) (out : field) : Prop :=
  match r with
  | RowList [f] => out = f
  | RowList _ => True
  | RowStr t => out = FStr t
  | RowInt _ => True
  end.

(** [extends lo lc]: the fields [lc] are the fields [lo], possibly with
    [None] replaced by the empty string, followed by empty strings. *)
Definition extends (lo lc : list field) : Prop :=
  exists k : nat,
    lc = lo ++ replicate k (FStr EmptyString)
    \/ lc = none_to_empty lo ++ replicate k (FStr EmptyString).

(** A row of the table during the scan against the row the caller passed:
    it extends it, and it is longer only by padding, which never goes
    beyond the column count [cm]. *)
Definition scan_rel (cm : nat) (ro rc : row) : Prop :=
  exists lo lc : list field,
    ro = RowList lo /\ rc = RowList lc /\ extends lo lc
    /\ (length lc = length lo \/ (2 <= length lc <= cm)%nat).

(** The column count is 0 or the field count of an aligned row of the
    input. *)
Definition reached (orig : list row) (cm : nat) : Prop :=
  cm = 0%nat
  \/ exists lo, RowList lo ∈ orig /\ length lo <> 1%nat /\ length lo = cm.

(** The column count is at least the field count of every aligned row of
    the input before [index]. *)
Definition bounds (orig : list row) (index cm : nat) : Prop :=
  forall (j : nat) (lo : list field),
    (j < index)%nat -> orig !! j = Some (RowList lo) ->
    length lo <> 1%nat -> (length lo <= cm)%nat.

(** Some aligned row of [rows] has, in column [j], a cell whose text has
    [w] characters. *)
Definition column_cell_length (rows : list row) (j w : nat) : Prop :=
  exists (l : list field) (f : field),
    RowList l ∈ rows /\ length l <> 1%nat
    /\ l !! j = Some f /\ String.length (str f) = w.

(** The text of one aligned cell: [tok] is [L] or [R]. *)
Definition justified (tok s : string) (w : nat) : string :=
  match classify tok with
  | TokL => ljust s (w + 1)
  | TokR => rjust s (w + 1)
  | _ => EmptyString
  end.

(** The token that justifies column [k] (from 0) when no token is a spacer:
    the token at [k], or the last token when the list is shorter. *)
Definition carried (jl : list string) (k : nat) : string :=
  nth (Nat.min k (length jl - 1)) jl EmptyString.

Fixpoint cells_from (jl : list string) (k : nat) (ss : list string)
    (ws : list nat) : list string :=
  match ss, ws with
  | s :: ss', w :: ws' =>
      justified (carried jl k) s w :: cells_from jl (S k) ss' ws'
  | _, _ => []
  end.

(** Lines 289-290 and the [+=] of a cell. *)
Definition glue (line cell : string) : string :=
  (if String.eqb line EmptyString then line else line +:+ " ") +:+ cell.

(** Every cell preceded by one blank. *)
Fixpoint blank_joined (cs : list string) : string :=
  match cs with
  | [] => EmptyString
  | c :: cs' => " " +:+ c +:+ blank_joined cs'
  end.

(** What the renderer appends for a row when every token is [L] or [R],
    in terms of the row before the width pass. *)
Definition rendered (jl : list string) (ws : list nat) (r : row)
    (out : field) : Prop :=
  match r with
  | RowList l =>
      if (length l =? 1)%nat then l = [out]
      else out = FStr (String.concat " " (cells_from jl 0 (map str l) ws))
  | _ => True
  end.

(** The text of a file made of [lines], each followed by a newline. *)
Fixpoint lines_text (lines : list string) : string :=
  match lines with
  | [] => EmptyString
  | l :: lines' => l +:+ String LF EmptyString +:+ lines_text lines'
  end.

(** A list row with every cell turned into its [str]. *)
Definition as_strings (r : row) : row :=
  match r with
  | RowList l => RowList (map (fun f => FStr (str f)) l)
  | _ => r
  end.

(** A list row whose cells need no quoting in a csv line, and that is not
    the row of one empty cell (its csv line would be the blank line). *)
Definition plain_row (r : row) : Prop :=
  exists l : list field,
    r = RowList l
    /\ Forall (fun t => plain t = true) (map str l)
    /\ map str l <> [EmptyString].

Definition is_text (f : field) : bool :=
  match f with
  | FStr _ => true
  | _ => false
  end.

(** A row of a table of list rows as a returning call leaves it: one field,
    or [cm] fields that are all strs. *)
Definition settled (cm : nat) (r : row) : Prop :=
  exists l : list field,
    r = RowList l
    /\ (length l = 1%nat
        \/ (length l = cm /\ Forall (fun f => is_text f = true) l)).

(** * Properties *)

(** ** The abort monad *)

Lemma bind_Ok {A B : Type} (a : A) (k : A -> res B) : (Ok a ≫= k) = k a.
Proof. reflexivity. Qed.

Lemma bind_Abort {A B : Type} (o : outcome) (k : A -> res B) :
  (Abort o ≫= k) = Abort o.
Proof. reflexivity. Qed.

Lemma bind_Ok_inv {A B : Type} (m : res A) (k : A -> res B) (b : B) :
  (m ≫= k) = Ok b -> exists a, m = Ok a /\ k a = Ok b.
Proof. destruct m as [a|o]; [eauto | discriminate]. Qed.

(** Running a chain of binds whose heads have been rewritten to [Ok]. *)
Ltac run_binds := repeat (rewrite bind_Ok; cbn beta iota).

(** ** Strings *)

Lemma length_append (s t : string) :
  String.length (s +:+ t) = (String.length s + String.length t)%nat.
Proof. induction s as [|c s IH]; simpl; [reflexivity | now rewrite IH]. Qed.

Lemma length_spaces (n : nat) : String.length (spaces n) = n.
Proof. induction n as [|n IH]; simpl; [reflexivity | now rewrite IH]. Qed.

Lemma length_ljust (s : string) (n : nat) :
  (String.length s <= n)%nat -> String.length (ljust s n) = n.
Proof. intros H. unfold ljust. rewrite length_append, length_spaces. lia. Qed.

Lemma length_rjust (s : string) (n : nat) :
  (String.length s <= n)%nat -> String.length (rjust s n) = n.
Proof. intros H. unfold rjust. rewrite length_append, length_spaces. lia. Qed.

Lemma eqb_empty_length (s : string) :
  String.eqb s EmptyString = true <-> String.length s = 0%nat.
Proof. destruct s; simpl; split; intros; congruence. Qed.

(** ** Fuel *)

(** More fuel never changes a result that was reached. *)
Lemma render_loop_fuel_mono (n m : nat) r ws jl line jcc cc (x : res string) :
  render_loop n r ws jl line jcc cc = x ->
  x <> Abort OutOfFuel -> (n <= m)%nat ->
  render_loop m r ws jl line jcc cc = x.
Proof.
  revert m line jcc cc.
  induction n as [|n IH]; intros m line jcc cc Hx Hne Hle.
  - simpl in Hx. congruence.
  - destruct m as [|m]; [lia |].
    simpl in Hx |- *.
    destruct (cc + 1 >=? Z.of_nat (length ws)); [exact Hx |].
    destruct (py_index jl _) as [tok|]; [| exact Hx].
    destruct (classify tok); try exact Hx.
    + destruct (row_field r (cc + 1)) as [s|o]; [| exact Hx].
      destruct (col_width ws (cc + 1)) as [w|o]; [| exact Hx].
      simpl in Hx |- *. apply IH; [exact Hx | exact Hne | lia].
    + destruct (row_field r (cc + 1)) as [s|o]; [| exact Hx].
      destruct (col_width ws (cc + 1)) as [w|o]; [| exact Hx].
      simpl in Hx |- *. apply IH; [exact Hx | exact Hne | lia].
    + apply IH; [exact Hx | exact Hne | lia].
Qed.

Lemma render_row_fuel_mono (n m : nat) ws jl r (x : res field) :
  render_row n ws jl r = x ->
  x <> Abort OutOfFuel -> (n <= m)%nat ->
  render_row m ws jl r = x.
Proof.
  intros Hx Hne Hle.
  assert (Haligned :
    (line ← render_loop n r ws jl EmptyString (-1) (-1); Ok (FStr line)) = x ->
    (line ← render_loop m r ws jl EmptyString (-1) (-1); Ok (FStr line)) = x).
  { intros H.
    destruct (render_loop n r ws jl EmptyString (-1) (-1)) as [line|o] eqn:E.
    - rewrite (render_loop_fuel_mono n m _ _ _ _ _ _ _ E); [exact H | discriminate | exact Hle].
    - rewrite (render_loop_fuel_mono n m _ _ _ _ _ _ _ E); [exact H | | exact Hle].
      simpl in H. congruence. }
  unfold render_row in *.
  destruct r as [s|l|z]; [exact Hx | | auto].
  destruct l as [|f [|g l]]; auto.
Qed.

Lemma render_rows_fuel_mono (n m : nat) ws jl rows (x : res (list field)) :
  render_rows n ws jl rows = x ->
  x <> Abort OutOfFuel -> (n <= m)%nat ->
  render_rows m ws jl rows = x.
Proof.
  revert x. induction rows as [|r rows IH]; intros x Hx Hne Hle.
  - exact Hx.
  - simpl in Hx |- *.
    destruct (render_row n ws jl r) as [out|o] eqn:E.
    + rewrite (render_row_fuel_mono n m _ _ _ _ E); [| discriminate | exact Hle].
      simpl in Hx |- *.
      destruct (render_rows n ws jl rows) as [outs|o] eqn:E'.
      * rewrite (IH _ eq_refl); [exact Hx | discriminate | exact Hle].
      * rewrite (IH _ eq_refl); [exact Hx | | exact Hle].
        simpl in Hx. congruence.
    + rewrite (render_row_fuel_mono n m _ _ _ _ E); [exact Hx | | exact Hle].
      simpl in Hx. congruence.
Qed.

Lemma columnize_output_fuel_mono (n m : nat) input_data justify_cols o :
  columnize_output n input_data justify_cols = o ->
  o <> OutOfFuel -> (n <= m)%nat ->
  columnize_output m input_data justify_cols = o.
Proof.
  intros Ho Hne Hle. unfold columnize_output in *.
  destruct (resolve_input input_data) as [rows|o1]; [| exact Ho].
  simpl in Ho |- *.
  destruct (length rows =? 0)%nat; [exact Ho |].
  destruct (scan rows) as [s|o1]; [| exact Ho].
  simpl in Ho |- *.
  destruct (pad_justify _ _) as [jl|o1]; [| exact Ho].
  simpl in Ho |- *.
  destruct (width_rows _ _ _) as [[rows' ws]|o1]; [| exact Ho].
  simpl in Ho |- *.
  destruct (render_rows n ws jl rows') as [out|o1] eqn:E.
  - rewrite (render_rows_fuel_mono n m _ _ _ _ E); [exact Ho | discriminate | exact Hle].
  - rewrite (render_rows_fuel_mono n m _ _ _ _ E); [exact Ho | | exact Hle].
    simpl in Ho. congruence.
Qed.

(** A run reached with fuel [n] is reached with any [n + k]. *)
Lemma columnize_output_more_fuel (n k : nat) input_data justify_cols o :
  columnize_output n input_data justify_cols = o ->
  o <> OutOfFuel ->
  columnize_output (n + k) input_data justify_cols = o.
Proof.
  intros Ho Hne.
  apply (columnize_output_fuel_mono n); [exact Ho | exact Hne | lia].
Qed.

(** ** The render loop, one iteration at a time *)

Lemma py_index_nonneg {A : Type} (l : list A) (i : Z) :
  0 <= i -> py_index l i = l !! Z.to_nat i.
Proof.
  intros H. unfold py_index.
  destruct (i <? 0) eqn:E; [apply Z.ltb_lt in E; lia | reflexivity].
Qed.

Lemma py_index_last {A : Type} (l : list A) (x : A) :
  last l = Some x -> py_index l (Z.of_nat (length l) - 1) = Some x.
Proof.
  intros H. rewrite last_lookup in H.
  assert (length l <> 0%nat) by (destruct l; [discriminate | simpl; lia]).
  rewrite py_index_nonneg by lia.
  replace (Z.to_nat (Z.of_nat (length l) - 1)) with (Nat.pred (length l)) by lia.
  exact H.
Qed.

Lemma py_index_minus_one {A : Type} (l : list A) :
  py_index l (-1) = last l.
Proof.
  unfold py_index. simpl. rewrite last_lookup.
  destruct l as [|a l]; [reflexivity |].
  destruct (-1 + Z.of_nat (length (a :: l)) <? 0) eqn:E.
  - apply Z.ltb_lt in E. simpl length in E. lia.
  - f_equal. simpl length. lia.
Qed.

Lemma render_loop_break fuel r ws jl line jcc cc :
  Z.of_nat (length ws) <= cc + 1 ->
  render_loop (S fuel) r ws jl line jcc cc = Ok line.
Proof.
  intros H. simpl.
  destruct (cc + 1 >=? Z.of_nat (length ws)) eqn:E; [reflexivity |].
  rewrite Z.geb_leb in E. apply Z.leb_gt in E. lia.
Qed.

Lemma render_loop_step fuel r ws jl line jcc cc :
  cc + 1 < Z.of_nat (length ws) ->
  render_loop (S fuel) r ws jl line jcc cc =
    let line1 := if String.eqb line EmptyString then line else line +:+ " " in
    let jcc1 :=
      if jcc <? Z.of_nat (length jl) - 1 then jcc + 1 else jcc in
    match py_index jl jcc1 with
    | None => Abort (Raise IndexError)
    | Some tok =>
        match classify tok with
        | TokL =>
            s ← row_field r (cc + 1);
            w ← col_width ws (cc + 1);
            render_loop fuel r ws jl (line1 +:+ ljust s (w + 1)) jcc1 (cc + 1)
        | TokR =>
            s ← row_field r (cc + 1);
            w ← col_width ws (cc + 1);
            render_loop fuel r ws jl (line1 +:+ rjust s (w + 1)) jcc1 (cc + 1)
        | TokSpacer blanks =>
            render_loop fuel r ws jl (line1 +:+ blanks) jcc1 cc
        | TokBad => Abort (SysExit 1)
        end
    end.
Proof.
  intros H. simpl.
  destruct (cc + 1 >=? Z.of_nat (length ws)) eqn:E.
  - rewrite Z.geb_leb in E. apply Z.leb_le in E. lia.
  - replace (cc + 1 - 1) with cc by lia. reflexivity.
Qed.

(** When the last token is a spacer and the loop consults it with a column
    still to render, no amount of fuel lets the loop end. *)
Lemma render_loop_spins r ws jl tok blanks :
  last jl = Some tok -> classify tok = TokSpacer blanks ->
  forall fuel line jcc cc,
    next_justify jl jcc = Z.of_nat (length jl) - 1 ->
    cc + 1 < Z.of_nat (length ws) ->
    render_loop fuel r ws jl line jcc cc = Abort OutOfFuel.
Proof.
  intros Hlast Hcls fuel.
  induction fuel as [|fuel IH]; intros line jcc cc Hj Hc; [reflexivity |].
  rewrite render_loop_step by exact Hc. cbv zeta.
  unfold next_justify in Hj. rewrite Hj.
  rewrite (py_index_last _ _ Hlast), Hcls.
  apply IH; [| exact Hc].
  unfold next_justify.
  destruct (Z.of_nat (length jl) - 1 <? Z.of_nat (length jl) - 1) eqn:E;
    [apply Z.ltb_lt in E; lia | reflexivity].
Qed.

Lemma row_field_aborts r c o : row_field r c = Abort o -> o <> OutOfFuel.
Proof.
  unfold row_field. intros H.
  destruct r as [s|l|z].
  - destruct (py_index _ c); congruence.
  - destruct (py_index l c) as [[]|]; congruence.
  - congruence.
Qed.

Lemma col_width_aborts ws c o : col_width ws c = Abort o -> o <> OutOfFuel.
Proof. unfold col_width. destruct (py_index ws c); congruence. Qed.

(** When the last token is [L] or [R], the loop ends within
    [len(justify_cols_list) + len(max_col_widths) + 1] iterations, whatever
    the row. *)
Lemma render_loop_ends r ws jl tok :
  last jl = Some tok -> classify tok = TokL \/ classify tok = TokR ->
  forall fuel line jcc cc,
    (Z.to_nat (Z.of_nat (length jl) - 1 - jcc)
       + Z.to_nat (Z.of_nat (length ws) - 1 - cc) < fuel)%nat ->
    render_loop fuel r ws jl line jcc cc <> Abort OutOfFuel.
Proof.
  intros Hlast Hcls fuel.
  induction fuel as [|fuel IH]; intros line jcc cc Hm; [lia |].
  destruct (Z_lt_le_dec (cc + 1) (Z.of_nat (length ws))) as [Hc|Hc].
  2: { rewrite render_loop_break by exact Hc. discriminate. }
  rewrite render_loop_step by exact Hc. cbv zeta.
  fold (next_justify jl jcc).
  assert (Hnj : next_justify jl jcc = jcc + 1 /\ jcc < Z.of_nat (length jl) - 1
                \/ next_justify jl jcc = jcc /\ Z.of_nat (length jl) - 1 <= jcc).
  { unfold next_justify.
    destruct (jcc <? Z.of_nat (length jl) - 1) eqn:E;
      [apply Z.ltb_lt in E | apply Z.ltb_ge in E]; auto. }
  destruct (py_index jl (next_justify jl jcc)) as [t|] eqn:Ht; [| discriminate].
  destruct (classify t) eqn:Ect.
  - destruct (row_field r (cc + 1)) as [s|o] eqn:Ef;
      [| apply row_field_aborts in Ef; simpl; congruence].
    destruct (col_width ws (cc + 1)) as [w|o] eqn:Ew;
      [| apply col_width_aborts in Ew; simpl; congruence].
    simpl. apply IH. destruct Hnj as [[-> ?]|[-> ?]]; lia.
  - destruct (row_field r (cc + 1)) as [s|o] eqn:Ef;
      [| apply row_field_aborts in Ef; simpl; congruence].
    destruct (col_width ws (cc + 1)) as [w|o] eqn:Ew;
      [| apply col_width_aborts in Ew; simpl; congruence].
    simpl. apply IH. destruct Hnj as [[-> ?]|[-> ?]]; lia.
  - apply IH. destruct Hnj as [[-> ?]|[Hn Hge]]; [lia |].
    exfalso. rewrite Hn in Ht.
    destruct (Z.eq_dec jcc (Z.of_nat (length jl) - 1)) as [->|Hne].
    + rewrite (py_index_last _ _ Hlast) in Ht.
      assert (tok = t) by congruence. subst t.
      destruct Hcls; congruence.
    + assert (length jl <> 0%nat)
        by (destruct jl; [discriminate | simpl; lia]).
      rewrite py_index_nonneg in Ht by lia.
      apply lookup_lt_Some in Ht. lia.
  - discriminate.
Qed.

(** ** Tables whose aligned rows all have [c] fields *)

Lemma length_none_to_empty (l : list field) :
  length (none_to_empty l) = length l.
Proof. unfold none_to_empty. apply length_map. Qed.

Section Uniform.

Variable c : nat.

Lemma row_ok_scanned (r : row) : row_ok c r -> row_ok c (scanned r).
Proof.
  intros (l & -> & Hl). simpl.
  destruct (length l =? 1)%nat; [exists l; auto |].
  exists (none_to_empty l). rewrite length_none_to_empty. auto.
Qed.

Lemma scan_from_uniform (k : nat) :
  forall (i : nat) (cur : list row) (cm : nat),
    length cur = (i + k)%nat -> Forall (row_ok c) cur -> cm = 0%nat \/ cm = c ->
    scan_from (seq i k) (ScanState cur cm 0)
    = Ok (ScanState (take i cur ++ map scanned (drop i cur))
            (if existsb aligned_row (drop i cur) then c else cm) 0).
Proof.
  induction k as [|k IH]; intros i cur cm Hlen Hok Hcm.
  - simpl. rewrite drop_ge, take_ge by lia. simpl.
    now rewrite app_nil_r.
  - assert (Hi : (i < length cur)%nat) by lia.
    destruct (lookup_lt_is_Some_2 cur i Hi) as [r Hr].
    assert (Hrok : row_ok c r).
    { rewrite Forall_lookup in Hok. exact (Hok i r Hr). }
    destruct Hrok as (l & -> & Hl).
    rewrite (drop_S _ _ _ Hr). cbn [seq scan_from map existsb].
    unfold scan_row. cbn [list_of_lists_of_strings curr_max_num_cols rc].
    rewrite Hr. cbn [aligned_row scanned].
    destruct (length l =? 1)%nat eqn:E1.
    + rewrite bind_Ok, IH; [| lia | exact Hok | exact Hcm].
      rewrite (take_S_r _ _ _ Hr), <- app_assoc. reflexivity.
    + apply Nat.eqb_neq in E1.
      assert (Hc : length l = c) by (destruct Hl; [contradiction | assumption]).
      rewrite length_none_to_empty.
      assert (Hstep :
        (if (cm =? 0)%nat
         then Ok (ScanState (<[i:=RowList (none_to_empty l)]> cur) (length l) 0)
         else if (length l =? cm)%nat
              then Ok (ScanState (<[i:=RowList (none_to_empty l)]> cur) cm 0)
              else
                rows' ← pad_all (if (cm <? length l)%nat then length l else cm)
                          (<[i:=RowList (none_to_empty l)]> cur);
                Ok (ScanState rows'
                      (if (cm <? length l)%nat then length l else cm) 2))
        = Ok (ScanState (<[i:=RowList (none_to_empty l)]> cur) c 0)).
      { destruct (cm =? 0)%nat eqn:E0; [now rewrite Hc |].
        apply Nat.eqb_neq in E0.
        assert (cm = c) by (destruct Hcm; [contradiction | assumption]).
        subst cm. rewrite Hc, Nat.eqb_refl. reflexivity. }
      rewrite Hstep, bind_Ok.
      rewrite IH.
      * rewrite take_S_r with (x := RowList (none_to_empty l))
          by (apply list_lookup_insert_eq; exact Hi).
        rewrite take_insert_ge, drop_insert_lt by lia.
        rewrite <- app_assoc. simpl.
        now destruct (existsb aligned_row (drop (S i) cur)).
      * rewrite length_insert. lia.
      * apply Forall_insert; [exact Hok |].
        exists (none_to_empty l). rewrite length_none_to_empty. auto.
      * auto.
Qed.

(** Uniform tables are scanned without any padding: [rc] stays 0, and
    [curr_max_num_cols] is [c] as soon as one aligned row exists. *)
Lemma scan_uniform (rows : list row) :
  Forall (row_ok c) rows ->
  scan rows
  = Ok (ScanState (map scanned rows)
          (if existsb aligned_row rows then c else 0%nat) 0).
Proof.
  intros Hok. unfold scan.
  rewrite scan_from_uniform; [reflexivity | reflexivity | exact Hok | auto].
Qed.

End Uniform.

(** ** The width pass on one row *)

(** The first aligned row: [max_col_widths] is filled cell by cell. *)
Lemma width_cells_first (k : nat) :
  forall (i : nat) (l : list field) (ws : list nat),
    length l = (i + k)%nat -> length ws = i ->
    width_cells (seq i k) (l, ws)
    = Ok (take i l ++ strs (drop i l), ws ++ lens (drop i l)).
Proof.
  induction k as [|k IH]; intros i l ws Hl Hws.
  - simpl. rewrite drop_ge, take_ge by lia. simpl.
    now rewrite !app_nil_r.
  - assert (Hi : (i < length l)%nat) by lia.
    destruct (lookup_lt_is_Some_2 l i Hi) as [f Hf].
    cbn [seq width_cells]. unfold width_cell at 1. rewrite Hf.
    rewrite length_insert.
    assert (E : (length ws <? length l)%nat = true)
      by (apply Nat.ltb_lt; lia).
    rewrite E, bind_Ok.
    rewrite IH; [| rewrite length_insert; lia | rewrite length_app; simpl; lia].
    rewrite take_S_r with (x := FStr (str f))
      by (apply list_lookup_insert_eq; exact Hi).
    rewrite take_insert_ge, drop_insert_lt by lia.
    rewrite (drop_S _ _ _ Hf). simpl.
    now rewrite <- !app_assoc.
Qed.

(** A later row of the same length: each width is raised to the cell's
    length when that is larger. *)
Lemma width_cells_next (k : nat) :
  forall (i : nat) (l : list field) (ws : list nat),
    length l = (i + k)%nat -> length ws = length l ->
    width_cells (seq i k) (l, ws)
    = Ok (take i l ++ strs (drop i l),
          take i ws ++ zip_with Nat.max (drop i ws) (lens (drop i l))).
Proof.
  induction k as [|k IH]; intros i l ws Hl Hws.
  - simpl. rewrite !drop_ge, !take_ge by lia. simpl.
    now rewrite !app_nil_r.
  - assert (Hi : (i < length l)%nat) by lia.
    destruct (lookup_lt_is_Some_2 l i Hi) as [f Hf].
    assert (Hiw : (i < length ws)%nat) by lia.
    destruct (lookup_lt_is_Some_2 ws i Hiw) as [w Hw].
    cbn [seq width_cells]. unfold width_cell at 1. rewrite Hf.
    rewrite length_insert.
    assert (E : (length ws <? length l)%nat = false)
      by (apply Nat.ltb_ge; lia).
    rewrite E, Hw.
    rewrite (drop_S _ _ _ Hf), (drop_S _ _ _ Hw). simpl.
    destruct (w <? String.length (str f))%nat eqn:Ew.
    + apply Nat.ltb_lt in Ew. rewrite bind_Ok.
      rewrite IH; [| rewrite length_insert; lia | rewrite !length_insert; lia].
      rewrite take_S_r with (x := FStr (str f))
        by (apply list_lookup_insert_eq; exact Hi).
      rewrite take_S_r with (l := <[i:=String.length (str f)]> ws)
                            (x := String.length (str f))
        by (apply list_lookup_insert_eq; exact Hiw).
      rewrite !take_insert_ge, !drop_insert_lt by lia.
      rewrite <- !app_assoc. simpl.
      replace (w `max` String.length (str f))%nat
        with (String.length (str f)) by lia.
      reflexivity.
    + apply Nat.ltb_ge in Ew. rewrite bind_Ok.
      rewrite IH; [| rewrite length_insert; lia | rewrite !length_insert; lia].
      rewrite take_S_r with (x := FStr (str f))
        by (apply list_lookup_insert_eq; exact Hi).
      rewrite (take_S_r _ _ _ Hw).
      rewrite !take_insert_ge, !drop_insert_lt by lia.
      rewrite <- !app_assoc. simpl.
      replace (w `max` String.length (str f))%nat with w by lia.
      reflexivity.
Qed.

Lemma covers_lens (l : list field) : covers (lens l) l.
Proof.
  unfold covers, lens. induction l as [|f l IH]; simpl; constructor; auto.
Qed.

Lemma covers_max (ws : list nat) (l : list field) :
  length ws = length l -> covers (zip_with Nat.max ws (lens l)) l.
Proof.
  unfold covers, lens. revert ws.
  induction l as [|f l IH]; intros [|w ws] H; simpl in *;
    try discriminate; constructor; [lia | apply IH; lia].
Qed.

Lemma le_zip_max (ws vs : list nat) :
  length ws = length vs -> Forall2 le ws (zip_with Nat.max ws vs).
Proof.
  revert vs. induction ws as [|w ws IH]; intros [|v vs] H; simpl in *;
    try discriminate; constructor; [lia | apply IH; lia].
Qed.

Lemma covers_mono (ws ws' : list nat) (l : list field) :
  covers ws l -> Forall2 le ws ws' -> covers ws' l.
Proof.
  unfold covers. intros H. revert ws'.
  induction H as [|f w l ws Hf H IH]; intros ws' Hle; inversion Hle; subst;
    constructor; [lia | auto].
Qed.

Lemma Forall2_le_refl (ws : list nat) : Forall2 le ws ws.
Proof. induction ws; constructor; auto. Qed.

Lemma Forall2_le_trans (a b d : list nat) :
  Forall2 le a b -> Forall2 le b d -> Forall2 le a d.
Proof.
  intros H. revert d.
  induction H as [|x y a b Hxy H IH]; intros d Hd; inversion Hd; subst;
    constructor; [lia | auto].
Qed.

Section UniformWidths.

Variable c : nat.

(** On a uniform table the width pass succeeds; it turns every cell of
    the aligned rows into a string and ends with one width per column,
    each at least as large as every cell of its column. *)
Lemma width_rows_uniform (cm : nat) (rows : list row) :
  Forall (row_ok c) rows ->
  (existsb aligned_row rows = true -> cm = c) ->
  forall ws : list nat,
    ws = [] \/ length ws = c ->
    exists ws' : list nat,
      width_rows cm rows ws = Ok (map stringed rows, ws')
      /\ (ws' = [] \/ length ws' = c)
      /\ (existsb aligned_row rows = true -> length ws' = c)
      /\ (existsb aligned_row rows = false -> ws' = ws)
      /\ (length ws = c -> length ws' = c /\ Forall2 le ws ws')
      /\ Forall (fun r => forall l, r = RowList l -> length l <> 1%nat ->
                                    covers ws' l) rows.
Proof.
  induction rows as [|r rows IH]; intros Hok Hcm ws Hws.
  - exists ws. simpl. repeat split; auto using Forall2_le_refl.
    discriminate.
  - inversion Hok as [|r0 rows0 Hr Hrows]; subst.
    destruct Hr as (l & -> & Hl).
    cbn [width_rows width_row map stringed existsb aligned_row] in *.
    destruct (length l =? 1)%nat eqn:E1.
    + destruct (IH Hrows Hcm ws Hws)
        as (ws' & Hrun & Hlen & Hex & Hno & Hle & Hcov).
      exists ws'. run_binds. rewrite Hrun. run_binds.
      repeat split; auto; try (apply Hle; assumption).
      constructor; [| exact Hcov].
      intros l' [= <-] Hne. apply Nat.eqb_eq in E1. contradiction.
    + apply Nat.eqb_neq in E1.
      assert (Hc : length l = c) by (destruct Hl; [contradiction | assumption]).
      assert (cm = c) by (apply Hcm; reflexivity). subst cm.
      assert (Hcells : exists ws1,
        width_cells (seq 0 c) (l, ws) = Ok (strs l, ws1)
        /\ length ws1 = c /\ covers ws1 l
        /\ (length ws = c -> Forall2 le ws ws1)).
      { destruct Hws as [-> | Hws].
        - exists (lens l). rewrite width_cells_first by (simpl; lia).
          simpl. repeat split.
          + unfold lens. rewrite length_map. exact Hc.
          + apply covers_lens.
          + simpl. intros <-. destruct l; [constructor | discriminate].
        - exists (zip_with Nat.max ws (lens l)).
          rewrite width_cells_next by (simpl; lia).
          simpl. repeat split.
          + rewrite length_zip_with_l_eq; [lia |].
            unfold lens. rewrite length_map. lia.
          + apply covers_max. lia.
          + intros _. apply le_zip_max. unfold lens. rewrite length_map. lia. }
      destruct Hcells as (ws1 & Hrun1 & Hlen1 & Hcov1 & Hle1).
      destruct (IH Hrows (fun _ => eq_refl) ws1 (or_intror Hlen1))
        as (ws' & Hrun & Hlen & Hex & Hno & Hle & Hcov).
      destruct (Hle Hlen1) as [Hlen' Hle'].
      exists ws'. rewrite Hrun1. run_binds. rewrite Hrun. run_binds.
      split; [reflexivity |]. split; [auto |]. split; [auto |].
      split; [discriminate |]. split.
      * intros Hw. split; [exact Hlen' |].
        eapply Forall2_le_trans; [apply Hle1; exact Hw | exact Hle'].
      * constructor; [| exact Hcov].
        intros l' [= <-] _. eapply covers_mono; eauto.
Qed.

End UniformWidths.

(** ** Rendering an aligned row with [L] and [R] tokens only *)

Lemma tail_len_total (ws : list nat) :
  tail_len true ws
  = (sum_list (map (fun w => w + 1) ws) + (length ws - 1))%nat.
Proof.
  assert (H : forall vs, tail_len false vs
                         = (sum_list (map (fun w => w + 1) vs) + length vs)%nat).
  { induction vs as [|v vs IH]; simpl; [reflexivity | rewrite IH; lia]. }
  destruct ws as [|w ws]; simpl; [reflexivity | rewrite H; lia].
Qed.

Lemma next_justify_range (jl : list string) (jcc : Z) :
  jl <> [] -> -1 <= jcc <= Z.of_nat (length jl) - 1 ->
  0 <= next_justify jl jcc <= Z.of_nat (length jl) - 1
  /\ jcc <= next_justify jl jcc.
Proof.
  intros Hne Hj. unfold next_justify.
  destruct (jcc <? Z.of_nat (length jl) - 1) eqn:E;
    [apply Z.ltb_lt in E | apply Z.ltb_ge in E].
  - lia.
  - destruct jl; [contradiction | simpl length in *; lia].
Qed.

Lemma py_index_in_range {A : Type} (l : list A) (i : Z) :
  0 <= i <= Z.of_nat (length l) - 1 -> exists x, py_index l i = Some x /\ x ∈ l.
Proof.
  intros H. rewrite py_index_nonneg by lia.
  destruct (lookup_lt_is_Some_2 l (Z.to_nat i)) as [x Hx]; [lia |].
  exists x. split; [exact Hx |]. apply list_elem_of_lookup. eauto.
Qed.

Lemma length_line_sep (line : string) :
  String.length (if String.eqb line EmptyString then line else line +:+ " ")
  = (String.length line + if String.eqb line EmptyString then 0 else 1)%nat.
Proof.
  destruct (String.eqb line EmptyString); [lia |].
  rewrite length_append. reflexivity.
Qed.

Lemma eqb_empty_false (s : string) :
  (0 < String.length s)%nat -> String.eqb s EmptyString = false.
Proof. destruct s; simpl; [lia | reflexivity]. Qed.

Lemma render_loop_LR (l : list field) (ws : list nat) (jl : list string) :
  covers ws l -> Forall is_LR jl -> jl <> [] ->
  forall (n k : nat) (line : string) (jcc : Z) (fuel : nat),
    length ws = (k + n)%nat ->
    -1 <= jcc <= Z.of_nat (length jl) - 1 ->
    (n < fuel)%nat ->
    exists line',
      render_loop fuel (RowList (strs l)) ws jl line jcc (Z.of_nat k - 1)
      = Ok line'
      /\ String.length line'
         = (String.length line
            + tail_len (String.eqb line EmptyString) (drop k ws))%nat.
Proof.
  intros Hcov HLR Hne n.
  induction n as [|n IH]; intros k line jcc fuel Hlen Hj Hfuel;
    (destruct fuel as [|fuel]; [lia |]).
  - exists line. rewrite render_loop_break by lia.
    rewrite drop_ge by lia. simpl. split; [reflexivity | lia].
  - rewrite render_loop_step by lia. cbv zeta.
    fold (next_justify jl jcc).
    destruct (next_justify_range jl jcc Hne Hj) as [Hr Hge].
    destruct (py_index_in_range jl _ Hr) as (tok & -> & Hin).
    assert (Htok : is_LR tok) by (rewrite Forall_forall in HLR; auto).
    assert (Hk : (k < length ws)%nat) by lia.
    destruct (lookup_lt_is_Some_2 ws k Hk) as [w Hw].
    assert (Hkl : (k < length l)%nat)
      by (rewrite (Forall2_length _ _ _ Hcov); exact Hk).
    destruct (lookup_lt_is_Some_2 l k Hkl) as [f Hf].
    assert (Hfit : (String.length (str f) <= w)%nat)
      by exact (Forall2_lookup_lr _ _ _ _ _ _ Hcov Hf Hw).
    replace (Z.of_nat k - 1 + 1) with (Z.of_nat k) by lia.
    assert (Hfield : row_field (RowList (strs l)) (Z.of_nat k) = Ok (str f)).
    { unfold row_field. rewrite py_index_nonneg by lia.
      rewrite Nat2Z.id. unfold strs. rewrite list_lookup_fmap, Hf.
      reflexivity. }
    assert (Hwidth : col_width ws (Z.of_nat k) = Ok w).
    { unfold col_width. rewrite py_index_nonneg by lia.
      rewrite Nat2Z.id, Hw. reflexivity. }
    rewrite Hfield, Hwidth. rewrite (drop_S _ _ _ Hw). cbn [tail_len].
    set (line1 := if String.eqb line EmptyString then line else line +:+ " ").
    assert (Hl1 : String.length line1
                  = (String.length line
                     + if String.eqb line EmptyString then 0 else 1)%nat)
      by apply length_line_sep.
    destruct Htok as [-> | ->]; run_binds.
    + destruct (IH (S k) (line1 +:+ ljust (str f) (w + 1))
                  (next_justify jl jcc) fuel) as (line' & Hrun & Hlen');
        [lia | lia | lia |].
      exists line'. replace (Z.of_nat (S k) - 1) with (Z.of_nat k) in Hrun by lia.
      split; [exact Hrun |]. rewrite Hlen'.
      rewrite eqb_empty_false
        by (rewrite length_append, length_ljust by lia; lia).
      rewrite length_append, length_ljust, Hl1 by lia. lia.
    + destruct (IH (S k) (line1 +:+ rjust (str f) (w + 1))
                  (next_justify jl jcc) fuel) as (line' & Hrun & Hlen');
        [lia | lia | lia |].
      exists line'. replace (Z.of_nat (S k) - 1) with (Z.of_nat k) in Hrun by lia.
      split; [exact Hrun |]. rewrite Hlen'.
      rewrite eqb_empty_false
        by (rewrite length_append, length_rjust by lia; lia).
      rewrite length_append, length_rjust, Hl1 by lia. lia.
Qed.

Lemma split_LR : split comma "L,R" = ["L"; "R"].
Proof. reflexivity. Qed.

Lemma pad_justify_LR (cm : nat) :
  exists jl, pad_justify ["L"; "R"] cm = Ok jl /\ Forall is_LR jl /\ jl <> [].
Proof.
  unfold pad_justify.
  assert (HL : is_LR "L") by (left; reflexivity).
  assert (HR : is_LR "R") by (right; reflexivity).
  destruct (length ["L"; "R"] <? cm)%nat.
  - rewrite py_index_minus_one. simpl last.
    eexists. split; [reflexivity |]. split; [| discriminate].
    apply Forall_app. split; [repeat constructor; assumption |].
    apply Forall_replicate. exact HR.
  - eexists. split; [reflexivity |].
    split; [repeat constructor; assumption | discriminate].
Qed.

Lemma render_rows_LR (ws : list nat) (jl : list string) (fuel : nat)
    (rows : list row) :
  Forall is_LR jl -> jl <> [] -> (length ws < fuel)%nat ->
  Forall (fun r => exists l, r = RowList l
                             /\ (length l <> 1%nat -> covers ws l)) rows ->
  exists lines,
    render_rows fuel ws jl (map stringed rows) = Ok lines
    /\ Forall2 (emitted ws) rows lines.
Proof.
  intros HLR Hne Hfuel Hrows.
  induction Hrows as [|r rows (l & -> & Hcov) Hrows IH].
  - exists []. split; [reflexivity | constructor].
  - destruct IH as (lines & Hrun & Hem).
    cbn [map render_rows stringed].
    destruct (length l =? 1)%nat eqn:E1.
    + apply Nat.eqb_eq in E1.
      destruct l as [|f [|g l]]; try discriminate.
      exists (f :: lines). cbn [render_row]. run_binds. rewrite Hrun. run_binds.
      split; [reflexivity |]. constructor; [reflexivity | exact Hem].
    + apply Nat.eqb_neq in E1. specialize (Hcov E1).
      destruct (render_loop_LR l ws jl Hcov HLR Hne (length ws) 0
                  EmptyString (-1) fuel) as (line & Hloop & Hlen).
      { reflexivity. }
      { destruct jl; [contradiction | simpl length; lia]. }
      { exact Hfuel. }
      change (Z.of_nat 0 - 1) with (-1) in Hloop.
      change (drop 0 ws) with ws in Hlen.
      change (String.eqb EmptyString EmptyString) with true in Hlen.
      change (String.length EmptyString) with 0%nat in Hlen.
      rewrite Nat.add_0_l in Hlen.
      exists (FStr line :: lines).
      assert (Hrow : render_row fuel ws jl (RowList (strs l)) = Ok (FStr line)).
      { unfold render_row. fold (strs l).
        destruct (strs l) as [|f [|g l']] eqn:Es.
        - rewrite Hloop. reflexivity.
        - exfalso. apply E1. unfold strs in Es.
          rewrite <- (length_map (fun f => FStr (str f))), Es. reflexivity.
        - rewrite Hloop. reflexivity. }
      fold (strs l). rewrite Hrow. run_binds. rewrite Hrun. run_binds.
      split; [reflexivity |]. constructor; [| exact Hem].
      unfold emitted. apply Nat.eqb_neq in E1. rewrite E1.
      exists line. split; [reflexivity | exact Hlen].
Qed.

(** ** A whole run on a uniform table *)

Lemma aligned_row_scanned (r : row) : aligned_row (scanned r) = aligned_row r.
Proof.
  destruct r as [s|l|z]; try reflexivity. simpl.
  destruct (length l =? 1)%nat eqn:E; simpl;
    [now rewrite E | now rewrite length_none_to_empty, E].
Qed.

Lemma existsb_aligned_scanned (rows : list row) :
  existsb aligned_row (map scanned rows) = existsb aligned_row rows.
Proof.
  induction rows as [|r rows IH]; simpl;
    [reflexivity | now rewrite aligned_row_scanned, IH].
Qed.

Lemma uniform_phases (c : nat) (rows : list row) :
  Forall (row_ok c) rows ->
  exists ws : list nat,
    scan rows = Ok (ScanState (map scanned rows) (columns c rows) 0)
    /\ width_rows (columns c rows) (map scanned rows) []
       = Ok (map stringed (map scanned rows), ws)
    /\ length ws = columns c rows
    /\ Forall (fun r => exists l, r = RowList l
                                  /\ (length l <> 1%nat -> covers ws l))
              (map scanned rows).
Proof.
  intros Hok.
  assert (Hok' : Forall (row_ok c) (map scanned rows)).
  { apply Forall_fmap. eapply Forall_impl; [exact Hok |].
    intros r Hr. apply row_ok_scanned. exact Hr. }
  destruct (width_rows_uniform c (columns c rows) (map scanned rows) Hok')
    with (ws := @nil nat) as (ws & Hrun & _ & Hex & Hno & _ & Hcov).
  { rewrite existsb_aligned_scanned. unfold columns. now intros ->. }
  { now left. }
  exists ws. split; [apply scan_uniform; exact Hok |].
  split; [exact Hrun |]. split.
  - rewrite existsb_aligned_scanned in Hex, Hno. unfold columns.
    destruct (existsb aligned_row rows); [now apply Hex |].
    now rewrite Hno.
  - rewrite Forall_forall in Hok', Hcov. apply Forall_forall.
    intros r Hr. destruct (Hok' r Hr) as (l & -> & _).
    exists l. split; [reflexivity |]. intros Hne. now apply (Hcov _ Hr).
Qed.

Lemma Forall2_emitted_aligned (ws : list nat) (rows : list row)
    (lines : list field) (i : nat) (l : list field) :
  Forall2 (emitted ws) (map scanned rows) lines ->
  rows !! i = Some (RowList l) -> length l <> 1%nat ->
  exists line, lines !! i = Some (FStr line)
               /\ String.length line = tail_len true ws.
Proof.
  intros Hem Hi Hne.
  assert (Hs : map scanned rows !! i = Some (RowList (none_to_empty l))).
  { change (map scanned rows) with (scanned <$> rows).
    rewrite list_lookup_fmap, Hi. simpl.
    apply Nat.eqb_neq in Hne. now rewrite Hne. }
  destruct (Forall2_lookup_l _ _ _ _ _ Hem Hs) as (out & Hout & He).
  unfold emitted in He. rewrite length_none_to_empty in He.
  apply Nat.eqb_neq in Hne. rewrite Hne in He.
  destruct He as (line & -> & Hlen). eauto.
Qed.

(** C7. For every input whose aligned rows all have [c] fields, rendered
    with the justification ["L,R"], the call returns with status 0 and
    every aligned line has the same length: the sum over the [C] columns of
    the column width plus one, plus [C - 1] separating blanks. *)
Theorem C7_equal_field_counts_give_equal_line_lengths :
  forall (c : nat) (input_data rows : list row) (fuel : nat),
    resolve_input input_data = Ok rows ->
    rows <> [] ->
    Forall (row_ok c) rows ->
    (c < fuel)%nat ->
    exists (s : scan_state) (rows' : list row) (widths : list nat)
           (lines : list field) (data : list row),
      scan rows = Ok s
      /\ width_rows (curr_max_num_cols s) (list_of_lists_of_strings s) []
         = Ok (rows', widths)
      /\ length widths = curr_max_num_cols s
      /\ columnize_output fuel input_data "L,R" = Return 0 lines data
      /\ length lines = length rows
      /\ forall (i : nat) (l : list field),
           rows !! i = Some (RowList l) -> length l <> 1%nat ->
           curr_max_num_cols s = c
           /\ exists line : string,
                lines !! i = Some (FStr line)
                /\ String.length line
                   = (sum_list (map (fun w => w + 1) widths)
                      + (curr_max_num_cols s - 1))%nat.
Proof.
  intros c input_data rows fuel Hres Hne Hok Hfuel.
  destruct (uniform_phases c rows Hok) as (ws & Hscan & Hwidth & Hlen & Hcov).
  destruct (pad_justify_LR (columns c rows)) as (jl & Hpad & HLR & Hjl).
  assert (Hfuel' : (length ws < fuel)%nat).
  { rewrite Hlen. unfold columns. destruct (existsb aligned_row rows); lia. }
  destruct (render_rows_LR ws jl fuel (map scanned rows) HLR Hjl Hfuel' Hcov)
    as (lines & Hrender & Hem).
  exists (ScanState (map scanned rows) (columns c rows) 0),
         (map stringed (map scanned rows)), ws, lines.
  eexists. cbn [curr_max_num_cols list_of_lists_of_strings].
  split; [exact Hscan |]. split; [exact Hwidth |]. split; [exact Hlen |].
  split; [| split].
  - unfold columnize_output. rewrite Hres. run_binds.
    destruct rows as [|r0 rows0]; [contradiction |].
    cbn [length Nat.eqb]. rewrite split_LR, Hscan. run_binds.
    cbn [curr_max_num_cols list_of_lists_of_strings rc].
    rewrite Hpad. run_binds. rewrite Hwidth. run_binds.
    rewrite Hrender. run_binds. reflexivity.
  - rewrite <- (Forall2_length _ _ _ Hem). now rewrite length_map.
  - intros i l Hi Hl. split.
    + unfold columns.
      assert (Hex : existsb aligned_row rows = true).
      { apply existsb_exists. exists (RowList l). split.
        - apply list_elem_of_In, list_elem_of_lookup. eauto.
        - simpl. apply Nat.eqb_neq in Hl. now rewrite Hl. }
      rewrite Hex.
      rewrite Forall_forall in Hok.
      destruct (Hok (RowList l)) as (l' & [= <-] & [H1 | Hc]);
        [apply list_elem_of_lookup; eauto | contradiction | reflexivity].
    + destruct (Forall2_emitted_aligned ws rows lines i l Hem Hi Hl)
        as (line & Hline & Hlenl).
      exists line. split; [exact Hline |].
      rewrite Hlenl, tail_len_total, Hlen. reflexivity.
Qed.

Lemma C7_witness :
  exists (s : scan_state) (rows' : list row) (widths : list nat)
         (lines : list field) (data : list row),
    scan [cells ["a"; "bb"]; cells ["title"]; cells ["ccc"; "d"]] = Ok s
    /\ width_rows (curr_max_num_cols s) (list_of_lists_of_strings s) []
       = Ok (rows', widths)
    /\ length widths = curr_max_num_cols s
    /\ columnize_output 3
         [cells ["a"; "bb"]; cells ["title"]; cells ["ccc"; "d"]] "L,R"
       = Return 0 lines data
    /\ length lines = 3%nat
    /\ forall (i : nat) (l : list field),
         [cells ["a"; "bb"]; cells ["title"]; cells ["ccc"; "d"]] !! i
           = Some (RowList l) ->
         length l <> 1%nat ->
         curr_max_num_cols s = 2%nat
         /\ exists line : string,
              lines !! i = Some (FStr line)
              /\ String.length line
                 = (sum_list (map (fun w => w + 1) widths)
                    + (curr_max_num_cols s - 1))%nat.
Proof.
  apply (C7_equal_field_counts_give_equal_line_lengths 2%nat
           [cells ["a"; "bb"]; cells ["title"]; cells ["ccc"; "d"]]
           [cells ["a"; "bb"]; cells ["title"]; cells ["ccc"; "d"]] 3).
  - reflexivity.
  - discriminate.
  - repeat (constructor; [eexists; split; [reflexivity | simpl; auto] |]).
    constructor.
  - lia.
Defined.

(** ** An unrecognised justification token *)

Lemma classify_bad (tok : string) :
  tok <> "L" -> tok <> "R" -> search_spacer tok = None -> classify tok = TokBad.
Proof.
  intros HL HR Hs. unfold classify.
  destruct (String.eqb_spec tok "L"); [contradiction |].
  destruct (String.eqb_spec tok "R"); [contradiction |].
  now rewrite Hs.
Qed.

(** The iteration that consults a token which is neither [L], nor [R], nor
    a run of blanks ends the call with [sys.exit(1)], whatever the line built
    so far. *)
Lemma render_loop_bad_token fuel r ws jl line jcc cc tok :
  cc + 1 < Z.of_nat (length ws) ->
  py_index jl (next_justify jl jcc) = Some tok ->
  tok <> "L" -> tok <> "R" -> search_spacer tok = None ->
  render_loop (S fuel) r ws jl line jcc cc = Abort (SysExit 1).
Proof.
  intros Hc Htok HL HR Hs.
  rewrite render_loop_step by exact Hc. cbv zeta.
  fold (next_justify jl jcc). rewrite Htok.
  now rewrite (classify_bad tok HL HR Hs).
Qed.

Lemma render_rows_LQ (ws : list nat) (fuel : nat) (rows : list row) :
  length ws = 2%nat -> (2 <= fuel)%nat ->
  Forall (row_ok 2%nat) rows ->
  existsb aligned_row rows = true ->
  render_rows fuel ws ["L"; "Q"] (map stringed rows) = Abort (SysExit 1).
Proof.
  intros Hws Hfuel Hok.
  destruct ws as [|w0 [|w1 [|w2 ws]]]; try discriminate.
  destruct fuel as [|[|fuel]]; try lia.
  induction Hok as [|r rows (l & -> & Hl) Hok IH]; intros Hex;
    [discriminate |].
  cbn [map render_rows stringed].
  destruct Hl as [Hl | Hl].
  - destruct l as [|f [|g l]]; try discriminate.
    cbn [length Nat.eqb render_row]. run_binds.
    rewrite IH by exact Hex. reflexivity.
  - destruct l as [|f [|g [|h l]]]; try discriminate.
    reflexivity.
Qed.

(** C5. With the justification ["L,Q"] and a table of two columns (every
    row has two fields, or one field, and some row has two) the call ends
    with [sys.exit(1)]: the fatal status 1 and no line list at all. In
    general the iteration that consults a token that is not [L], not [R] and
    not a run of blanks aborts at once, whatever was rendered so far. *)
Theorem C5_invalid_justification_token_is_fatal :
  (forall (input_data rows : list row) (fuel : nat),
      resolve_input input_data = Ok rows ->
      Forall (row_ok 2%nat) rows ->
      existsb aligned_row rows = true ->
      (2 <= fuel)%nat ->
      columnize_output fuel input_data "L,Q" = SysExit 1)
  /\ (forall (fuel : nat) (r : row) (ws : list nat) (jl : list string)
             (line : string) (jcc cc : Z) (tok : string),
         cc + 1 < Z.of_nat (length ws) ->
         py_index jl (next_justify jl jcc) = Some tok ->
         tok <> "L" -> tok <> "R" -> search_spacer tok = None ->
         render_loop (S fuel) r ws jl line jcc cc = Abort (SysExit 1)).
Proof.
  split; [| intros; eapply render_loop_bad_token; eassumption].
  intros input_data rows fuel Hres Hok Hex Hfuel.
  destruct (uniform_phases 2%nat rows Hok) as (ws & Hscan & Hwidth & Hlen & _).
  unfold columns in *. rewrite Hex in *.
  unfold columnize_output. rewrite Hres. run_binds.
  destruct rows as [|r0 rows0]; [discriminate |].
  cbn [length Nat.eqb]. rewrite Hscan. run_binds.
  cbn [curr_max_num_cols list_of_lists_of_strings rc].
  change (pad_justify (split comma "L,Q") 2%nat) with (Ok ["L"; "Q"]).
  run_binds. rewrite Hwidth. run_binds.
  rewrite render_rows_LQ; [reflexivity | exact Hlen | exact Hfuel | |].
  - apply Forall_fmap. eapply Forall_impl; [exact Hok |].
    intros r Hr. apply row_ok_scanned. exact Hr.
  - rewrite existsb_aligned_scanned. exact Hex.
Qed.

Lemma C5_witness :
  columnize_output 2 [cells ["a"; "b"]; cells ["title"]] "L,Q" = SysExit 1
  /\ render_loop 1 (cells ["a"; "b"]) [1; 1]%nat ["L"; "Q"] "a " 0 0
     = Abort (SysExit 1).
Proof.
  split.
  - apply (proj1 C5_invalid_justification_token_is_fatal
             [cells ["a"; "b"]; cells ["title"]]
             [cells ["a"; "b"]; cells ["title"]] 2%nat).
    + reflexivity.
    + repeat (constructor; [eexists; split; [reflexivity | simpl; auto] |]).
      constructor.
    + reflexivity.
    + lia.
  - apply (proj2 C5_invalid_justification_token_is_fatal
             0%nat (cells ["a"; "b"]) [1; 1]%nat ["L"; "Q"] "a " 0 0 "Q").
    + simpl. lia.
    + reflexivity.
    + discriminate.
    + discriminate.
    + reflexivity.
Defined.

(** ** A spacer as the last token *)

Lemma classify_spacer (tok blanks : string) :
  search_spacer tok = Some blanks -> classify tok = TokSpacer blanks.
Proof.
  intros H. unfold classify.
  destruct (String.eqb_spec tok "L") as [-> | _]; [discriminate |].
  destruct (String.eqb_spec tok "R") as [-> | _]; [discriminate |].
  now rewrite H.
Qed.

Lemma classify_LR (tok : string) : tok = "L" \/ tok = "R" -> is_LR tok.
Proof. intros [-> | ->]; [left | right]; reflexivity. Qed.

(** With valid tokens only, a spacer as the last one, no more tokens than
    columns and a row that has a string in every column, the loop consumes
    fewer columns than tokens, reaches the last token with a column left and
    stays there. *)
Lemma render_loop_trailing_spacer (l : list field) (ws : list nat)
    (jl : list string) (tok blanks : string) :
  last jl = Some tok -> classify tok = TokSpacer blanks ->
  Forall valid_token jl ->
  (length jl <= length ws)%nat ->
  (forall i, (i < length ws)%nat -> exists s, l !! i = Some (FStr s)) ->
  forall (fuel : nat) (line : string) (jcc cc : Z),
    -1 <= cc <= jcc -> jcc <= Z.of_nat (length jl) - 1 ->
    cc <= Z.of_nat (length jl) - 2 ->
    render_loop fuel (RowList l) ws jl line jcc cc = Abort OutOfFuel.
Proof.
  intros Hlast Hcls Hvalid Hlen Hrow fuel.
  assert (Hne : jl <> []) by (destruct jl; [discriminate | discriminate]).
  induction fuel as [|fuel IH]; intros line jcc cc Hcc Hjcc Hcc2;
    [reflexivity |].
  rewrite render_loop_step by lia. cbv zeta.
  fold (next_justify jl jcc).
  destruct (next_justify_range jl jcc Hne) as [Hr Hge]; [lia |].
  destruct (py_index_in_range jl _ Hr) as (t & Ht & Hin).
  rewrite Ht.
  assert (Hnot_last : classify t = TokL \/ classify t = TokR ->
                      next_justify jl jcc <= Z.of_nat (length jl) - 2
                      /\ next_justify jl jcc = jcc + 1).
  { intros HLR.
    assert (next_justify jl jcc <> Z.of_nat (length jl) - 1).
    { intros E. rewrite E, (py_index_last _ _ Hlast) in Ht.
      assert (tok = t) by congruence. subst t.
      destruct HLR; congruence. }
    split; [lia |]. unfold next_justify in *.
    destruct (jcc <? Z.of_nat (length jl) - 1) eqn:E;
      [reflexivity | apply Z.ltb_ge in E; lia]. }
  assert (Hfield : exists s w, row_field (RowList l) (cc + 1) = Ok s
                               /\ col_width ws (cc + 1) = Ok w).
  { destruct (Hrow (Z.to_nat (cc + 1))) as [s Hs]; [lia |].
    destruct (lookup_lt_is_Some_2 ws (Z.to_nat (cc + 1))) as [w Hw]; [lia |].
    exists s, w. unfold row_field, col_width.
    rewrite !py_index_nonneg by lia. now rewrite Hs, Hw. }
  destruct Hfield as (s & w & -> & ->).
  destruct (classify t) eqn:Ect.
  - destruct Hnot_last as [H1 H2]; [auto |]. run_binds. apply IH; lia.
  - destruct Hnot_last as [H1 H2]; [auto |]. run_binds. apply IH; lia.
  - apply IH; lia.
  - rewrite Forall_forall in Hvalid. now destruct (Hvalid t Hin).
Qed.

Lemma pad_justify_repeats (jl0 jl : list string) (cmax : nat) (tok : string) :
  (length jl0 < cmax)%nat -> last jl0 = Some tok ->
  pad_justify jl0 cmax = Ok jl ->
  jl = jl0 ++ replicate (cmax - length jl0) tok
  /\ length jl = cmax /\ last jl = Some tok.
Proof.
  intros Hlt Hlast. unfold pad_justify.
  apply Nat.ltb_lt in Hlt. rewrite Hlt. apply Nat.ltb_lt in Hlt.
  rewrite py_index_minus_one, Hlast. intros [= <-].
  split; [reflexivity |]. split.
  - rewrite length_app, length_replicate. lia.
  - destruct (cmax - length jl0)%nat as [|n] eqn:E; [lia |].
    rewrite replicate_S_end, app_assoc. apply last_snoc.
Qed.

(** C10. The render loop ends, for every row, when the last token of the
    resolved justification list is [L] or [R]: at most
    [len(justify_cols_list) + len(max_col_widths) + 1] iterations. When the
    last token is a run of blanks and the loop consults it while a column is
    still to be rendered, the column index no longer advances and no number
    of iterations ends the loop. This is what happens after the list was
    padded by repeating a trailing spacer, when all tokens are valid. *)
Theorem C10_render_loop_ends_iff_last_token_justifies :
  (forall (r : row) (ws : list nat) (jl : list string) (tok : string),
      last jl = Some tok -> tok = "L" \/ tok = "R" ->
      forall fuel : nat,
        (length jl + length ws < fuel)%nat ->
        render_loop fuel r ws jl EmptyString (-1) (-1) <> Abort OutOfFuel)
  /\ (forall (r : row) (ws : list nat) (jl : list string)
             (tok blanks : string),
         last jl = Some tok -> search_spacer tok = Some blanks ->
         forall (line : string) (jcc cc : Z),
           next_justify jl jcc = Z.of_nat (length jl) - 1 ->
           -1 <= cc -> cc + 1 < Z.of_nat (length ws) ->
           forall fuel : nat,
             render_loop fuel r ws jl line jcc cc = Abort OutOfFuel)
  /\ (forall (jl0 jl : list string) (cmax : nat) (tok blanks : string)
             (l : list field) (ws : list nat),
         (length jl0 < cmax)%nat ->
         pad_justify jl0 cmax = Ok jl ->
         last jl0 = Some tok -> search_spacer tok = Some blanks ->
         Forall valid_token jl0 ->
         length ws = cmax ->
         (forall i, (i < cmax)%nat -> exists s, l !! i = Some (FStr s)) ->
         forall fuel : nat,
           render_loop fuel (RowList l) ws jl EmptyString (-1) (-1)
           = Abort OutOfFuel).
Proof.
  split; [| split].
  - intros r ws jl tok Hlast Htok fuel Hfuel.
    apply (render_loop_ends r ws jl tok Hlast (classify_LR tok Htok)).
    lia.
  - intros r ws jl tok blanks Hlast Hsp line jcc cc Hj _ Hc fuel.
    exact (render_loop_spins r ws jl tok blanks Hlast
             (classify_spacer _ _ Hsp) fuel line jcc cc Hj Hc).
  - intros jl0 jl cmax tok blanks l ws Hlt Hpad Hlast Hsp Hvalid Hws Hrow fuel.
    destruct (pad_justify_repeats jl0 jl cmax tok Hlt Hlast Hpad)
      as (Hjl & Hlen & Hlast').
    pose proof (classify_spacer _ _ Hsp) as Hcls.
    apply (render_loop_trailing_spacer l ws jl tok blanks Hlast' Hcls).
    + rewrite Hjl. apply Forall_app. split; [exact Hvalid |].
      apply Forall_replicate. unfold valid_token. now rewrite Hcls.
    + lia.
    + intros i Hi. apply Hrow. lia.
    + lia.
    + lia.
    + lia.
Qed.

Lemma C10_witness :
  render_loop 5 (cells ["a"; "b"]) [1; 1]%nat ["L"; "R"] EmptyString (-1) (-1)
    <> Abort OutOfFuel
  /\ (forall fuel : nat,
        render_loop fuel (cells ["a"; "b"]) [1; 1]%nat ["L"; " "] "a " 0 0
        = Abort OutOfFuel)
  /\ (forall fuel : nat,
        render_loop fuel (RowList [FStr "a"; FStr "b"; FStr "c"])
          [1; 1; 1]%nat ["L"; " "; " "] EmptyString (-1) (-1)
        = Abort OutOfFuel).
Proof.
  destruct C10_render_loop_ends_iff_last_token_justifies as (Ha & Hb & Hc).
  split; [| split].
  - apply (Ha (cells ["a"; "b"]) [1; 1]%nat ["L"; "R"] "R").
    + reflexivity.
    + right. reflexivity.
    + simpl. lia.
  - apply (Hb (cells ["a"; "b"]) [1; 1]%nat ["L"; " "] " " " ").
    + reflexivity.
    + reflexivity.
    + reflexivity.
    + lia.
    + simpl. lia.
  - apply (Hc ["L"; " "] ["L"; " "; " "] 3%nat " " " "
              [FStr "a"; FStr "b"; FStr "c"] [1; 1; 1]%nat).
    + simpl. lia.
    + reflexivity.
    + reflexivity.
    + reflexivity.
    + repeat constructor; discriminate.
    + reflexivity.
    + intros [|[|[|i]]] Hi; simpl; eauto. lia.
Defined.

(** ** Concrete runs *)

(** C3. The rows [["a","b","c"],["d","e"]]: the scan pads the second row
    with one empty string and sets the status to 2, the widths are
    [1, 1, 1], and the call returns status 2 with both lines rendered; the
    caller's second row has become ["d","e",''] (an empty string was
    appended). *)
Theorem C3_ragged_rows_are_padded_with_status_2 :
  scan [cells ["a"; "b"; "c"]; cells ["d"; "e"]]
  = Ok (ScanState [cells ["a"; "b"; "c"]; cells ["d"; "e"; EmptyString]]
          3%nat 2)
  /\ width_rows 3 [cells ["a"; "b"; "c"]; cells ["d"; "e"; EmptyString]] []
     = Ok ([cells ["a"; "b"; "c"]; cells ["d"; "e"; EmptyString]],
           [1; 1; 1]%nat)
  /\ forall k : nat,
       columnize_output (4 + k) [cells ["a"; "b"; "c"]; cells ["d"; "e"]] "L,R"
       = Return 2 [FStr "a   b  c"; FStr "d   e   "]
           [cells ["a"; "b"; "c"]; cells ["d"; "e"; EmptyString]].
Proof.
  split; [reflexivity |]. split; [reflexivity |].
  intros k. apply columnize_output_more_fuel; [reflexivity | discriminate].
Qed.

Lemma blank_line_run (fuel : nat) (justify_cols : string) :
  columnize_output (S fuel) [RowStr EmptyString] justify_cols
  = Return 0 [FStr EmptyString] [RowStr EmptyString].
Proof. reflexivity. Qed.

Lemma empty_list_raises (fuel : nat) (justify_cols : string) :
  columnize_output fuel [] justify_cols = Raise IndexError.
Proof. reflexivity. Qed.

(** C4, as stated, fails on the input of one empty csv line: no amount of
    fuel makes the call end with status 1. *)
Lemma C4_counterexample_blank_line :
  ~ exists fuel : nat,
      status_code (columnize_output fuel [RowStr EmptyString] "L,R") = Some 1
      /\ output_lines (columnize_output fuel [RowStr EmptyString] "L,R") = [].
Proof.
  intros ([|fuel] & Hstatus & _).
  - discriminate Hstatus.
  - rewrite blank_line_run in Hstatus. discriminate Hstatus.
Qed.

(** C4, amended. For the input of one empty csv line the call does not
    fail: the blank line gives a row without fields, the status is 0 and
    the output is the one empty line. Status 1 without a line list, the pair
    [1, "line 195"], is returned when the resolved row set is empty, as for
    a list whose first element is neither a str nor a list. *)
Theorem C4_blank_line_is_kept_and_empty_row_set_fails :
  (forall (k : nat) (justify_cols : string),
      columnize_output (1 + k) [RowStr EmptyString] justify_cols
      = Return 0 [FStr EmptyString] [RowStr EmptyString])
  /\ (forall (fuel : nat) (z : Z) (rest : list row) (justify_cols : string),
         resolve_input (RowInt z :: rest) = Ok []
         /\ columnize_output fuel (RowInt z :: rest) justify_cols
            = ReturnMsg 1 "line 195").
Proof.
  split.
  - intros k justify_cols. apply blank_line_run.
  - intros fuel z rest justify_cols. split; reflexivity.
Qed.

(** ** Parsing a list of csv strings *)

Lemma csv_entries_one (r : row) (es : list row) :
  csv_entries r = Ok es -> exists e, es = [e].
Proof.
  unfold csv_entries, Csv.reader_one_line.
  destruct r as [s|l|z]; try discriminate.
  destruct (Csv.parse_line Csv.parse_reset s) as [rd|]; [| discriminate].
  destruct (Csv.st rd); intros [= <-]; eexists; reflexivity.
Qed.

(** Every line gives exactly one row, appended in order. *)
Lemma parse_rows_entries (input_data : list row) :
  forall acc rows : list row,
    parse_rows input_data acc = Ok rows ->
    exists es : list row,
      rows = acc ++ es
      /\ Forall2 (fun r e => csv_entries r = Ok [e]) input_data es.
Proof.
  induction input_data as [|r input_data IH]; intros acc rows H.
  - simpl in H. injection H as <-. exists []. rewrite app_nil_r.
    split; [reflexivity | constructor].
  - simpl in H.
    destruct (csv_entries r) as [entries|o] eqn:E; [| discriminate].
    destruct (csv_entries_one r entries E) as [e ->].
    rewrite bind_Ok in H.
    destruct (IH _ _ H) as (es & -> & Hes).
    exists (e :: es). rewrite <- app_assoc. split; [reflexivity |].
    constructor; [exact E | exact Hes].
Qed.

(** C9. In a list of csv strings the line [x,"y,1",z] becomes the row
    ["x", "y,1", "z"] at the position of the line: the comma inside the
    quotes stays in the field and the quotes are gone. Alone, the line gives
    a table of three columns that the scan leaves as it is. *)
Theorem C9_quoted_comma_stays_in_the_field :
  (forall (before : list string) (after rows : list row),
      resolve_input (map RowStr before ++ RowStr csv_line :: after) = Ok rows ->
      rows !! length before = Some (cells ["x"; "y,1"; "z"]))
  /\ resolve_input [RowStr csv_line] = Ok [cells ["x"; "y,1"; "z"]]
  /\ scan [cells ["x"; "y,1"; "z"]]
     = Ok (ScanState [cells ["x"; "y,1"; "z"]] 3%nat 0).
Proof.
  split; [| split; reflexivity].
  intros before after rows H.
  assert (Hparse :
    parse_rows (map RowStr before ++ RowStr csv_line :: after) [] = Ok rows).
  { destruct before; exact H. }
  destruct (parse_rows_entries _ _ _ Hparse) as (es & -> & Hes).
  rewrite app_nil_l.
  assert (Hline : (map RowStr before ++ RowStr csv_line :: after)
                    !! length before = Some (RowStr csv_line)).
  { rewrite lookup_app_r by (rewrite length_map; lia).
    rewrite length_map, Nat.sub_diag. reflexivity. }
  destruct (Forall2_lookup_l _ _ _ _ _ Hes Hline) as (e & He & Hcsv).
  rewrite He. vm_compute in Hcsv. injection Hcsv as <-. reflexivity.
Qed.

Lemma C9_witness :
  [cells ["a"; "b"]; cells ["x"; "y,1"; "z"]; cells ["c"]] !! 1%nat
  = Some (cells ["x"; "y,1"; "z"]).
Proof.
  apply (proj1 C9_quoted_comma_stays_in_the_field ["a,b"] [RowStr "c"]
           [cells ["a"; "b"]; cells ["x"; "y,1"; "z"]; cells ["c"]]).
  reflexivity.
Defined.

(** ** Rows of one field and the padding pass *)

(** C1 fails on the code: once a ragged row triggers the padding pass
    (lines 239-243), the one-field row ["title"] is padded like every other
    row, enters the width computation (width 5 for the first column) and is
    rendered as an aligned line. *)
Theorem C1_single_field_row_is_padded_with_the_ragged_rows :
  scan [cells ["title"]; cells ["a"; "b"; "c"]; cells ["d"; "e"]]
  = Ok (ScanState
          [cells ["title"; EmptyString; EmptyString];
           cells ["a"; "b"; "c"]; cells ["d"; "e"; EmptyString]] 3%nat 2)
  /\ width_rows 3
       [cells ["title"; EmptyString; EmptyString];
        cells ["a"; "b"; "c"]; cells ["d"; "e"; EmptyString]] []
     = Ok ([cells ["title"; EmptyString; EmptyString];
            cells ["a"; "b"; "c"]; cells ["d"; "e"; EmptyString]],
           [5; 1; 1]%nat)
  /\ forall k : nat,
       columnize_output (4 + k)
         [cells ["title"]; cells ["a"; "b"; "c"]; cells ["d"; "e"]] "L,R"
       = Return 2
           [FStr "title       "; FStr "a       b  c"; FStr "d       e   "]
           [cells ["title"; EmptyString; EmptyString];
            cells ["a"; "b"; "c"]; cells ["d"; "e"; EmptyString]].
Proof.
  split; [reflexivity |]. split; [reflexivity |].
  intros k. apply columnize_output_more_fuel; [reflexivity | discriminate].
Qed.

(** Without padding the one-field rows do pass through: in a uniform table
    rendered with ["L,R"] each of them is emitted as its field. *)
Lemma single_field_row_passes_in_uniform_table (c : nat)
    (input_data rows : list row) (fuel : nat) :
  resolve_input input_data = Ok rows -> rows <> [] ->
  Forall (row_ok c) rows -> (c < fuel)%nat ->
  exists (lines : list field) (data : list row),
    columnize_output fuel input_data "L,R" = Return 0 lines data
    /\ forall (i : nat) (f : field),
         rows !! i = Some (RowList [f]) -> lines !! i = Some f.
Proof.
  intros Hres Hne Hok Hfuel.
  destruct (uniform_phases c rows Hok) as (ws & Hscan & Hwidth & Hlen & Hcov).
  destruct (pad_justify_LR (columns c rows)) as (jl & Hpad & HLR & Hjl).
  assert (Hfuel' : (length ws < fuel)%nat).
  { rewrite Hlen. unfold columns. destruct (existsb aligned_row rows); lia. }
  destruct (render_rows_LR ws jl fuel (map scanned rows) HLR Hjl Hfuel' Hcov)
    as (lines & Hrender & Hem).
  exists lines. eexists. split.
  - unfold columnize_output. rewrite Hres. run_binds.
    destruct rows as [|r0 rows0]; [contradiction |].
    cbn [length Nat.eqb]. rewrite split_LR, Hscan. run_binds.
    cbn [curr_max_num_cols list_of_lists_of_strings rc].
    rewrite Hpad. run_binds. rewrite Hwidth. run_binds.
    rewrite Hrender. run_binds. reflexivity.
  - intros i f Hi.
    assert (Hs : map scanned rows !! i = Some (RowList [f])).
    { change (map scanned rows) with (scanned <$> rows).
      rewrite list_lookup_fmap, Hi. reflexivity. }
    destruct (Forall2_lookup_l _ _ _ _ _ Hem Hs) as (out & Hout & He).
    simpl in He. congruence.
Qed.

(** ** Spacer tokens *)

(** The iteration that consults a spacer token: the separator of line 290
    first, then the blanks; the column index is where it was. *)
Lemma render_loop_spacer_step fuel r ws jl line jcc cc tok blanks :
  cc + 1 < Z.of_nat (length ws) ->
  py_index jl (next_justify jl jcc) = Some tok ->
  search_spacer tok = Some blanks ->
  render_loop (S fuel) r ws jl line jcc cc
  = render_loop fuel r ws jl
      ((if String.eqb line EmptyString then line else line +:+ " ") +:+ blanks)
      (next_justify jl jcc) cc.
Proof.
  intros Hc Htok Hsp.
  rewrite render_loop_step by exact Hc. cbv zeta.
  fold (next_justify jl jcc). rewrite Htok.
  now rewrite (classify_spacer _ _ Hsp).
Qed.

(** C6 fails on the code. A spacer token does emit its blanks and leaves the
    column index where it was, but the one-blank separator of line 290 is
    added before the blanks as for any other token, and again before the
    next cell: with ["L, ,R"] the two cells are three blanks apart, not
    one. *)
Theorem C6_spacer_blanks_stand_between_two_separators :
  (forall (fuel : nat) (r : row) (ws : list nat) (jl : list string)
          (line : string) (jcc cc : Z) (tok blanks : string),
      cc + 1 < Z.of_nat (length ws) ->
      py_index jl (next_justify jl jcc) = Some tok ->
      search_spacer tok = Some blanks ->
      line <> EmptyString ->
      render_loop (S fuel) r ws jl line jcc cc
      = render_loop fuel r ws jl ((line +:+ " ") +:+ blanks)
          (next_justify jl jcc) cc)
  /\ forall k : nat,
       columnize_output (4 + k) [cells ["a"; "b"]] "L, ,R"
       = Return 0
           [FStr (ljust "a" 2 +:+ " " +:+ " " +:+ " " +:+ rjust "b" 2)]
           [cells ["a"; "b"]].
Proof.
  split.
  - intros fuel r ws jl line jcc cc tok blanks Hc Htok Hsp Hline.
    rewrite (render_loop_spacer_step fuel r ws jl line jcc cc tok blanks)
      by assumption.
    destruct (String.eqb_spec line EmptyString); [contradiction | reflexivity].
  - intros k. apply columnize_output_more_fuel; [reflexivity | discriminate].
Qed.

Lemma C6_witness :
  render_loop 3 (cells ["a"; "b"]) [1; 1]%nat ["L"; " "; "R"] "a " 0 0
  = render_loop 2 (cells ["a"; "b"]) [1; 1]%nat ["L"; " "; "R"]
      (("a " +:+ " ") +:+ " ") 1 0.
Proof.
  apply (proj1 C6_spacer_blanks_stand_between_two_separators
           2%nat (cells ["a"; "b"]) [1; 1]%nat ["L"; " "; "R"] "a " 0 0
           " " " ").
  - simpl. lia.
  - reflexivity.
  - reflexivity.
  - discriminate.
Defined.

(** ** Carrying the last token forward *)

(** C2 fails on the code when the last token is a spacer. The instance of
    the claim holds: with ["L,R,R,L,   ,R"] and six columns the sixth column
    is right-justified like the fifth. But the padding of lines 246-247
    repeats the last token whatever it is: for ["L, "] and three columns the
    list becomes [L], blank, blank, no column after the first is rendered
    with [L], and the call never returns. *)
Theorem C2_last_token_is_repeated_even_a_spacer :
  (forall k : nat,
      columnize_output (8 + k) docstring_table "L,R,R,L,   ,R"
      = Return 0
          [FStr (ljust "col1" 8 +:+ " " +:+ rjust "col2" 10 +:+ " "
                 +:+ rjust "col3" 8 +:+ " " +:+ ljust "col4" 9 +:+ " "
                 +:+ "   " +:+ " " +:+ rjust "col5" 8 +:+ " "
                 +:+ rjust "col6" 7);
           FStr (ljust "test123" 8 +:+ " " +:+ rjust "test45678" 10 +:+ " "
                 +:+ rjust "test789" 8 +:+ " " +:+ ljust "test0123" 9 +:+ " "
                 +:+ "   " +:+ " " +:+ rjust "test456" 8 +:+ " "
                 +:+ rjust "test78" 7)]
          docstring_table)
  /\ pad_justify (split comma "L, ") 3 = Ok ["L"; " "; " "]
  /\ forall fuel : nat,
       columnize_output fuel [cells ["a"; "b"; "c"]] "L, " = OutOfFuel.
Proof.
  split; [| split; [reflexivity |]].
  - intros k. apply columnize_output_more_fuel; [reflexivity | discriminate].
  - intros fuel.
    assert (Hloop :
      render_loop fuel (RowList [FStr "a"; FStr "b"; FStr "c"])
        [1; 1; 1]%nat ["L"; " "; " "] EmptyString (-1) (-1)
      = Abort OutOfFuel).
    { apply (render_loop_trailing_spacer _ _ _ " " " ").
      - reflexivity.
      - reflexivity.
      - repeat constructor; discriminate.
      - simpl. lia.
      - intros [|[|[|i]]] Hi; simpl in *; eauto. lia.
      - lia.
      - simpl. lia.
      - simpl. lia. }
    change (columnize_output fuel [cells ["a"; "b"; "c"]] "L, ")
      with (run (out ← render_rows fuel [1; 1; 1]%nat ["L"; " "; " "]
                         [RowList [FStr "a"; FStr "b"; FStr "c"]];
                 Ok (Return 0 out [RowList [FStr "a"; FStr "b"; FStr "c"]]))).
    cbn [render_rows render_row]. rewrite Hloop. reflexivity.
Qed.

(** ** Rows without fields and the column count *)

Lemma split_nonempty (sep : ascii) (s : string) : split sep s <> [].
Proof.
  destruct s as [|c s]; simpl; [discriminate |].
  destruct (Ascii.eqb c sep); [discriminate |].
  destruct (split sep s); discriminate.
Qed.

(** The padding of the justify list never fails on a list [split] made. *)
Lemma pad_justify_split_ok (justify_cols : string) (cmax : nat) :
  exists jl, pad_justify (split comma justify_cols) cmax = Ok jl.
Proof.
  unfold pad_justify.
  destruct (length (split comma justify_cols) <? cmax)%nat; [| eauto].
  rewrite py_index_minus_one.
  destruct (last (split comma justify_cols)) as [tok|] eqn:E; [eauto |].
  apply last_None in E. now apply split_nonempty in E.
Qed.



(** The column count never shrinks during the scan. *)
Lemma scan_row_grows (index : nat) (s s' : scan_state) :
  scan_row index s = Ok s' ->
  (curr_max_num_cols s <= curr_max_num_cols s')%nat.
Proof.
  unfold scan_row.
  destruct (list_of_lists_of_strings s !! index) as [[t|l|z]|];
    try discriminate.
  - intros [= <-]. lia.
  - destruct (length l =? 1)%nat; [intros [= <-]; lia |].
    destruct (curr_max_num_cols s =? 0)%nat eqn:E0.
    + apply Nat.eqb_eq in E0. intros [= <-]. simpl. lia.
    + destruct (length (none_to_empty l) =? curr_max_num_cols s)%nat.
      * intros [= <-]. simpl. lia.
      * destruct (pad_all _ _) as [rows'|o]; [| discriminate].
        intros [= <-]. simpl.
        destruct (curr_max_num_cols s <? length (none_to_empty l))%nat eqn:E;
          [apply Nat.ltb_lt in E; lia | lia].
Qed.

Lemma scan_from_grows (indices : list nat) :
  forall s s' : scan_state,
    scan_from indices s = Ok s' ->
    (curr_max_num_cols s <= curr_max_num_cols s')%nat.
Proof.
  induction indices as [|i indices IH]; intros s s' H.
  - injection H as <-. lia.
  - simpl in H. destruct (scan_row i s) as [s1|o] eqn:E; [| discriminate].
    rewrite bind_Ok in H. apply scan_row_grows in E. apply IH in H. lia.
Qed.

(** C8 fails on the code when a row without fields comes first. The scan
    uses [curr_max_num_cols == 0] for "no row seen yet": the empty row sets
    the count to 0 again, the next row sets it to 2 as if it were the first,
    and nothing is padded. The empty row keeps zero fields while the count
    is 2, and the width pass then raises [IndexError]. A blank csv line
    followed by a data line does the same. *)
Theorem C8_row_without_fields_is_left_unpadded :
  scan [cells []; cells ["a"; "b"]]
  = Ok (ScanState [cells []; cells ["a"; "b"]] 2%nat 0)
  /\ (forall (fuel : nat) (justify_cols : string),
         columnize_output fuel [cells []; cells ["a"; "b"]] justify_cols
         = Raise IndexError)
  /\ (forall (fuel : nat) (justify_cols : string),
         columnize_output fuel [RowStr EmptyString; RowStr "a,b"] justify_cols
         = Raise IndexError).
Proof.
  assert (Hrun : forall (fuel : nat) (justify_cols : string) input_data,
    resolve_input input_data = Ok [cells []; cells ["a"; "b"]] ->
    columnize_output fuel input_data justify_cols = Raise IndexError).
  { intros fuel justify_cols input_data Hres.
    unfold columnize_output. rewrite Hres. run_binds.
    change (scan [cells []; cells ["a"; "b"]])
      with (Ok (ScanState [cells []; cells ["a"; "b"]] 2%nat 0)).
    cbn [length Nat.eqb]. run_binds.
    cbn [curr_max_num_cols list_of_lists_of_strings].
    destruct (pad_justify_split_ok justify_cols 2) as [jl ->].
    run_binds. reflexivity. }
  split; [reflexivity |].
  split; intros fuel justify_cols; apply Hrun; reflexivity.
Qed.


(** ** The scan on list rows, with padding *)

Lemma pad_all_lists (cmax : nat) (rows : list row) :
  Forall is_list rows -> pad_all cmax rows = Ok (map (padded cmax) rows).
Proof.
  induction 1 as [|r rows [l ->] _ IH]; [reflexivity |].
  cbn [pad_all pad_row map padded]. run_binds. rewrite IH. reflexivity.
Qed.

Lemma padded_has_fields (n m : nat) (r : row) :
  has_fields n r -> (n <= m)%nat -> has_fields m (padded m r).
Proof.
  intros (l & -> & Hl) Hle. eexists. split; [reflexivity |].
  rewrite length_app, length_replicate. lia.
Qed.

Lemma padded_at_least (m : nat) (r : row) :
  is_list r -> exists l, padded m r = RowList l /\ (m <= length l)%nat.
Proof.
  intros [l ->]. eexists. split; [reflexivity |].
  rewrite length_app, length_replicate. lia.
Qed.

Lemma is_list_insert (cur : list row) (i : nat) (l : list field) :
  Forall is_list cur -> Forall is_list (<[i:=RowList l]> cur).
Proof. intros H. apply Forall_insert; [exact H | now exists l]. Qed.

Lemma take_S_insert (cur : list row) (i : nat) (r : row) :
  (i < length cur)%nat ->
  take (S i) (<[i:=r]> cur) = take i cur ++ [r].
Proof.
  intros Hi.
  rewrite take_S_r with (x := r) by (apply list_lookup_insert_eq; exact Hi).
  now rewrite take_insert_ge by lia.
Qed.

(** One visit of the scan keeps the invariant. *)
Lemma scan_row_inv (i : nat) (s : scan_state) :
  (i < length (list_of_lists_of_strings s))%nat ->
  Forall is_list (list_of_lists_of_strings s) ->
  scan_inv i s ->
  exists s',
    scan_row i s = Ok s'
    /\ length (list_of_lists_of_strings s')
       = length (list_of_lists_of_strings s)
    /\ Forall is_list (list_of_lists_of_strings s')
    /\ scan_inv (S i) s'.
Proof.
  destruct s as [cur cm rc0]. cbn [list_of_lists_of_strings].
  intros Hi Hlist Hinv.
  destruct (lookup_lt_is_Some_2 cur i Hi) as [r Hr].
  assert (Hrl : is_list r) by (rewrite Forall_lookup in Hlist; eauto).
  destruct Hrl as [l ->].
  unfold scan_row. cbn [list_of_lists_of_strings curr_max_num_cols rc].
  rewrite Hr.
  set (l' := none_to_empty l).
  assert (Hl' : length l' = length l) by apply length_none_to_empty.
  assert (Hpad : forall m,
    pad_all m (<[i:=RowList l']> cur)
    = Ok (map (padded m) (<[i:=RowList l']> cur)))
    by (intros m; apply pad_all_lists, is_list_insert, Hlist).
  (* the state after a padding pass to [m] columns *)
  assert (Hafter : forall m : nat,
    (2 <= m)%nat -> (length l <= m)%nat ->
    Forall (fun r => exists n, (n <= m)%nat /\ has_fields n r) (take i cur) ->
    scan_inv (S i) (ScanState (map (padded m) (<[i:=RowList l']> cur)) m 2)).
  { intros m Hm Hlm Hold. left.
    cbn [list_of_lists_of_strings curr_max_num_cols rc].
    split; [reflexivity |]. split; [exact Hm |]. split.
    - apply Forall_fmap. eapply Forall_impl;
        [apply is_list_insert; exact Hlist |].
      intros r Hrl. apply padded_at_least. exact Hrl.
    - change (map (padded m) (<[i:=RowList l']> cur))
        with (padded m <$> <[i:=RowList l']> cur).
      rewrite <- fmap_take, take_S_insert by exact Hi.
      rewrite fmap_app. apply Forall_app. split.
      + apply Forall_fmap. eapply Forall_impl; [exact Hold |].
        intros r (n & Hn & Hf). now apply (padded_has_fields n).
      + apply Forall_singleton. apply (padded_has_fields (length l'));
          [now exists l' | lia]. }
  destruct (length l =? 1)%nat eqn:E1.
  { (* a one-field row: the scan goes on to the next row *)
    apply Nat.eqb_eq in E1.
    exists (ScanState cur cm rc0). cbn [list_of_lists_of_strings].
    split; [reflexivity |]. split; [reflexivity |]. split; [exact Hlist |].
    destruct Hinv as [(Hrc & Hcm & Hge & Hdone) | (Hrc & Hcm & Hdone)];
      cbn [list_of_lists_of_strings curr_max_num_cols rc] in *.
    - exfalso. rewrite Forall_lookup in Hge.
      destruct (Hge i _ Hr) as (l0 & [= <-] & Hle). lia.
    - right. cbn [list_of_lists_of_strings curr_max_num_cols rc].
      split; [exact Hrc |]. split; [exact Hcm |].
      rewrite (take_S_r _ _ _ Hr). apply Forall_app. split; [exact Hdone |].
      apply Forall_singleton. left. now exists l. }
  apply Nat.eqb_neq in E1.
  fold l'. rewrite Hl'.
  destruct Hinv as [(Hrc & Hcm & Hge & Hdone) | (Hrc & Hcm & Hdone)];
    cbn [list_of_lists_of_strings curr_max_num_cols rc] in *.
  - (* after a padding pass *)
    assert (Hle : (cm <= length l)%nat).
    { rewrite Forall_lookup in Hge.
      destruct (Hge i _ Hr) as (l0 & [= <-] & Hle). exact Hle. }
    assert (E0 : (cm =? 0)%nat = false) by (apply Nat.eqb_neq; lia).
    rewrite E0.
    destruct (length l =? cm)%nat eqn:Ec.
    + apply Nat.eqb_eq in Ec.
      eexists. split; [reflexivity |].
      cbn [list_of_lists_of_strings]. rewrite length_insert.
      split; [reflexivity |]. split; [apply is_list_insert, Hlist |].
      left. cbn [list_of_lists_of_strings curr_max_num_cols rc].
      split; [exact Hrc |]. split; [exact Hcm |]. split.
      * apply Forall_insert; [exact Hge |]. exists l'. split; [reflexivity | lia].
      * rewrite take_S_insert by exact Hi. apply Forall_app.
        split; [exact Hdone |]. apply Forall_singleton. exists l'.
        split; [reflexivity | lia].
    + apply Nat.eqb_neq in Ec.
      assert (Elt : (cm <? length l)%nat = true) by (apply Nat.ltb_lt; lia).
      rewrite Elt, Hpad. run_binds.
      eexists. split; [reflexivity |].
      cbn [list_of_lists_of_strings]. rewrite length_map, length_insert.
      split; [reflexivity |]. split.
      * apply Forall_fmap. eapply Forall_impl;
          [apply is_list_insert; exact Hlist |].
        intros r [l0 ->]. eexists. reflexivity.
      * apply Hafter; [lia | lia |].
        eapply Forall_impl; [exact Hdone |].
        intros r Hf. exists cm. split; [lia | exact Hf].
  - (* before any padding *)
    destruct (cm =? 0)%nat eqn:E0.
    + apply Nat.eqb_eq in E0. subst cm.
      eexists. split; [reflexivity |].
      cbn [list_of_lists_of_strings]. rewrite length_insert.
      split; [reflexivity |]. split; [apply is_list_insert, Hlist |].
      right. cbn [list_of_lists_of_strings curr_max_num_cols rc].
      split; [exact Hrc |]. split; [lia |].
      rewrite take_S_insert by exact Hi. apply Forall_app. split.
      * eapply Forall_impl; [exact Hdone |].
        intros r [H | [H | H]]; auto.
      * apply Forall_singleton. right. left. exists l'. split; [reflexivity | lia].
    + apply Nat.eqb_neq in E0.
      destruct (length l =? cm)%nat eqn:Ec.
      * apply Nat.eqb_eq in Ec.
        eexists. split; [reflexivity |].
        cbn [list_of_lists_of_strings]. rewrite length_insert.
        split; [reflexivity |]. split; [apply is_list_insert, Hlist |].
        right. cbn [list_of_lists_of_strings curr_max_num_cols rc].
        split; [exact Hrc |]. split; [exact Hcm |].
        rewrite take_S_insert by exact Hi. apply Forall_app.
        split; [exact Hdone |]. apply Forall_singleton. right. left.
        exists l'. split; [reflexivity | lia].
      * apply Nat.eqb_neq in Ec. rewrite Hpad. run_binds.
        eexists. split; [reflexivity |].
        cbn [list_of_lists_of_strings]. rewrite length_map, length_insert.
        split; [reflexivity |]. split.
        -- apply Forall_fmap. eapply Forall_impl;
             [apply is_list_insert; exact Hlist |].
           intros r [l0 ->]. eexists. reflexivity.
        -- apply Hafter.
           ++ destruct (cm <? length l)%nat eqn:Elt;
                [apply Nat.ltb_lt in Elt; lia | lia].
           ++ destruct (cm <? length l)%nat eqn:Elt;
                [lia | apply Nat.ltb_ge in Elt; lia].
           ++ eapply Forall_impl; [exact Hdone |].
              intros r [H | [H | H]].
              ** exists 1%nat. split; [| exact H].
                 destruct (cm <? length l)%nat eqn:Elt;
                   [apply Nat.ltb_lt in Elt; lia | lia].
              ** exists cm. split; [| exact H].
                 destruct (cm <? length l)%nat eqn:Elt;
                   [apply Nat.ltb_lt in Elt; lia | lia].
              ** exists 0%nat. split; [lia | exact H].
Qed.

Lemma scan_from_inv (k : nat) :
  forall (i : nat) (s : scan_state),
    length (list_of_lists_of_strings s) = (i + k)%nat ->
    Forall is_list (list_of_lists_of_strings s) ->
    scan_inv i s ->
    exists s',
      scan_from (seq i k) s = Ok s'
      /\ length (list_of_lists_of_strings s')
         = length (list_of_lists_of_strings s)
      /\ scan_inv (i + k) s'.
Proof.
  induction k as [|k IH]; intros i s Hlen Hlist Hinv.
  - exists s. rewrite Nat.add_0_r. auto.
  - destruct (scan_row_inv i s) as (s1 & Hrow & Hlen1 & Hlist1 & Hinv1);
      [lia | exact Hlist | exact Hinv |].
    destruct (IH (S i) s1) as (s' & Hrun & Hlen' & Hinv');
      [lia | exact Hlist1 | exact Hinv1 |].
    exists s'. cbn [seq scan_from]. rewrite Hrow. run_binds.
    split; [exact Hrun |]. split; [lia |].
    now replace (i + S k)%nat with (S i + k)%nat by lia.
Qed.

(** On a table of list rows the scan always succeeds. If it padded
    ([rc = 2]) every row, the former one-field rows included, ends with
    exactly [curr_max_num_cols] fields. If it did not pad ([rc = 0]) every
    row has one field, [curr_max_num_cols] fields, or no field at all: the
    last case is the one C8 misses. *)
Lemma scan_reconciles_list_rows (rows : list row) :
  Forall is_list rows ->
  exists s,
    scan rows = Ok s
    /\ length (list_of_lists_of_strings s) = length rows
    /\ ((rc s = 2
         /\ Forall (has_fields (curr_max_num_cols s))
                   (list_of_lists_of_strings s))
        \/ (rc s = 0
            /\ Forall (fun r => has_fields 1 r
                                \/ has_fields (curr_max_num_cols s) r
                                \/ has_fields 0 r)
                      (list_of_lists_of_strings s))).
Proof.
  intros Hlist. unfold scan.
  destruct (scan_from_inv (length rows) 0 (ScanState rows 0 0))
    as (s & Hrun & Hlen & Hinv); [reflexivity | exact Hlist | |].
  { right. cbn. split; [reflexivity |]. split; [lia | constructor]. }
  cbn [list_of_lists_of_strings] in Hlen.
  exists s. split; [exact Hrun |]. split; [exact Hlen |].
  cbn [Nat.add] in Hinv. unfold scan_inv in Hinv.
  rewrite <- Hlen, firstn_all in Hinv.
  destruct Hinv as [(Hrc & _ & _ & Hall) | (Hrc & _ & Hall)]; auto.
Qed.


(** * Further properties of the code *)

(** ** How the phases can fail *)

Lemma parse_rows_raises (input_data : list row) :
  forall (acc : list row) (o : outcome),
    parse_rows input_data acc = Abort o -> o = Raise CsvError.
Proof.
  induction input_data as [|r input_data IH]; intros acc o H;
    [discriminate |].
  simpl in H. destruct (csv_entries r) as [es|o1] eqn:E.
  - rewrite bind_Ok in H. eauto.
  - simpl in H. injection H as <-.
    unfold csv_entries in E. destruct r as [t|l|z]; try congruence.
    destruct (Csv.reader_one_line t); congruence.
Qed.

Lemma resolve_input_raises (input_data : list row) (o : outcome) :
  resolve_input input_data = Abort o -> raises o.
Proof.
  unfold resolve_input, raises.
  destruct input_data as [|[t|l|z] rest]; intros H; try discriminate.
  - injection H as <-. eauto.
  - apply parse_rows_raises in H. eauto.
Qed.

Lemma pad_all_raises (cmax : nat) (rows : list row) (o : outcome) :
  pad_all cmax rows = Abort o -> raises o.
Proof.
  unfold raises. induction rows as [|r rows IH]; intros H; [discriminate |].
  simpl in H. destruct (pad_row cmax r) as [r'|o1] eqn:E.
  - rewrite bind_Ok in H.
    destruct (pad_all cmax rows) as [rows'|o2]; [discriminate |].
    simpl in H. injection H as <-. auto.
  - simpl in H. injection H as <-. unfold pad_row in E.
    destruct r as [t|l|z]; try discriminate.
    + destruct (String.length t <? cmax)%nat; [| discriminate].
      injection E as <-. eauto.
    + injection E as <-. eauto.
Qed.

Lemma scan_row_raises (index : nat) (s : scan_state) (o : outcome) :
  scan_row index s = Abort o -> raises o.
Proof.
  unfold scan_row, raises.
  destruct (list_of_lists_of_strings s !! index) as [[t|l|z]|];
    intros H; try discriminate; try (injection H as <-; eauto).
  destruct (length l =? 1)%nat; [discriminate |].
  destruct (curr_max_num_cols s =? 0)%nat; [discriminate |].
  destruct (length (none_to_empty l) =? curr_max_num_cols s)%nat;
    [discriminate |].
  destruct (pad_all _ _) as [rows'|o1] eqn:E; [discriminate |].
  simpl in H. injection H as <-. exact (pad_all_raises _ _ _ E).
Qed.

Lemma scan_from_raises (indices : list nat) :
  forall (s : scan_state) (o : outcome),
    scan_from indices s = Abort o -> raises o.
Proof.
  induction indices as [|i indices IH]; intros s o H; [discriminate |].
  simpl in H. destruct (scan_row i s) as [s1|o1] eqn:E.
  - rewrite bind_Ok in H. eauto.
  - simpl in H. injection H as <-. exact (scan_row_raises _ _ _ E).
Qed.

Lemma pad_justify_raises (jl : list string) (cmax : nat) (o : outcome) :
  pad_justify jl cmax = Abort o -> raises o.
Proof.
  unfold pad_justify, raises.
  destruct (length jl <? cmax)%nat; [| discriminate].
  destruct (py_index jl (-1)); [discriminate |].
  intros [= <-]. eauto.
Qed.

Lemma width_cells_raises (indices : list nat) :
  forall (st : list field * list nat) (o : outcome),
    width_cells indices st = Abort o -> raises o.
Proof.
  unfold raises.
  induction indices as [|i indices IH]; intros st o H; [discriminate |].
  simpl in H. destruct (width_cell i st) as [st1|o1] eqn:E.
  - rewrite bind_Ok in H. eauto.
  - simpl in H. injection H as <-.
    unfold width_cell in E. destruct st as [l ws].
    destruct (l !! i); [| injection E as <-; eauto].
    destruct (length ws <? length (<[i:=FStr (str f)]> l))%nat;
      [discriminate |].
    destruct (ws !! i); [| injection E as <-; eauto].
    destruct (n <? String.length (str f))%nat; discriminate.
Qed.

Lemma width_row_raises (cmax : nat) (r : row) (ws : list nat) (o : outcome) :
  width_row cmax r ws = Abort o -> raises o.
Proof.
  unfold width_row, raises. destruct r as [t|l|z]; intros H.
  - destruct (String.length t =? 1)%nat; [discriminate |].
    destruct cmax; [discriminate |].
    destruct (String.length t =? 0)%nat; injection H as <-; eauto.
  - destruct (length l =? 1)%nat; [discriminate |].
    destruct (width_cells (seq 0 cmax) (l, ws)) as [[l' ws']|o1] eqn:E;
      [discriminate |].
    simpl in H. injection H as <-. exact (width_cells_raises _ _ _ E).
  - injection H as <-. eauto.
Qed.

Lemma width_rows_raises (cmax : nat) (rows : list row) :
  forall (ws : list nat) (o : outcome),
    width_rows cmax rows ws = Abort o -> raises o.
Proof.
  induction rows as [|r rows IH]; intros ws o H; [discriminate |].
  simpl in H. destruct (width_row cmax r ws) as [[r' ws1]|o1] eqn:E.
  - rewrite bind_Ok in H. cbn beta iota in H.
    destruct (width_rows cmax rows ws1) as [[rows' ws2]|o2] eqn:E2;
      [discriminate |].
    simpl in H. injection H as <-. eauto.
  - simpl in H. injection H as <-. exact (width_row_raises _ _ _ _ E).
Qed.

Lemma row_field_raises (r : row) (c : Z) (o : outcome) :
  row_field r c = Abort o -> raises o.
Proof.
  unfold row_field, raises. intros H. destruct r as [t|l|z].
  - destruct (py_index _ c); [discriminate | injection H as <-; eauto].
  - destruct (py_index l c) as [[]|]; try discriminate;
      injection H as <-; eauto.
  - injection H as <-. eauto.
Qed.

Lemma col_width_raises (ws : list nat) (c : Z) (o : outcome) :
  col_width ws c = Abort o -> raises o.
Proof.
  unfold col_width, raises.
  destruct (py_index ws c); [discriminate | intros [= <-]; eauto].
Qed.

Lemma raises_aborting (o : outcome) : raises o -> aborting o.
Proof. intros [e ->]. exact I. Qed.

Lemma render_loop_aborting (fuel : nat) r ws jl :
  forall line jcc cc (o : outcome),
    render_loop fuel r ws jl line jcc cc = Abort o -> aborting o.
Proof.
  induction fuel as [|fuel IH]; intros line jcc cc o H.
  - injection H as <-. exact I.
  - simpl in H.
    destruct (cc + 1 >=? Z.of_nat (length ws)); [discriminate |].
    destruct (py_index jl _) as [tok|]; [| injection H as <-; exact I].
    destruct (classify tok).
    + destruct (row_field r (cc + 1)) as [t|o1] eqn:Ef;
        [| simpl in H; injection H as <-;
           exact (raises_aborting _ (row_field_raises _ _ _ Ef))].
      destruct (col_width ws (cc + 1)) as [w|o1] eqn:Ew;
        [| simpl in H; injection H as <-;
           exact (raises_aborting _ (col_width_raises _ _ _ Ew))].
      simpl in H. eauto.
    + destruct (row_field r (cc + 1)) as [t|o1] eqn:Ef;
        [| simpl in H; injection H as <-;
           exact (raises_aborting _ (row_field_raises _ _ _ Ef))].
      destruct (col_width ws (cc + 1)) as [w|o1] eqn:Ew;
        [| simpl in H; injection H as <-;
           exact (raises_aborting _ (col_width_raises _ _ _ Ew))].
      simpl in H. eauto.
    + eauto.
    + injection H as <-. exact I.
Qed.

Lemma render_row_aborting (fuel : nat) ws jl (r : row) (o : outcome) :
  render_row fuel ws jl r = Abort o -> aborting o.
Proof.
  assert (Ha : (line ← render_loop fuel r ws jl EmptyString (-1) (-1);
                Ok (FStr line)) = Abort o -> aborting o).
  { destruct (render_loop fuel r ws jl EmptyString (-1) (-1)) as [line|o1] eqn:E;
      [discriminate |].
    simpl. intros [= <-]. exact (render_loop_aborting _ _ _ _ _ _ _ _ E). }
  unfold render_row. destruct r as [t|l|z]; [discriminate | | exact Ha].
  destruct l as [|f [|g l]]; [exact Ha | discriminate | exact Ha].
Qed.

Lemma render_rows_aborting (fuel : nat) ws jl (rows : list row) :
  forall o : outcome, render_rows fuel ws jl rows = Abort o -> aborting o.
Proof.
  induction rows as [|r rows IH]; intros o H; [discriminate |].
  simpl in H. destruct (render_row fuel ws jl r) as [out|o1] eqn:E.
  - rewrite bind_Ok in H.
    destruct (render_rows fuel ws jl rows) as [outs|o2]; [discriminate |].
    simpl in H. injection H as <-. auto.
  - simpl in H. injection H as <-. exact (render_row_aborting _ _ _ _ _ E).
Qed.

(** ** What a returning call went through *)

Lemma pad_all_length (cmax : nat) (rows : list row) :
  forall rows', pad_all cmax rows = Ok rows' -> length rows' = length rows.
Proof.
  induction rows as [|r rows IH]; intros rows' H.
  - injection H as <-. reflexivity.
  - simpl in H. destruct (pad_row cmax r) as [r'|]; [| discriminate].
    rewrite bind_Ok in H.
    destruct (pad_all cmax rows) as [rest'|]; [| discriminate].
    rewrite bind_Ok in H. injection H as <-. simpl. now rewrite (IH rest').
Qed.

Lemma scan_row_shape (index : nat) (s s' : scan_state) :
  scan_row index s = Ok s' ->
  length (list_of_lists_of_strings s') = length (list_of_lists_of_strings s)
  /\ (rc s' = rc s \/ rc s' = 2).
Proof.
  unfold scan_row.
  destruct (list_of_lists_of_strings s !! index) as [[t|l|z]|];
    try discriminate.
  - intros [= <-]. auto.
  - destruct (length l =? 1)%nat; [intros [= <-]; auto |].
    destruct (curr_max_num_cols s =? 0)%nat;
      [intros [= <-]; simpl; rewrite length_insert; auto |].
    destruct (length (none_to_empty l) =? curr_max_num_cols s)%nat;
      [intros [= <-]; simpl; rewrite length_insert; auto |].
    destruct (pad_all _ _) as [rows'|] eqn:E; [| discriminate].
    rewrite bind_Ok. intros [= <-]. simpl.
    rewrite (pad_all_length _ _ _ E), length_insert. auto.
Qed.

Lemma scan_from_shape (indices : list nat) :
  forall s s' : scan_state,
    scan_from indices s = Ok s' ->
    length (list_of_lists_of_strings s') = length (list_of_lists_of_strings s)
    /\ (rc s' = rc s \/ rc s' = 2).
Proof.
  induction indices as [|i indices IH]; intros s s' H.
  - injection H as <-. auto.
  - simpl in H. destruct (scan_row i s) as [s1|] eqn:E; [| discriminate].
    rewrite bind_Ok in H.
    destruct (scan_row_shape _ _ _ E) as [Hl1 Hr1].
    destruct (IH _ _ H) as [Hl2 Hr2].
    split; [congruence |]. destruct Hr2 as [-> | ->]; auto.
Qed.

Lemma width_rows_length (cmax : nat) (rows : list row) :
  forall ws rows' ws',
    width_rows cmax rows ws = Ok (rows', ws') -> length rows' = length rows.
Proof.
  induction rows as [|r rows IH]; intros ws rows' ws' H.
  - injection H as <- _. reflexivity.
  - simpl in H. destruct (width_row cmax r ws) as [[r1 ws1]|]; [| discriminate].
    rewrite bind_Ok in H. cbn beta iota in H.
    destruct (width_rows cmax rows ws1) as [[rest ws2]|] eqn:E; [| discriminate].
    rewrite bind_Ok in H. injection H as <- _. simpl. now rewrite (IH _ _ _ E).
Qed.

Lemma render_rows_length (fuel : nat) ws jl (rows : list row) :
  forall lines,
    render_rows fuel ws jl rows = Ok lines -> length lines = length rows.
Proof.
  induction rows as [|r rows IH]; intros lines H.
  - injection H as <-. reflexivity.
  - simpl in H. destruct (render_row fuel ws jl r) as [out|]; [| discriminate].
    rewrite bind_Ok in H.
    destruct (render_rows fuel ws jl rows) as [outs|]; [| discriminate].
    rewrite bind_Ok in H. injection H as <-. simpl. now rewrite (IH outs).
Qed.

(** A call that returns a line list went through all five phases. *)
Lemma columnize_output_Return_inv (fuel : nat) (input_data : list row)
    (justify_cols : string) (status : Z) (lines : list field)
    (data : list row) :
  columnize_output fuel input_data justify_cols = Return status lines data ->
  exists (rows : list row) (s : scan_state) (jl : list string)
         (rows' : list row) (ws : list nat),
    resolve_input input_data = Ok rows
    /\ rows <> []
    /\ scan rows = Ok s
    /\ pad_justify (split comma justify_cols) (curr_max_num_cols s) = Ok jl
    /\ width_rows (curr_max_num_cols s) (list_of_lists_of_strings s) []
       = Ok (rows', ws)
    /\ render_rows fuel ws jl rows' = Ok lines
    /\ status = rc s
    /\ data = (if shares_input input_data then rows' else input_data).
Proof.
  unfold columnize_output. intros H.
  destruct (resolve_input input_data) as [rows|o] eqn:E1.
  2: { simpl in H. subst o.
       now destruct (raises_aborting _ (resolve_input_raises _ _ E1)). }
  rewrite bind_Ok in H.
  destruct rows as [|r0 rows0]; [discriminate |].
  cbn [length Nat.eqb] in H.
  destruct (scan (r0 :: rows0)) as [s|o] eqn:E2.
  2: { simpl in H. subst o.
       now destruct (raises_aborting _ (scan_from_raises _ _ _ E2)). }
  rewrite bind_Ok in H.
  destruct (pad_justify _ _) as [jl|o] eqn:E3.
  2: { simpl in H. subst o.
       now destruct (raises_aborting _ (pad_justify_raises _ _ _ E3)). }
  rewrite bind_Ok in H.
  destruct (width_rows _ _ _) as [[rows' ws]|o] eqn:E4.
  2: { simpl in H. subst o.
       now destruct (raises_aborting _ (width_rows_raises _ _ _ _ E4)). }
  rewrite bind_Ok in H. cbn beta iota in H.
  destruct (render_rows fuel ws jl rows') as [out|o] eqn:E5.
  2: { simpl in H. subst o.
       now destruct (render_rows_aborting _ _ _ _ _ E5). }
  rewrite bind_Ok in H. simpl in H. injection H as <- <- <-.
  exists (r0 :: rows0), s, jl, rows', ws.
  repeat split; auto; try discriminate.
Qed.

(** X1. Whenever the call returns a line list, the status is 0 or 2, there
    is exactly one output line per resolved row, and the caller's list has
    kept its length. *)
Theorem returned_lines_match_the_rows :
  forall (fuel : nat) (input_data : list row) (justify_cols : string)
         (status : Z) (lines : list field) (data : list row),
    columnize_output fuel input_data justify_cols = Return status lines data ->
    exists rows : list row,
      resolve_input input_data = Ok rows
      /\ length lines = length rows
      /\ (status = 0 \/ status = 2)
      /\ length data = length input_data.
Proof.
  intros fuel input_data justify_cols status lines data H.
  destruct (columnize_output_Return_inv _ _ _ _ _ _ H)
    as (rows & s & jl & rows' & ws & Hres & Hne & Hscan & Hpad & Hwid
        & Hren & -> & ->).
  exists rows. split; [exact Hres |].
  unfold scan in Hscan.
  destruct (scan_from_shape _ _ _ Hscan) as [Hlen Hrc].
  cbn [list_of_lists_of_strings rc] in Hlen, Hrc.
  pose proof (width_rows_length _ _ _ _ _ Hwid) as Hlen'.
  pose proof (render_rows_length _ _ _ _ _ Hren) as Hlen''.
  split; [congruence |]. split; [destruct Hrc; auto |].
  destruct input_data as [|[t|l|z] rest]; try reflexivity.
  cbn [shares_input]. injection Hres as <-. congruence.
Qed.

Lemma returned_lines_match_the_rows_witness :
  exists rows : list row,
    resolve_input [RowStr "a,b"; RowStr "c"] = Ok rows
    /\ length [FStr "a   b"; FStr "c"] = length rows
    /\ (0 = 0 \/ 0 = 2)
    /\ length [RowStr "a,b"; RowStr "c"] = length [RowStr "a,b"; RowStr "c"].
Proof.
  apply (returned_lines_match_the_rows 3 [RowStr "a,b"; RowStr "c"] "L,R" 0
           [FStr "a   b"; FStr "c"] [RowStr "a,b"; RowStr "c"]).
  reflexivity.
Defined.



(** ** Rows that pass through *)

Lemma pad_all_same_unless_list (cmax : nat) (rows : list row) :
  forall rows',
    pad_all cmax rows = Ok rows' -> Forall2 same_unless_list rows rows'.
Proof.
  induction rows as [|r rows IH]; intros rows' H.
  - injection H as <-. constructor.
  - simpl in H. destruct (pad_row cmax r) as [r'|] eqn:E; [| discriminate].
    rewrite bind_Ok in H.
    destruct (pad_all cmax rows) as [rest'|]; [| discriminate].
    rewrite bind_Ok in H. injection H as <-.
    constructor; [| now apply IH].
    unfold pad_row in E. destruct r as [t|l|z]; simpl; [| exact I | discriminate].
    destruct (String.length t <? cmax)%nat; [discriminate |]. congruence.
Qed.

Lemma same_unless_list_refl (rows : list row) :
  Forall2 same_unless_list rows rows.
Proof. induction rows as [|[t|l|z] rows IH]; constructor; simpl; auto. Qed.

Lemma same_unless_list_trans (a b d : list row) :
  Forall2 same_unless_list a b -> Forall2 same_unless_list b d ->
  Forall2 same_unless_list a d.
Proof.
  intros H. revert d.
  induction H as [|x y a b Hxy H IH]; intros d Hd; inversion Hd; subst;
    constructor; [| auto].
  destruct x as [t|l|z]; simpl in *; subst; auto.
Qed.

Lemma same_unless_list_insert (cur : list row) (i : nat) (l l' : list field) :
  cur !! i = Some (RowList l) ->
  Forall2 same_unless_list cur (<[i:=RowList l']> cur).
Proof.
  revert i. induction cur as [|r cur IH]; intros i Hi; [constructor |].
  destruct i as [|i]; simpl in *.
  - injection Hi as ->. constructor; [exact I | apply same_unless_list_refl].
  - constructor; [| now apply IH].
    destruct r; simpl; auto.
Qed.

Lemma scan_row_same_unless_list (index : nat) (s s' : scan_state) :
  scan_row index s = Ok s' ->
  Forall2 same_unless_list (list_of_lists_of_strings s)
                           (list_of_lists_of_strings s').
Proof.
  unfold scan_row.
  destruct (list_of_lists_of_strings s !! index) as [[t|l|z]|] eqn:Hi;
    try discriminate.
  - intros [= <-]. apply same_unless_list_refl.
  - destruct (length l =? 1)%nat;
      [intros [= <-]; apply same_unless_list_refl |].
    destruct (curr_max_num_cols s =? 0)%nat;
      [intros [= <-]; simpl; eapply same_unless_list_insert; eauto |].
    destruct (length (none_to_empty l) =? curr_max_num_cols s)%nat;
      [intros [= <-]; simpl; eapply same_unless_list_insert; eauto |].
    destruct (pad_all _ _) as [rows'|] eqn:E; [| discriminate].
    rewrite bind_Ok. intros [= <-]. simpl.
    eapply same_unless_list_trans;
      [eapply same_unless_list_insert; eauto |].
    eapply pad_all_same_unless_list; eauto.
Qed.

Lemma scan_from_same_unless_list (indices : list nat) :
  forall s s' : scan_state,
    scan_from indices s = Ok s' ->
    Forall2 same_unless_list (list_of_lists_of_strings s)
                             (list_of_lists_of_strings s').
Proof.
  induction indices as [|i indices IH]; intros s s' H.
  - injection H as <-. apply same_unless_list_refl.
  - simpl in H. destruct (scan_row i s) as [s1|] eqn:E; [| discriminate].
    rewrite bind_Ok in H.
    eapply same_unless_list_trans;
      [eapply scan_row_same_unless_list; eauto | eauto].
Qed.

(** A visit that leaves [rc] at 0 did not pad: it only replaced [None] in
    the row it visited. *)
Lemma scan_row_unpadded (index : nat) (s s' : scan_state) (r : row) :
  list_of_lists_of_strings s !! index = Some r ->
  scan_row index s = Ok s' -> rc s' = 0 ->
  rc s = 0
  /\ list_of_lists_of_strings s'
     = <[index:=scanned r]> (list_of_lists_of_strings s).
Proof.
  intros Hi. unfold scan_row. rewrite Hi.
  destruct r as [t|l|z]; try discriminate.
  - intros [= <-] Hrc. split; [exact Hrc |].
    simpl. symmetry. now apply list_insert_id.
  - cbn [scanned].
    destruct (length l =? 1)%nat.
    { intros [= <-] Hrc. split; [exact Hrc |].
      symmetry. now apply list_insert_id. }
    destruct (curr_max_num_cols s =? 0)%nat;
      [intros [= <-] Hrc; split; [exact Hrc | reflexivity] |].
    destruct (length (none_to_empty l) =? curr_max_num_cols s)%nat;
      [intros [= <-] Hrc; split; [exact Hrc | reflexivity] |].
    destruct (pad_all _ _) as [rows'|]; [| discriminate].
    rewrite bind_Ok. intros [= <-] Hrc. discriminate Hrc.
Qed.

Lemma scan_from_unpadded (k : nat) :
  forall (i : nat) (s s' : scan_state),
    length (list_of_lists_of_strings s) = (i + k)%nat ->
    scan_from (seq i k) s = Ok s' -> rc s' = 0 ->
    rc s = 0
    /\ list_of_lists_of_strings s'
       = take i (list_of_lists_of_strings s)
         ++ map scanned (drop i (list_of_lists_of_strings s)).
Proof.
  induction k as [|k IH]; intros i s s' Hlen H Hrc.
  - injection H as <-. split; [exact Hrc |].
    rewrite drop_ge, take_ge by lia. simpl. now rewrite app_nil_r.
  - cbn [seq scan_from] in H.
    destruct (scan_row i s) as [s1|] eqn:E; [| discriminate].
    rewrite bind_Ok in H.
    destruct (lookup_lt_is_Some_2 (list_of_lists_of_strings s) i) as [r Hr];
      [lia |].
    destruct (scan_row_shape _ _ _ E) as [Hl1 _].
    destruct (IH (S i) s1 s') as [Hrc1 Hlist]; [lia | exact H | exact Hrc |].
    destruct (scan_row_unpadded _ _ _ _ Hr E Hrc1) as [Hrc0 Hs1].
    split; [exact Hrc0 |].
    rewrite Hlist, Hs1.
    rewrite take_S_insert by lia.
    rewrite drop_insert_lt by lia.
    rewrite (drop_S _ _ _ Hr). simpl. now rewrite <- app_assoc.
Qed.

Lemma width_rows_same_unless_aligned (cmax : nat) (rows : list row) :
  forall ws rows' ws',
    width_rows cmax rows ws = Ok (rows', ws') ->
    Forall2 same_unless_aligned rows rows'.
Proof.
  induction rows as [|r rows IH]; intros ws rows' ws' H.
  - injection H as <- _. constructor.
  - simpl in H.
    destruct (width_row cmax r ws) as [[r1 ws1]|] eqn:E; [| discriminate].
    rewrite bind_Ok in H. cbn beta iota in H.
    destruct (width_rows cmax rows ws1) as [[rest ws2]|] eqn:E2;
      [| discriminate].
    rewrite bind_Ok in H. injection H as <- _.
    constructor; [| eapply IH; eauto].
    unfold width_row in E. destruct r as [t|l|z]; simpl; [| | discriminate].
    + destruct (String.length t =? 1)%nat; [congruence |].
      destruct cmax; [congruence |].
      destruct (String.length t =? 0)%nat; discriminate.
    + destruct l as [|f [|g l]]; auto. simpl in E. congruence.
Qed.

Lemma render_rows_passed_through (fuel : nat) ws jl (rows : list row) :
  forall lines,
    render_rows fuel ws jl rows = Ok lines ->
    Forall2 passed_through rows lines.
Proof.
  induction rows as [|r rows IH]; intros lines H.
  - injection H as <-. constructor.
  - simpl in H.
    destruct (render_row fuel ws jl r) as [out|] eqn:E; [| discriminate].
    rewrite bind_Ok in H.
    destruct (render_rows fuel ws jl rows) as [outs|]; [| discriminate].
    rewrite bind_Ok in H. injection H as <-.
    constructor; [| now apply IH].
    unfold render_row in E. destruct r as [t|l|z]; simpl; [congruence | | exact I].
    destruct l as [|f [|g l]]; auto. congruence.
Qed.

(** X3. In any call that returns a line list, a row that is a bare str is
    emitted as that str at its position; and when the status is 0, that is
    when no padding took place, every one-field row is emitted as its field,
    unchanged and not even turned into a str, whatever the justification. *)
Theorem unaligned_rows_pass_through :
  forall (fuel : nat) (input_data : list row) (justify_cols : string)
         (status : Z) (lines : list field) (data : list row),
    columnize_output fuel input_data justify_cols = Return status lines data ->
    exists rows : list row,
      resolve_input input_data = Ok rows
      /\ (forall (i : nat) (t : string),
             rows !! i = Some (RowStr t) -> lines !! i = Some (FStr t))
      /\ (status = 0 ->
          forall (i : nat) (f : field),
            rows !! i = Some (RowList [f]) -> lines !! i = Some f).
Proof.
  intros fuel input_data justify_cols status lines data H.
  destruct (columnize_output_Return_inv _ _ _ _ _ _ H)
    as (rows & s & jl & rows' & ws & Hres & Hne & Hscan & Hpad & Hwid
        & Hren & -> & ->).
  exists rows. split; [exact Hres |].
  pose proof (width_rows_same_unless_aligned _ _ _ _ _ Hwid) as Hw.
  pose proof (render_rows_passed_through _ _ _ _ _ Hren) as Hr.
  unfold scan in Hscan. split.
  - intros i t Hi.
    pose proof (scan_from_same_unless_list _ _ _ Hscan) as Hs.
    cbn [list_of_lists_of_strings] in Hs.
    destruct (Forall2_lookup_l _ _ _ _ _ Hs Hi) as (r1 & Hi1 & H1).
    simpl in H1. subst r1.
    destruct (Forall2_lookup_l _ _ _ _ _ Hw Hi1) as (r2 & Hi2 & H2).
    simpl in H2. subst r2.
    destruct (Forall2_lookup_l _ _ _ _ _ Hr Hi2) as (out & Hout & H3).
    simpl in H3. now subst out.
  - intros Hrc i f Hi.
    destruct (scan_from_unpadded _ 0 _ _ eq_refl Hscan Hrc) as [_ Hs].
    cbn [list_of_lists_of_strings] in Hs.
    rewrite take_0, drop_0, app_nil_l in Hs.
    assert (Hi1 : list_of_lists_of_strings s !! i = Some (RowList [f])).
    { rewrite Hs. change (map scanned rows) with (scanned <$> rows).
      now rewrite list_lookup_fmap, Hi. }
    destruct (Forall2_lookup_l _ _ _ _ _ Hw Hi1) as (r2 & Hi2 & H2).
    simpl in H2. subst r2.
    destruct (Forall2_lookup_l _ _ _ _ _ Hr Hi2) as (out & Hout & H3).
    simpl in H3. now subst out.
Qed.

Lemma unaligned_rows_pass_through_witness :
  exists rows : list row,
    resolve_input [RowList [FNone]; RowStr "x"; cells ["a"; "b"]] = Ok rows
    /\ (forall (i : nat) (t : string),
           rows !! i = Some (RowStr t) ->
           [FNone; FStr "x"; FStr "a   b"] !! i = Some (FStr t))
    /\ (0 = 0 ->
        forall (i : nat) (f : field),
          rows !! i = Some (RowList [f]) ->
          [FNone; FStr "x"; FStr "a   b"] !! i = Some f).
Proof.
  apply (unaligned_rows_pass_through 3
           [RowList [FNone]; RowStr "x"; cells ["a"; "b"]] "L,R" 0
           [FNone; FStr "x"; FStr "a   b"]
           [RowList [FNone]; RowStr "x"; cells ["a"; "b"]]).
  reflexivity.
Defined.


(** ** The scan against the rows the caller passed *)

Lemma none_to_empty_app (a b : list field) :
  none_to_empty (a ++ b) = none_to_empty a ++ none_to_empty b.
Proof. unfold none_to_empty. apply map_app. Qed.

Lemma none_to_empty_replicate (k : nat) :
  none_to_empty (replicate k (FStr EmptyString))
  = replicate k (FStr EmptyString).
Proof. induction k as [|k IH]; simpl; [reflexivity | now f_equal]. Qed.

Lemma none_to_empty_idem (l : list field) :
  none_to_empty (none_to_empty l) = none_to_empty l.
Proof.
  induction l as [|f l IH]; simpl; [reflexivity |].
  f_equal; [now destruct f | exact IH].
Qed.

Lemma extends_refl (l : list field) : extends l l.
Proof. exists 0%nat. left. simpl. now rewrite app_nil_r. Qed.

Lemma extends_none_to_empty (lo lc : list field) :
  extends lo lc -> extends lo (none_to_empty lc).
Proof.
  intros [k [-> | ->]]; exists k; right;
    rewrite none_to_empty_app, none_to_empty_replicate;
    [reflexivity | now rewrite none_to_empty_idem].
Qed.

Lemma extends_pad (lo lc : list field) (n : nat) :
  extends lo lc -> extends lo (lc ++ replicate n (FStr EmptyString)).
Proof.
  intros [k [-> | ->]]; exists (k + n)%nat; [left | right];
    now rewrite <- app_assoc, replicate_add.
Qed.

Lemma extends_length (lo lc : list field) :
  extends lo lc -> (length lo <= length lc)%nat.
Proof.
  intros [k [-> | ->]]; rewrite length_app;
    [| rewrite length_none_to_empty]; lia.
Qed.

Lemma scan_rel_mono (cm cm' : nat) (ro rc : row) :
  (cm <= cm')%nat -> scan_rel cm ro rc -> scan_rel cm' ro rc.
Proof.
  intros Hle (lo & lc & -> & -> & He & Hl).
  exists lo, lc. repeat split; auto. destruct Hl; [auto | right; lia].
Qed.

Lemma scan_rel_padded (cm m : nat) (ro rc : row) :
  (2 <= m)%nat -> (cm <= m)%nat ->
  scan_rel cm ro rc -> scan_rel m ro (padded m rc).
Proof.
  intros Hm Hle (lo & lc & -> & -> & He & Hl).
  exists lo, (lc ++ replicate (m - length lc) (FStr EmptyString)).
  split; [reflexivity |]. split; [reflexivity |].
  split; [now apply extends_pad |].
  rewrite length_app, length_replicate.
  destruct (le_lt_dec m (length lc)) as [Hge | Hlt].
  - replace (m - length lc)%nat with 0%nat by lia.
    destruct Hl; [left; lia | right; lia].
  - right. lia.
Qed.

Lemma scan_rel_insert (cm : nat) (orig cur : list row) (i : nat)
    (lo lc l' : list field) :
  Forall2 (scan_rel cm) orig cur ->
  orig !! i = Some (RowList lo) ->
  extends lo l' -> (length l' = length lo \/ (2 <= length l' <= cm)%nat) ->
  Forall2 (scan_rel cm) orig (<[i:=RowList l']> cur).
Proof.
  intros HF Ho He Hl.
  rewrite <- (list_insert_id orig i (RowList lo) Ho).
  apply Forall2_insert; [exact HF |].
  exists lo, l'. auto.
Qed.

(** One visit of the scan, followed against the input. *)
Lemma scan_row_tracked (orig : list row) (i : nat) (s : scan_state) :
  (i < length orig)%nat ->
  Forall2 (scan_rel (curr_max_num_cols s)) orig (list_of_lists_of_strings s) ->
  reached orig (curr_max_num_cols s) ->
  bounds orig i (curr_max_num_cols s) ->
  exists s',
    scan_row i s = Ok s'
    /\ Forall2 (scan_rel (curr_max_num_cols s')) orig
               (list_of_lists_of_strings s')
    /\ reached orig (curr_max_num_cols s')
    /\ bounds orig (S i) (curr_max_num_cols s').
Proof.
  destruct s as [cur cm rc0].
  cbn [list_of_lists_of_strings curr_max_num_cols].
  intros Hi HF Hreach Hb.
  destruct (lookup_lt_is_Some_2 orig i Hi) as [ro Ho].
  destruct (Forall2_lookup_l _ _ _ _ _ HF Ho) as (rc1 & Hc & Hrel).
  destruct Hrel as (lo & lc & -> & -> & He & Hl).
  pose proof (extends_length _ _ He) as Hle.
  assert (Hin : RowList lo ∈ orig) by (apply list_elem_of_lookup; eauto).
  assert (Hcm1 : cm <> 1%nat).
  { destruct Hreach as [-> | (l0 & _ & Hn & <-)]; [lia | exact Hn]. }
  (* the bound for the rows up to [i], once the count is at least [m] *)
  assert (Hbounds : forall m : nat,
            (cm <= m)%nat -> (length lc <> 1%nat -> length lc <= m)%nat ->
            bounds orig (S i) m).
  { intros m Hm Hlc j l0 Hj Hj0 Hn.
    destruct (Nat.eq_dec j i) as [-> | Hne].
    - rewrite Ho in Hj0. injection Hj0 as <-.
      assert (length lc <> 1%nat) by (destruct Hl; lia).
      specialize (Hlc H). lia.
    - assert (length l0 <= cm)%nat by (apply (Hb j); [lia | auto | auto]).
      lia. }
  unfold scan_row. cbn [list_of_lists_of_strings curr_max_num_cols rc].
  rewrite Hc.
  destruct (length lc =? 1)%nat eqn:E1.
  { apply Nat.eqb_eq in E1.
    exists (ScanState cur cm rc0).
    cbn [list_of_lists_of_strings curr_max_num_cols].
    split; [reflexivity |]. split; [exact HF |]. split; [exact Hreach |].
    apply Hbounds; [lia | intros; contradiction]. }
  apply Nat.eqb_neq in E1.
  set (l' := none_to_empty lc).
  assert (Hl' : length l' = length lc) by apply length_none_to_empty.
  assert (He' : extends lo l') by now apply extends_none_to_empty.
  assert (HF1 : Forall2 (scan_rel cm) orig (<[i:=RowList l']> cur)).
  { eapply scan_rel_insert; eauto. rewrite Hl'. exact Hl. }
  rewrite Hl'.
  destruct (cm =? 0)%nat eqn:E0.
  { apply Nat.eqb_eq in E0. subst cm.
    assert (Hsame : length lc = length lo) by (destruct Hl; lia).
    eexists. split; [reflexivity |].
    cbn [list_of_lists_of_strings curr_max_num_cols].
    split; [| split].
    - eapply Forall2_impl; [exact HF1 |].
      intros ro rc1 Hrel. eapply scan_rel_mono; [| exact Hrel]. lia.
    - right. exists lo. repeat split; [exact Hin | lia | lia].
    - apply Hbounds; lia. }
  apply Nat.eqb_neq in E0.
  destruct (length lc =? cm)%nat eqn:Ec.
  { apply Nat.eqb_eq in Ec.
    eexists. split; [reflexivity |].
    cbn [list_of_lists_of_strings curr_max_num_cols].
    split; [exact HF1 |]. split; [exact Hreach |].
    apply Hbounds; lia. }
  apply Nat.eqb_neq in Ec.
  assert (Hlist : Forall is_list (<[i:=RowList l']> cur)).
  { apply Forall_insert; [| now exists l'].
    apply Forall_forall. intros r Hr.
    apply list_elem_of_lookup in Hr. destruct Hr as [j Hj].
    destruct (Forall2_lookup_r _ _ _ _ _ HF Hj) as (r0 & _ & Hrel).
    destruct Hrel as (l0 & l1 & _ & -> & _). now exists l1. }
  rewrite (pad_all_lists _ _ Hlist). run_binds.
  eexists. split; [reflexivity |].
  cbn [list_of_lists_of_strings curr_max_num_cols].
  destruct (cm <? length lc)%nat eqn:Elt;
    [apply Nat.ltb_lt in Elt | apply Nat.ltb_ge in Elt].
  - assert (Hsame : length lc = length lo) by (destruct Hl; lia).
    split; [| split].
    + apply Forall2_fmap_r. eapply Forall2_impl; [exact HF1 |].
      intros ro rc1 Hrel. apply (scan_rel_padded cm); [lia | lia | exact Hrel].
    + right. exists lo. repeat split; [exact Hin | lia | lia].
    + apply Hbounds; lia.
  - split; [| split].
    + apply Forall2_fmap_r. eapply Forall2_impl; [exact HF1 |].
      intros ro rc1 Hrel. apply (scan_rel_padded cm); [lia | lia | exact Hrel].
    + exact Hreach.
    + apply Hbounds; lia.
Qed.

Lemma scan_from_tracked (orig : list row) (k : nat) :
  forall (i : nat) (s : scan_state),
    length orig = (i + k)%nat ->
    Forall2 (scan_rel (curr_max_num_cols s)) orig
            (list_of_lists_of_strings s) ->
    reached orig (curr_max_num_cols s) ->
    bounds orig i (curr_max_num_cols s) ->
    exists s',
      scan_from (seq i k) s = Ok s'
      /\ Forall2 (scan_rel (curr_max_num_cols s')) orig
                 (list_of_lists_of_strings s')
      /\ reached orig (curr_max_num_cols s')
      /\ bounds orig (i + k) (curr_max_num_cols s').
Proof.
  induction k as [|k IH]; intros i s Hlen HF Hreach Hb.
  - exists s. rewrite Nat.add_0_r. auto.
  - destruct (scan_row_tracked orig i s) as (s1 & Hrow & HF1 & Hr1 & Hb1);
      [lia | exact HF | exact Hreach | exact Hb |].
    destruct (IH (S i) s1) as (s' & Hrun & HF' & Hr' & Hb');
      [lia | exact HF1 | exact Hr1 | exact Hb1 |].
    exists s'. cbn [seq scan_from]. rewrite Hrow. run_binds.
    split; [exact Hrun |]. split; [exact HF' |]. split; [exact Hr' |].
    now replace (i + S k)%nat with (S i + k)%nat by lia.
Qed.

Lemma scan_tracked (rows : list row) :
  Forall is_list rows ->
  exists s,
    scan rows = Ok s
    /\ Forall2 (scan_rel (curr_max_num_cols s)) rows
               (list_of_lists_of_strings s)
    /\ reached rows (curr_max_num_cols s)
    /\ bounds rows (length rows) (curr_max_num_cols s).
Proof.
  intros Hlist. unfold scan.
  apply (scan_from_tracked rows (length rows) 0 (ScanState rows 0 0)).
  - reflexivity.
  - cbn. induction Hlist as [|r rows [l ->] _ IH]; constructor; [| exact IH].
    exists l, l. repeat split; auto using extends_refl.
  - now left.
  - intros j lo Hj. lia.
Qed.

(** X4. On a table of list rows the scan succeeds and the column count it
    ends with is the largest field count among the rows that have a field
    count other than 1 (0 when there is no such row): it bounds each of
    them and is the field count of one of them. *)
Theorem scan_column_count_is_the_largest_field_count :
  forall rows : list row,
    Forall is_list rows ->
    exists s : scan_state,
      scan rows = Ok s
      /\ (forall l : list field,
             RowList l ∈ rows -> length l <> 1%nat ->
             (length l <= curr_max_num_cols s)%nat)
      /\ (curr_max_num_cols s = 0%nat
          \/ exists l : list field,
               RowList l ∈ rows /\ length l <> 1%nat
               /\ length l = curr_max_num_cols s).
Proof.
  intros rows Hlist.
  destruct (scan_tracked rows Hlist) as (s & Hscan & _ & Hreach & Hb).
  exists s. split; [exact Hscan |]. split; [| exact Hreach].
  intros l Hin Hne. apply list_elem_of_lookup in Hin. destruct Hin as [j Hj].
  apply (Hb j l); [| exact Hj | exact Hne].
  apply lookup_lt_Some in Hj. exact Hj.
Qed.

Lemma scan_column_count_is_the_largest_field_count_witness :
  exists s : scan_state,
    scan [cells ["t"]; cells ["a"; "b"]; cells ["c"; "d"; "e"]] = Ok s
    /\ (forall l : list field,
           RowList l ∈ [cells ["t"]; cells ["a"; "b"]; cells ["c"; "d"; "e"]] ->
           length l <> 1%nat -> (length l <= curr_max_num_cols s)%nat)
    /\ (curr_max_num_cols s = 0%nat
        \/ exists l : list field,
             RowList l ∈ [cells ["t"]; cells ["a"; "b"]; cells ["c"; "d"; "e"]]
             /\ length l <> 1%nat /\ length l = curr_max_num_cols s).
Proof.
  apply (scan_column_count_is_the_largest_field_count
           [cells ["t"]; cells ["a"; "b"]; cells ["c"; "d"; "e"]]).
  repeat constructor; eexists; reflexivity.
Defined.

(** X5. On a table of list rows the scan never drops, reorders or rewrites
    a field: each row ends as the row the caller passed, possibly with
    [None] replaced by the empty string, followed by empty strings only;
    and a row that grew has at least 2 and at most [curr_max_num_cols]
    fields. *)
Theorem scan_only_appends_empty_strings :
  forall rows : list row,
    Forall is_list rows ->
    exists s : scan_state,
      scan rows = Ok s
      /\ Forall2
           (fun ro rc : row =>
              exists lo lc : list field,
                ro = RowList lo /\ rc = RowList lc
                /\ (exists k : nat,
                      lc = lo ++ replicate k (FStr EmptyString)
                      \/ lc = none_to_empty lo
                              ++ replicate k (FStr EmptyString))
                /\ (length lc = length lo
                    \/ (2 <= length lc <= curr_max_num_cols s)%nat))
           rows (list_of_lists_of_strings s).
Proof.
  intros rows Hlist.
  destruct (scan_tracked rows Hlist) as (s & Hscan & HF & _ & _).
  exists s. split; [exact Hscan | exact HF].
Qed.

Lemma scan_only_appends_empty_strings_witness :
  exists s : scan_state,
    scan [RowList [FNone; FStr "b"; FInt 3]; RowList [FNone]; cells ["d"; "e"]]
    = Ok s
    /\ Forall2
         (fun ro rc : row =>
            exists lo lc : list field,
              ro = RowList lo /\ rc = RowList lc
              /\ (exists k : nat,
                    lc = lo ++ replicate k (FStr EmptyString)
                    \/ lc = none_to_empty lo
                            ++ replicate k (FStr EmptyString))
              /\ (length lc = length lo
                  \/ (2 <= length lc <= curr_max_num_cols s)%nat))
         [RowList [FNone; FStr "b"; FInt 3]; RowList [FNone]; cells ["d"; "e"]]
         (list_of_lists_of_strings s).
Proof.
  apply (scan_only_appends_empty_strings
           [RowList [FNone; FStr "b"; FInt 3]; RowList [FNone];
            cells ["d"; "e"]]).
  repeat constructor; eexists; reflexivity.
Defined.


(** ** The widths are the column maxima *)

Lemma column_cell_length_cons (r : row) (rows : list row) (j w : nat) :
  column_cell_length rows j w -> column_cell_length (r :: rows) j w.
Proof.
  intros (l & f & Hin & H). exists l, f. split; [| exact H].
  now apply list_elem_of_further.
Qed.

Lemma width_rows_attained (c cm : nat) (rows : list row) :
  Forall (row_ok c) rows ->
  (existsb aligned_row rows = true -> cm = c) ->
  forall (ws : list nat) (A : nat -> nat -> Prop) rows' ws',
    ws = [] \/ length ws = c ->
    (forall j w, ws !! j = Some w -> A j w) ->
    width_rows cm rows ws = Ok (rows', ws') ->
    forall j w, ws' !! j = Some w -> A j w \/ column_cell_length rows j w.
Proof.
  induction rows as [|r rows IH]; intros Hok Hcm ws A rows' ws' Hws HA Hrun j w Hj.
  - injection Hrun as _ <-. left. now apply HA.
  - inversion Hok as [|r0 rows0 Hr Hrows]; subst.
    destruct Hr as (l & -> & Hl).
    cbn [width_rows width_row existsb aligned_row] in *.
    destruct (length l =? 1)%nat eqn:E1.
    + rewrite bind_Ok in Hrun. cbn beta iota in Hrun.
      destruct (width_rows cm rows ws) as [[rest ws2]|] eqn:E; [| discriminate].
      rewrite bind_Ok in Hrun. injection Hrun as _ <-.
      destruct (IH Hrows Hcm ws A rest ws2 Hws HA E j w Hj) as [H | H];
        [now left | right; now apply column_cell_length_cons].
    + apply Nat.eqb_neq in E1.
      assert (Hc : length l = c) by (destruct Hl; [contradiction | assumption]).
      assert (cm = c) by (apply Hcm; reflexivity). subst cm.
      assert (Hcells : exists ws1,
        width_cells (seq 0 c) (l, ws) = Ok (strs l, ws1)
        /\ length ws1 = c
        /\ forall j w, ws1 !! j = Some w ->
             A j w \/ column_cell_length (RowList l :: rows) j w).
      { assert (Hmine : forall j n, lens l !! j = Some n ->
                  column_cell_length (RowList l :: rows) j n).
        { intros j0 n Hn. unfold lens in Hn.
          change (map ?g l) with (g <$> l) in Hn.
          rewrite list_lookup_fmap in Hn.
          destruct (l !! j0) as [f|] eqn:Hf; [| discriminate].
          injection Hn as <-. exists l, f.
          split; [apply list_elem_of_here | auto]. }
        destruct Hws as [-> | Hws].
        - exists (lens l). rewrite width_cells_first by (simpl; lia).
          simpl. split; [reflexivity |]. split.
          + unfold lens. now rewrite length_map.
          + intros j0 n Hn. right. now apply Hmine.
        - exists (zip_with Nat.max ws (lens l)).
          rewrite width_cells_next by (simpl; lia).
          simpl. split; [reflexivity |]. split.
          + rewrite length_zip_with_l_eq; [lia |].
            unfold lens. rewrite length_map. lia.
          + intros j0 n Hn. apply lookup_zip_with_Some in Hn.
            destruct Hn as (w0 & n0 & -> & Hw0 & Hn0).
            destruct (Nat.max_spec w0 n0) as [[_ ->] | [_ ->]];
              [right; now apply Hmine | left; now apply HA]. }
      destruct Hcells as (ws1 & Hrun1 & Hlen1 & HA1).
      rewrite Hrun1 in Hrun.
      repeat (rewrite bind_Ok in Hrun; cbn beta iota in Hrun).
      destruct (width_rows c rows ws1) as [[rest ws2]|] eqn:E; [| discriminate].
      rewrite bind_Ok in Hrun. injection Hrun as _ <-.
      destruct (IH Hrows (fun _ => eq_refl) ws1
                  (fun j w => A j w \/ column_cell_length (RowList l :: rows) j w)
                  rest ws2 (or_intror Hlen1) HA1 E j w Hj) as [H | H];
        [exact H | right; now apply column_cell_length_cons].
Qed.

(** X6. In a table whose aligned rows all have [c] fields, the width of
    each column is the length of the longest cell text of that column over
    the aligned rows (after [None] became the empty string and the other
    cells went through [str]): it bounds every such cell and one of them has
    exactly that length. One-field rows do not count. *)
Theorem widths_are_the_column_maxima :
  forall (c : nat) (rows : list row),
    Forall (row_ok c) rows ->
    exists (s : scan_state) (rows' : list row) (ws : list nat),
      scan rows = Ok s
      /\ width_rows (curr_max_num_cols s) (list_of_lists_of_strings s) []
         = Ok (rows', ws)
      /\ length ws = curr_max_num_cols s
      /\ forall (j w : nat),
           ws !! j = Some w ->
           (forall l : list field,
               RowList l ∈ list_of_lists_of_strings s ->
               length l <> 1%nat ->
               exists f : field,
                 l !! j = Some f /\ (String.length (str f) <= w)%nat)
           /\ column_cell_length (list_of_lists_of_strings s) j w.
Proof.
  intros c rows Hok.
  destruct (uniform_phases c rows Hok) as (ws & Hscan & Hwidth & Hlen & Hcov).
  exists (ScanState (map scanned rows) (columns c rows) 0),
         (map stringed (map scanned rows)), ws.
  cbn [curr_max_num_cols list_of_lists_of_strings].
  split; [exact Hscan |]. split; [exact Hwidth |]. split; [exact Hlen |].
  intros j w Hj. split.
  - intros l Hin Hne. rewrite Forall_forall in Hcov.
    destruct (Hcov _ Hin) as (l0 & [= <-] & Hc).
    specialize (Hc Hne).
    destruct (Forall2_lookup_r _ _ _ _ _ Hc Hj) as (f & Hf & Hle). eauto.
  - assert (Hok' : Forall (row_ok c) (map scanned rows)).
    { apply Forall_fmap. eapply Forall_impl; [exact Hok |].
      intros r Hr. apply row_ok_scanned. exact Hr. }
    destruct (width_rows_attained c (columns c rows) (map scanned rows) Hok')
      with (ws := @nil nat) (A := fun _ _ : nat => False)
           (rows' := map stringed (map scanned rows)) (ws' := ws)
           (j := j) (w := w) as [[] | H]; auto.
    + rewrite existsb_aligned_scanned. unfold columns. now intros ->.
    + intros j0 w0 H0. discriminate H0.
Qed.

Lemma widths_are_the_column_maxima_witness :
  exists (s : scan_state) (rows' : list row) (ws : list nat),
    scan [RowList [FNone; FStr "bb"]; cells ["title"]; RowList [FInt 123; FStr "c"]]
    = Ok s
    /\ width_rows (curr_max_num_cols s) (list_of_lists_of_strings s) []
       = Ok (rows', ws)
    /\ length ws = curr_max_num_cols s
    /\ forall (j w : nat),
         ws !! j = Some w ->
         (forall l : list field,
             RowList l ∈ list_of_lists_of_strings s ->
             length l <> 1%nat ->
             exists f : field,
               l !! j = Some f /\ (String.length (str f) <= w)%nat)
         /\ column_cell_length (list_of_lists_of_strings s) j w.
Proof.
  apply (widths_are_the_column_maxima 2%nat
           [RowList [FNone; FStr "bb"]; cells ["title"];
            RowList [FInt 123; FStr "c"]]).
  repeat (constructor; [eexists; split; [reflexivity | simpl; auto] |]).
  constructor.
Defined.


(** ** The text of an aligned line *)

Lemma append_assoc (a b d : string) : (a +:+ b) +:+ d = a +:+ (b +:+ d).
Proof.
  induction a as [|c a IH]; [reflexivity |].
  change (String c ((a +:+ b) +:+ d) = String c (a +:+ (b +:+ d))).
  now rewrite IH.
Qed.

Lemma append_empty_r (a : string) : a +:+ EmptyString = a.
Proof.
  induction a as [|c a IH]; [reflexivity |].
  change (String c (a +:+ EmptyString) = String c a). now rewrite IH.
Qed.

Lemma append_nonempty (a b : string) :
  a <> EmptyString -> a +:+ b <> EmptyString.
Proof. destruct a; [contradiction | discriminate]. Qed.

(** Gluing cells one after the other is joining them with one blank, as
    soon as the first cell is not empty. *)
Lemma fold_glue_nonempty (cs : list string) :
  forall line : string,
    line <> EmptyString ->
    fold_left glue cs line = line +:+ blank_joined cs.
Proof.
  induction cs as [|c cs IH]; intros line Hne.
  - simpl. now rewrite append_empty_r.
  - cbn [fold_left blank_joined].
    assert (Hglue : glue line c = line +:+ " " +:+ c).
    { unfold glue.
      destruct (String.eqb_spec line EmptyString); [contradiction |].
      apply append_assoc. }
    rewrite IH.
    + rewrite Hglue. now rewrite !append_assoc.
    + rewrite Hglue. now apply append_nonempty.
Qed.

Lemma concat_blank_cons (c : string) (cs : list string) :
  String.concat " " (c :: cs) = c +:+ blank_joined cs.
Proof.
  revert c. induction cs as [|d cs IH]; intros c.
  - simpl. now rewrite append_empty_r.
  - change (String.concat " " (c :: d :: cs))
      with (c +:+ " " +:+ String.concat " " (d :: cs)).
    rewrite IH. reflexivity.
Qed.

Lemma fold_glue_concat (c : string) (cs : list string) :
  c <> EmptyString ->
  fold_left glue (c :: cs) EmptyString = String.concat " " (c :: cs).
Proof.
  intros Hne.
  change (fold_left glue (c :: cs) EmptyString) with (fold_left glue cs c).
  rewrite fold_glue_nonempty by exact Hne.
  now rewrite concat_blank_cons.
Qed.

Lemma justified_nonempty (tok s : string) (w : nat) :
  is_LR tok -> justified tok s w <> EmptyString.
Proof.
  intros Htok Hempty.
  assert (Hlen : String.length (justified tok s w) = 0%nat)
    by now rewrite Hempty.
  unfold justified, ljust, rjust in Hlen.
  destruct Htok as [H | H]; rewrite H in Hlen;
    rewrite length_append, length_spaces in Hlen; lia.
Qed.

Lemma py_index_carried (jl : list string) (k : nat) :
  jl <> [] ->
  py_index jl (next_justify jl (Z.of_nat (Nat.min k (length jl)) - 1))
  = Some (carried jl k)
  /\ next_justify jl (Z.of_nat (Nat.min k (length jl)) - 1)
     = Z.of_nat (Nat.min (S k) (length jl)) - 1.
Proof.
  intros Hne.
  assert (Hlen : (0 < length jl)%nat) by (destruct jl; [contradiction | simpl; lia]).
  assert (Hnext : next_justify jl (Z.of_nat (Nat.min k (length jl)) - 1)
                  = Z.of_nat (Nat.min k (length jl - 1))).
  { unfold next_justify.
    destruct (Z.of_nat (Nat.min k (length jl)) - 1 <? Z.of_nat (length jl) - 1)
      eqn:E; [apply Z.ltb_lt in E | apply Z.ltb_ge in E]; lia. }
  rewrite Hnext. split; [| lia].
  rewrite py_index_nonneg by lia. rewrite Nat2Z.id.
  unfold carried.
  destruct (nth_lookup_or_length jl (Nat.min k (length jl - 1)) EmptyString)
    as [H | H]; [exact H | lia].
Qed.

Lemma render_loop_LR_cells (ss : list string) (ws : list nat)
    (jl : list string) :
  Forall is_LR jl -> jl <> [] -> length ss = length ws ->
  forall (n k : nat) (line : string) (fuel : nat),
    length ws = (k + n)%nat -> (n < fuel)%nat ->
    render_loop fuel (RowList (map FStr ss)) ws jl line
      (Z.of_nat (Nat.min k (length jl)) - 1) (Z.of_nat k - 1)
    = Ok (fold_left glue (cells_from jl k (drop k ss) (drop k ws)) line).
Proof.
  intros HLR Hne Hlen n.
  induction n as [|n IH]; intros k line fuel Hk Hfuel;
    (destruct fuel as [|fuel]; [lia |]).
  - rewrite render_loop_break by lia.
    rewrite !drop_ge by lia. reflexivity.
  - rewrite render_loop_step by lia. cbv zeta.
    fold (next_justify jl (Z.of_nat (Nat.min k (length jl)) - 1)).
    destruct (py_index_carried jl k Hne) as [-> Hnext]. rewrite Hnext.
    assert (Htok : is_LR (carried jl k)).
    { rewrite Forall_forall in HLR. apply HLR.
      unfold carried. apply list_elem_of_In, nth_In.
      destruct jl; [contradiction | simpl; lia]. }
    destruct (lookup_lt_is_Some_2 ws k) as [w Hw]; [lia |].
    destruct (lookup_lt_is_Some_2 ss k) as [t Ht]; [lia |].
    replace (Z.of_nat k - 1 + 1) with (Z.of_nat k) by lia.
    assert (Hfield : row_field (RowList (map FStr ss)) (Z.of_nat k) = Ok t).
    { unfold row_field. rewrite py_index_nonneg by lia.
      rewrite Nat2Z.id. change (map FStr ss) with (FStr <$> ss).
      now rewrite list_lookup_fmap, Ht. }
    assert (Hwidth : col_width ws (Z.of_nat k) = Ok w).
    { unfold col_width. rewrite py_index_nonneg by lia.
      now rewrite Nat2Z.id, Hw. }
    rewrite Hfield, Hwidth.
    rewrite (drop_S _ _ _ Hw), (drop_S _ _ _ Ht).
    cbn [cells_from fold_left].
    replace (Z.of_nat k) with (Z.of_nat (S k) - 1) by lia.
    unfold glue at 2, justified.
    destruct Htok as [H | H]; rewrite H; run_binds; apply IH; lia.
Qed.

Lemma render_loop_LR_text (ss : list string)
    (ws : list nat) (jl : list string) (fuel : nat) :
  Forall is_LR jl -> jl <> [] ->
  length ss = length ws -> (length ws < fuel)%nat ->
  render_loop fuel (RowList (map FStr ss)) ws jl EmptyString (-1) (-1)
  = Ok (String.concat " " (cells_from jl 0 ss ws)).
Proof.
  intros HLR Hne Hlen Hfuel.
  pose proof (render_loop_LR_cells ss ws jl HLR Hne Hlen (length ws) 0
                EmptyString fuel eq_refl Hfuel) as H.
  change (Z.of_nat (Nat.min 0 (length jl)) - 1) with (-1) in H.
  change (Z.of_nat 0 - 1) with (-1) in H.
  rewrite !drop_0 in H. rewrite H. f_equal.
  destruct ss as [|t ss], ws as [|w ws]; try discriminate; [reflexivity |].
  cbn [cells_from]. apply fold_glue_concat, justified_nonempty.
  rewrite Forall_forall in HLR. apply HLR.
  unfold carried. apply list_elem_of_In, nth_In.
  destruct jl; [contradiction | simpl; lia].
Qed.

(** X7. When every token is [L] or [R], the aligned line of a row is its
    cells joined by one blank, the cell of column [k] justified to its width
    plus one by the token at [k], or by the last token when the list has
    fewer than [k + 1] tokens: the last justification is carried forward by
    the loop itself (lines 291-292). *)
Theorem aligned_line_is_the_justified_cells :
  forall (ss : list string) (ws : list nat) (jl : list string) (fuel : nat),
    Forall is_LR jl -> jl <> [] ->
    length ss = length ws -> (length ws < fuel)%nat ->
    render_loop fuel (RowList (map FStr ss)) ws jl EmptyString (-1) (-1)
    = Ok (String.concat " " (cells_from jl 0 ss ws)).
Proof.
  intros ss ws jl fuel HLR Hne Hlen Hfuel.
  pose proof (render_loop_LR_cells ss ws jl HLR Hne Hlen (length ws) 0
                EmptyString fuel eq_refl Hfuel) as H.
  change (Z.of_nat (Nat.min 0 (length jl)) - 1) with (-1) in H.
  change (Z.of_nat 0 - 1) with (-1) in H.
  rewrite !drop_0 in H. rewrite H. f_equal.
  destruct ss as [|t ss], ws as [|w ws]; try discriminate; [reflexivity |].
  cbn [cells_from]. apply fold_glue_concat, justified_nonempty.
  rewrite Forall_forall in HLR. apply HLR.
  unfold carried. apply list_elem_of_In, nth_In.
  destruct jl; [contradiction | simpl; lia].
Qed.

Lemma aligned_line_is_the_justified_cells_witness :
  render_loop 4 (RowList (map FStr ["a"; "bb"; "c"])) [2; 2; 1]%nat ["L"; "R"]
    EmptyString (-1) (-1)
  = Ok (String.concat " " (cells_from ["L"; "R"] 0 ["a"; "bb"; "c"] [2; 2; 1]%nat)).
Proof.
  apply (aligned_line_is_the_justified_cells ["a"; "bb"; "c"] [2; 2; 1]%nat
           ["L"; "R"] 4).
  - constructor; [left; reflexivity |].
    constructor; [right; reflexivity | constructor].
  - discriminate.
  - reflexivity.
  - simpl. lia.
Defined.


(** ** A whole run with [L] and [R] tokens *)

Lemma cells_from_ext (jl jl' : list string) :
  (forall k, carried jl k = carried jl' k) ->
  forall (ss : list string) (ws : list nat) (k : nat),
    cells_from jl k ss ws = cells_from jl' k ss ws.
Proof.
  intros H ss. induction ss as [|t ss IH]; intros ws k; [reflexivity |].
  destruct ws as [|w ws]; [reflexivity |].
  cbn [cells_from]. now rewrite H, IH.
Qed.

(** The padding of lines 246-247 gives no column another token than the
    loop's own carry-forward does. *)
Lemma pad_justify_carried (jl0 jl : list string) (cmax : nat) :
  jl0 <> [] -> pad_justify jl0 cmax = Ok jl ->
  (forall k, carried jl k = carried jl0 k)
  /\ (forall P : string -> Prop, Forall P jl0 -> Forall P jl)
  /\ jl <> [].
Proof.
  intros Hne. unfold pad_justify.
  destruct (length jl0 <? cmax)%nat eqn:E.
  2: { intros [= <-]. auto. }
  apply Nat.ltb_lt in E. rewrite py_index_minus_one.
  destruct (last jl0) as [tok|] eqn:Hlast; [| discriminate].
  intros [= <-].
  assert (Hlen0 : (0 < length jl0)%nat)
    by (destruct jl0; [contradiction | simpl; lia]).
  assert (Htok : jl0 !! (length jl0 - 1)%nat = Some tok).
  { rewrite last_lookup in Hlast.
    now replace (length jl0 - 1)%nat with (Nat.pred (length jl0)) by lia. }
  split; [| split].
  - intros k. unfold carried.
    rewrite length_app, length_replicate.
    replace (length jl0 + (cmax - length jl0) - 1)%nat with (cmax - 1)%nat
      by lia.
    destruct (le_lt_dec (length jl0) k) as [Hge | Hlt].
    + replace (Nat.min k (length jl0 - 1)) with (length jl0 - 1)%nat by lia.
      rewrite (nth_lookup_Some _ _ _ _ Htok).
      apply nth_lookup_Some.
      rewrite lookup_app_r by lia.
      apply lookup_replicate_2. lia.
    + replace (Nat.min k (cmax - 1)) with k by lia.
      replace (Nat.min k (length jl0 - 1)) with k by lia.
      rewrite !nth_lookup. now rewrite lookup_app_l by lia.
  - intros P HP. apply Forall_app. split; [exact HP |].
    apply Forall_replicate. rewrite Forall_forall in HP. apply HP.
    apply list_elem_of_lookup. eauto.
  - destruct jl0; [contradiction | discriminate].
Qed.

Lemma render_rows_LR_text (ws : list nat) (jl : list string) (fuel : nat)
    (rows : list row) :
  Forall is_LR jl -> jl <> [] -> (length ws < fuel)%nat ->
  Forall (fun r => exists l, r = RowList l
                             /\ (length l <> 1%nat -> length l = length ws))
         rows ->
  exists lines,
    render_rows fuel ws jl (map stringed rows) = Ok lines
    /\ Forall2 (rendered jl ws) rows lines.
Proof.
  intros HLR Hne Hfuel Hrows.
  induction Hrows as [|r rows (l & -> & Hlen) Hrows IH].
  - exists []. split; [reflexivity | constructor].
  - destruct IH as (lines & Hrun & Hem).
    cbn [map render_rows stringed].
    destruct (length l =? 1)%nat eqn:E1.
    + apply Nat.eqb_eq in E1.
      destruct l as [|f [|g l]]; try discriminate.
      exists (f :: lines). cbn [render_row]. run_binds. rewrite Hrun. run_binds.
      split; [reflexivity |]. constructor; [reflexivity | exact Hem].
    + apply Nat.eqb_neq in E1. specialize (Hlen E1).
      assert (Hmap : map (fun f => FStr (str f)) l = map FStr (map str l))
        by now rewrite map_map.
      assert (Hloop :
        render_loop fuel (RowList (map (fun f => FStr (str f)) l)) ws jl
          EmptyString (-1) (-1)
        = Ok (String.concat " " (cells_from jl 0 (map str l) ws))).
      { rewrite Hmap. apply render_loop_LR_text; auto.
        now rewrite length_map. }
      eexists (FStr _ :: lines).
      assert (Hrow :
        render_row fuel ws jl (RowList (map (fun f => FStr (str f)) l))
        = Ok (FStr (String.concat " " (cells_from jl 0 (map str l) ws)))).
      { unfold render_row.
        destruct (map (fun f => FStr (str f)) l) as [|f [|g l']] eqn:Es.
        - rewrite Hloop. reflexivity.
        - exfalso. apply E1.
          rewrite <- (length_map (fun f => FStr (str f))), Es. reflexivity.
        - rewrite Hloop. reflexivity. }
      rewrite Hrow. run_binds. rewrite Hrun. run_binds.
      split; [reflexivity |]. constructor; [| exact Hem].
      unfold rendered. apply Nat.eqb_neq in E1. now rewrite E1.
Qed.


(** X8. A whole run on a table whose aligned rows all have [c] fields, with
    a justification made of [L] and [R] tokens only: the call returns status
    0, and the line of every aligned row is its cells ([None] as the empty
    string, the others through [str]) joined by one blank, column [k]
    justified to its width plus one by the token at [k] of the
    justification as it was written, or by its last token beyond. *)
Theorem uniform_table_is_rendered_cell_by_cell :
  forall (c : nat) (input_data rows : list row) (justify_cols : string)
         (fuel : nat),
    resolve_input input_data = Ok rows ->
    rows <> [] ->
    Forall (row_ok c) rows ->
    Forall is_LR (split comma justify_cols) ->
    (c < fuel)%nat ->
    exists (s : scan_state) (rows' : list row) (ws : list nat)
           (lines : list field) (data : list row),
      scan rows = Ok s
      /\ width_rows (curr_max_num_cols s) (list_of_lists_of_strings s) []
         = Ok (rows', ws)
      /\ columnize_output fuel input_data justify_cols = Return 0 lines data
      /\ forall (i : nat) (l : list field),
           rows !! i = Some (RowList l) -> length l <> 1%nat ->
           lines !! i
           = Some (FStr (String.concat " "
                           (cells_from (split comma justify_cols) 0
                              (map str (none_to_empty l)) ws))).
Proof.
  intros c input_data rows justify_cols fuel Hres Hne Hok HLR0 Hfuel.
  destruct (uniform_phases c rows Hok) as (ws & Hscan & Hwidth & Hlen & Hcov).
  destruct (pad_justify_split_ok justify_cols (columns c rows)) as [jl Hpad].
  destruct (pad_justify_carried _ _ _ (split_nonempty _ _) Hpad)
    as (Hcar & HP & Hjl).
  pose proof (HP _ HLR0) as HLR.
  assert (Hfuel' : (length ws < fuel)%nat).
  { rewrite Hlen. unfold columns. destruct (existsb aligned_row rows); lia. }
  destruct (render_rows_LR_text ws jl fuel (map scanned rows) HLR Hjl Hfuel')
    as (lines & Hrender & Hem).
  { eapply Forall_impl; [exact Hcov |].
    intros r (l & -> & Hc). exists l. split; [reflexivity |].
    intros Hl. apply (Forall2_length _ _ _ (Hc Hl)). }
  exists (ScanState (map scanned rows) (columns c rows) 0),
         (map stringed (map scanned rows)), ws, lines.
  eexists. cbn [curr_max_num_cols list_of_lists_of_strings].
  split; [exact Hscan |]. split; [exact Hwidth |]. split.
  - unfold columnize_output. rewrite Hres. run_binds.
    destruct rows as [|r0 rows0]; [contradiction |].
    cbn [length Nat.eqb]. rewrite Hscan. run_binds.
    cbn [curr_max_num_cols list_of_lists_of_strings rc].
    rewrite Hpad. run_binds. rewrite Hwidth. run_binds.
    rewrite Hrender. run_binds. reflexivity.
  - intros i l Hi Hl.
    assert (Hs : map scanned rows !! i = Some (RowList (none_to_empty l))).
    { change (map scanned rows) with (scanned <$> rows).
      rewrite list_lookup_fmap, Hi. simpl.
      apply Nat.eqb_neq in Hl. now rewrite Hl. }
    destruct (Forall2_lookup_l _ _ _ _ _ Hem Hs) as (out & Hout & He).
    unfold rendered in He. rewrite length_none_to_empty in He.
    apply Nat.eqb_neq in Hl. rewrite Hl in He. subst out.
    rewrite Hout. do 3 f_equal. apply cells_from_ext. exact Hcar.
Qed.

Lemma uniform_table_is_rendered_cell_by_cell_witness :
  exists (s : scan_state) (rows' : list row) (ws : list nat)
         (lines : list field) (data : list row),
    scan [RowList [FNone; FStr "bb"; FInt 7]; cells ["title"]] = Ok s
    /\ width_rows (curr_max_num_cols s) (list_of_lists_of_strings s) []
       = Ok (rows', ws)
    /\ columnize_output 4 [RowList [FNone; FStr "bb"; FInt 7]; cells ["title"]]
         "R,L"
       = Return 0 lines data
    /\ forall (i : nat) (l : list field),
         [RowList [FNone; FStr "bb"; FInt 7]; cells ["title"]] !! i
           = Some (RowList l) ->
         length l <> 1%nat ->
         lines !! i
         = Some (FStr (String.concat " "
                         (cells_from (split comma "R,L") 0
                            (map str (none_to_empty l)) ws))).
Proof.
  apply (uniform_table_is_rendered_cell_by_cell 3%nat
           [RowList [FNone; FStr "bb"; FInt 7]; cells ["title"]]
           [RowList [FNone; FStr "bb"; FInt 7]; cells ["title"]] "R,L" 4).
  - reflexivity.
  - discriminate.
  - repeat (constructor; [eexists; split; [reflexivity | simpl; auto] |]).
    constructor.
  - constructor; [right; reflexivity |].
    constructor; [left; reflexivity | constructor].
  - lia.
Defined.

(** ** Plain fields go through the csv reader unchanged *)

Lemma append_cons (c : ascii) (s t : string) :
  String c s +:+ t = String c (s +:+ t).
Proof. reflexivity. Qed.

Lemma plain_char_cases (c : ascii) :
  plain_char c = true ->
  Ascii.eqb c comma = false /\ Ascii.eqb c dquote = false
  /\ Csv.is_newline c = false.
Proof.
  unfold plain_char, Csv.is_newline.
  destruct (Ascii.eqb c comma), (Ascii.eqb c dquote), (Ascii.eqb c LF),
    (Ascii.eqb c CR); simpl; intros H; try discriminate; auto.
Qed.

Lemma parse_add_char_ok (r : Csv.reader) (c : ascii) :
  Z.of_nat (String.length (Csv.cur r)) < Csv.field_limit ->
  Csv.parse_add_char r c
  = Some (Csv.Reader (Csv.st r) (Csv.fields r)
            (Csv.cur r +:+ String c EmptyString)).
Proof.
  intros H. unfold Csv.parse_add_char.
  destruct (Csv.field_limit <=? Z.of_nat (String.length (Csv.cur r))) eqn:E;
    [apply Z.leb_le in E; lia | reflexivity].
Qed.

(** Inside an unquoted field, plain characters are added one by one. *)
Lemma parse_line_in_field (f : string) :
  forall (fs : list string) (cur tail : string),
    plain_chars f = true ->
    Z.of_nat (String.length cur + String.length f) <= Csv.field_limit ->
    Csv.parse_line (Csv.Reader Csv.IN_FIELD fs cur) (f +:+ tail)
    = Csv.parse_line (Csv.Reader Csv.IN_FIELD fs (cur +:+ f)) tail.
Proof.
  induction f as [|c f IH]; intros fs cur tail Hplain Hlen.
  - now rewrite append_empty_r.
  - simpl in Hplain. apply andb_prop in Hplain. destruct Hplain as [Hc Hf].
    destruct (plain_char_cases c Hc) as (Hcomma & _ & Hnl).
    rewrite append_cons. cbn [Csv.parse_line].
    unfold Csv.parse_process_char. cbn [Csv.st]. rewrite Hnl, Hcomma.
    rewrite parse_add_char_ok by (cbn [Csv.cur]; simpl in Hlen; lia).
    cbn [Csv.st Csv.fields Csv.cur].
    rewrite IH; [| exact Hf |].
    + now rewrite append_assoc.
    + rewrite length_append. simpl in *. lia.
Qed.

(** A plain field that is not empty, read from the start of a field. *)
Lemma parse_line_start_field (c : ascii) (f : string) (fs : list string)
    (tail : string) :
  plain (String c f) = true ->
  Csv.parse_line (Csv.Reader Csv.START_FIELD fs EmptyString)
    (String c f +:+ tail)
  = Csv.parse_line (Csv.Reader Csv.IN_FIELD fs (String c f)) tail.
Proof.
  unfold plain. intros H.
  apply andb_prop in H. destruct H as [H Hlim].
  apply andb_prop in H. destruct H as [Hplain Hsp].
  apply Z.leb_le in Hlim.
  pose proof Hplain as Hplain'.
  simpl in Hplain. apply andb_prop in Hplain. destruct Hplain as [Hc Hf].
  destruct (plain_char_cases c Hc) as (Hcomma & Hdq & Hnl).
  assert (Hspace : Ascii.eqb c space = false).
  { cbn [String.prefix] in Hsp.
    destruct (ascii_dec " " c) as [<- | Hne].
    - destruct f; discriminate Hsp.
    - apply Ascii.eqb_neq. intros ->. now apply Hne. }
  rewrite append_cons. cbn [Csv.parse_line].
  unfold Csv.parse_process_char. cbn [Csv.st].
  rewrite Hnl, Hdq, Hspace, Hcomma.
  unfold Csv.set_state. cbn [Csv.fields Csv.cur].
  rewrite parse_add_char_ok
    by (cbn [Csv.cur]; unfold Csv.field_limit; simpl; lia).
  cbn [Csv.st Csv.fields Csv.cur].
  change (EmptyString +:+ String c EmptyString) with (String c EmptyString).
  rewrite parse_line_in_field; [reflexivity | exact Hf |].
  simpl in *. lia.
Qed.

Lemma parse_line_comma_start (fs : list string) (rest : string) :
  Csv.parse_line (Csv.Reader Csv.START_FIELD fs EmptyString)
    (String comma rest)
  = Csv.parse_line
      (Csv.Reader Csv.START_FIELD (fs ++ [EmptyString]) EmptyString) rest.
Proof. reflexivity. Qed.

Lemma parse_line_comma_in_field (fs : list string) (cur rest : string) :
  Csv.parse_line (Csv.Reader Csv.IN_FIELD fs cur) (String comma rest)
  = Csv.parse_line (Csv.Reader Csv.START_FIELD (fs ++ [cur]) EmptyString) rest.
Proof. reflexivity. Qed.

(** The fields of a record, joined by commas, read from the start of a
    field. *)
Lemma parse_line_fields (ss : list string) :
  forall fs : list string,
    ss <> [] -> Forall (fun t => plain t = true) ss ->
    Csv.parse_line (Csv.Reader Csv.START_FIELD fs EmptyString)
      (String.concat "," ss)
    = Some (Csv.Reader Csv.START_RECORD (fs ++ ss) EmptyString).
Proof.
  induction ss as [|t ss IH]; intros fs Hne Hplain; [contradiction |].
  inversion Hplain as [|t0 ss0 Ht Hss]; subst.
  destruct ss as [|u ss].
  - (* the last field *)
    change (String.concat "," [t]) with t.
    destruct t as [|c t].
    + reflexivity.
    + rewrite <- (append_empty_r (String c t)) at 1.
      rewrite parse_line_start_field by exact Ht. reflexivity.
  - change (String.concat "," (t :: u :: ss))
      with (t +:+ String comma (String.concat "," (u :: ss))).
    destruct t as [|c t].
    + change (EmptyString +:+ String comma (String.concat "," (u :: ss)))
        with (String comma (String.concat "," (u :: ss))).
      rewrite parse_line_comma_start.
      rewrite IH by (auto; discriminate).
      now rewrite <- app_assoc.
    + rewrite parse_line_start_field by exact Ht.
      rewrite parse_line_comma_in_field.
      rewrite IH by (auto; discriminate).
      now rewrite <- app_assoc.
Qed.

Lemma parse_line_first_char (c : ascii) (rest : string) :
  Csv.is_newline c = false ->
  Csv.parse_line Csv.parse_reset (String c rest)
  = Csv.parse_line (Csv.Reader Csv.START_FIELD [] EmptyString) (String c rest).
Proof.
  intros Hnl. cbn [Csv.parse_line]. unfold Csv.parse_process_char.
  cbn [Csv.st Csv.parse_reset]. rewrite Hnl. reflexivity.
Qed.

Lemma plain_first_char (c : ascii) (t : string) :
  plain (String c t) = true -> Csv.is_newline c = false.
Proof.
  unfold plain. intros H.
  apply andb_prop in H. destruct H as [H _].
  apply andb_prop in H. destruct H as [H _].
  simpl in H. apply andb_prop in H. destruct H as [Hc _].
  now destruct (plain_char_cases c Hc) as (_ & _ & Hnl).
Qed.

(** The csv line of plain fields is read back as these fields. *)
Lemma reader_one_line_plain (ss : list string) :
  Forall (fun t => plain t = true) ss -> ss <> [EmptyString] ->
  Csv.reader_one_line (String.concat "," ss) = Some [ss].
Proof.
  intros Hplain Hne.
  destruct ss as [|t ss]; [reflexivity |].
  assert (Hrun :
    Csv.parse_line Csv.parse_reset (String.concat "," (t :: ss))
    = Some (Csv.Reader Csv.START_RECORD (t :: ss) EmptyString)).
  { assert (Hfirst : exists c rest,
              String.concat "," (t :: ss) = String c rest
              /\ Csv.is_newline c = false).
    { inversion Hplain as [|t0 ss0 Ht Hss]; subst.
      destruct ss as [|u ss].
      - change (String.concat "," [t]) with t.
        destruct t as [|c t]; [contradiction |].
        exists c, t. split; [reflexivity | now apply plain_first_char in Ht].
      - change (String.concat "," (t :: u :: ss))
          with (t +:+ String comma (String.concat "," (u :: ss))).
        destruct t as [|c t].
        + eexists _, _. split; reflexivity.
        + eexists c, _. split; [reflexivity |].
          now apply plain_first_char in Ht. }
    destruct Hfirst as (c & rest & Heq & Hnl).
    rewrite Heq, parse_line_first_char by exact Hnl.
    rewrite <- Heq. rewrite parse_line_fields; [reflexivity | discriminate | exact Hplain]. }
  unfold Csv.reader_one_line. rewrite Hrun. reflexivity.
Qed.

Lemma csv_entries_plain_row (l : list field) :
  plain_row (RowList l) ->
  csv_entries (RowStr (String.concat "," (map str l)))
  = Ok [as_strings (RowList l)].
Proof.
  intros (l0 & [= <-] & Hplain & Hne).
  unfold csv_entries. rewrite reader_one_line_plain by assumption.
  cbn [map as_strings]. now rewrite map_map.
Qed.

Lemma parse_rows_plain (rows : list row) :
  Forall plain_row rows ->
  forall acc : list row,
    exists lines : list string,
      dump_lines rows = Ok lines
      /\ parse_rows (map RowStr lines) acc = Ok (acc ++ map as_strings rows).
Proof.
  induction 1 as [|r rows Hr _ IH]; intros acc.
  - exists []. split; [reflexivity |]. simpl. now rewrite app_nil_r.
  - pose proof Hr as (l & -> & _).
    destruct (IH (acc ++ [as_strings (RowList l)])) as (lines & Hdump & Hparse).
    exists (String.concat "," (map str l) :: lines).
    cbn [dump_lines dump_line]. run_binds. rewrite Hdump. run_binds.
    split; [reflexivity |].
    cbn [map parse_rows]. rewrite csv_entries_plain_row by exact Hr.
    run_binds. rewrite Hparse. now rewrite <- app_assoc.
Qed.

Lemma write_csv_strings_text (lines : list string) :
  forall written : string,
    write_csv_strings (map RowStr lines) written
    = (written +:+ lines_text lines, None).
Proof.
  induction lines as [|l lines IH]; intros written.
  - simpl. now rewrite append_empty_r.
  - cbn [map write_csv_strings lines_text]. rewrite IH.
    now rewrite !append_assoc.
Qed.

Lemma dump_lines_length (rows : list row) :
  forall lines, dump_lines rows = Ok lines -> length lines = length rows.
Proof.
  induction rows as [|r rows IH]; intros lines H.
  - injection H as <-. reflexivity.
  - simpl in H. destruct (dump_line r); [| discriminate].
    rewrite bind_Ok in H.
    destruct (dump_lines rows) as [ls|]; [| discriminate].
    rewrite bind_Ok in H. injection H as <-. simpl. now rewrite (IH ls).
Qed.

(** X9. Saving and reading back. For a table of list rows whose cells need
    no quoting, [save_input_data_to_csv_file] writes one line per row, the
    cells joined by commas, and these lines, given to [columnize_output] as
    csv strings, resolve to the same table with every cell as its [str]. *)
Theorem saved_rows_are_read_back :
  forall (scriptName csv_filename : string) (rows : list row),
    rows <> [] ->
    Forall plain_row rows ->
    exists lines : list string,
      save_input_data_to_csv_file scriptName rows csv_filename
      = Saved (FileWrite (csv_file_name scriptName csv_filename)
                 (lines_text lines))
      /\ length lines = length rows
      /\ resolve_input (map RowStr lines) = Ok (map as_strings rows).
Proof.
  intros scriptName csv_filename rows Hne Hplain.
  destruct (parse_rows_plain rows Hplain []) as (lines & Hdump & Hparse).
  exists lines.
  pose proof (dump_lines_length _ _ Hdump) as Hlen.
  split; [| split; [exact Hlen |]].
  - destruct rows as [|r rows]; [contradiction |].
    inversion Hplain as [|r0 rows0 (l & -> & _) _]; subst.
    unfold save_input_data_to_csv_file. rewrite Hdump.
    now rewrite write_csv_strings_text.
  - destruct lines as [|l lines];
      [destruct rows; [contradiction | discriminate] |].
    exact Hparse.
Qed.

Lemma saved_rows_are_read_back_witness :
  exists lines : list string,
    save_input_data_to_csv_file "columnize_output.py"
      [RowList [FStr "a"; FInt 12]; RowList [FNone; FStr "x y"]] "out"
    = Saved (FileWrite (csv_file_name "columnize_output.py" "out")
               (lines_text lines))
    /\ length lines = 2%nat
    /\ resolve_input (map RowStr lines)
       = Ok (map as_strings
               [RowList [FStr "a"; FInt 12]; RowList [FNone; FStr "x y"]]).
Proof.
  apply (saved_rows_are_read_back "columnize_output.py" "out"
           [RowList [FStr "a"; FInt 12]; RowList [FNone; FStr "x y"]]).
  - discriminate.
  - constructor; [| constructor; [| constructor]].
    + exists [FStr "a"; FInt 12]. split; [reflexivity |].
      split; [| discriminate].
      constructor; [reflexivity |]. constructor; [reflexivity | constructor].
    + exists [FNone; FStr "x y"]. split; [reflexivity |].
      split; [| discriminate].
      constructor; [reflexivity |]. constructor; [reflexivity | constructor].
Defined.

(** ** The two files of a saving call *)

Lemma rev_string_append (a b : string) :
  rev_string (a +:+ b) = rev_string b +:+ rev_string a.
Proof.
  induction a as [|c a IH].
  - simpl. now rewrite append_empty_r.
  - rewrite append_cons. cbn [rev_string]. rewrite IH.
    now rewrite append_assoc.
Qed.

Lemma prefix_append (a b : string) : String.prefix a (a +:+ b) = true.
Proof.
  induction a as [|c a IH]; [now destruct b |].
  rewrite append_cons. cbn [String.prefix].
  destruct (ascii_dec c c) as [_ | Hne]; [exact IH | contradiction].
Qed.

Lemma search_ext_append (ext name : string) :
  search_ext ext (name +:+ ext) = true.
Proof.
  unfold search_ext, ends_with.
  rewrite rev_string_append, prefix_append. reflexivity.
Qed.

Lemma search_ext_csv_file_name (scriptName csv_filename : string) :
  search_ext ".csv" (csv_file_name scriptName csv_filename) = true.
Proof.
  unfold csv_file_name.
  destruct (String.eqb csv_filename EmptyString).
  - rewrite search_ext_append. apply search_ext_append.
  - destruct (search_ext ".csv" csv_filename) eqn:E;
      [exact E | apply search_ext_append].
Qed.

Lemma search_ext_txt_file_name (save_filename : string) :
  search_ext ".txt" (txt_file_name save_filename) = true.
Proof.
  unfold txt_file_name.
  destruct (search_ext ".txt" save_filename) eqn:E;
    [exact E | apply search_ext_append].
Qed.

Lemma search_ext_exclusive (name : string) :
  search_ext ".csv" name = true -> search_ext ".txt" name = false.
Proof.
  unfold search_ext, ends_with.
  change (rev_string ".csv") with "vsc.".
  change (rev_string ".txt") with "txt.".
  change (rev_string (".csv" +:+ String LF EmptyString))
    with (String LF "vsc.").
  change (rev_string (".txt" +:+ String LF EmptyString))
    with (String LF "txt.").
  intros H.
  destruct (rev_string name) as [|c1 r]; [discriminate H |].
  cbn [String.prefix] in *.
  destruct (ascii_dec "v" c1) as [<- | Hv].
  - destruct (ascii_dec "t" "v") as [E | _]; [discriminate E |].
    destruct (ascii_dec LF "v") as [E | _]; [discriminate E |].
    reflexivity.
  - destruct (ascii_dec LF c1) as [<- | Hn]; [| discriminate H].
    destruct (ascii_dec "t" LF) as [E | _]; [discriminate E |].
    destruct r as [|c2 r]; [discriminate H |].
    cbn [String.prefix orb] in *.
    destruct (ascii_dec "v" c2) as [<- | Hv2]; [| discriminate H].
    destruct (ascii_dec "t" "v") as [E | _]; [discriminate E |].
    reflexivity.
Qed.

(** X10. Whatever [save_filename] is, the file of the rendered lines is
    another file than the csv dump of the table: the first name ends in
    [.txt], the second in [.csv], so the output never overwrites the
    dump. *)
Theorem text_file_is_not_the_csv_file :
  forall scriptName save_filename : string,
    search_ext ".csv" (csv_file_name scriptName save_filename) = true
    /\ search_ext ".txt" (txt_file_name save_filename) = true
    /\ csv_file_name scriptName save_filename <> txt_file_name save_filename.
Proof.
  intros scriptName save_filename.
  pose proof (search_ext_csv_file_name scriptName save_filename) as Hcsv.
  pose proof (search_ext_txt_file_name save_filename) as Htxt.
  split; [exact Hcsv |]. split; [exact Htxt |].
  intros Heq. rewrite Heq in Hcsv.
  apply search_ext_exclusive in Hcsv. congruence.
Qed.

(** ** A saving call that follows a returning call *)

Lemma parse_rows_first_is_list (input_data : list row) :
  forall acc rows : list row,
    match acc with [] => True | r :: _ => is_list r end ->
    parse_rows input_data acc = Ok rows ->
    match rows with [] => True | r :: _ => is_list r end.
Proof.
  induction input_data as [|r input_data IH]; intros acc rows Hacc H.
  - injection H as <-. exact Hacc.
  - simpl in H. destruct (csv_entries r) as [es|] eqn:E; [| discriminate].
    rewrite bind_Ok in H. apply (IH _ _) in H; [exact H |].
    destruct acc as [|a acc]; [| exact Hacc].
    unfold csv_entries in E. destruct r as [t|l|z]; try discriminate.
    destruct (Csv.reader_one_line t) as [records|]; [| discriminate].
    injection E as <-. destruct records as [|e records]; simpl; [exact I |].
    now exists (map FStr e).
Qed.

Lemma resolve_input_first_is_list (input_data rows : list row) :
  resolve_input input_data = Ok rows ->
  match rows with [] => True | r :: _ => is_list r end.
Proof.
  unfold resolve_input. destruct input_data as [|[t|l|z] rest];
    try discriminate.
  - apply parse_rows_first_is_list. exact I.
  - intros [= <-]. now exists l.
  - intros [= <-]. exact I.
Qed.

Lemma scan_row_visits_no_int (index : nat) (s s' : scan_state) (z : Z) :
  scan_row index s = Ok s' ->
  list_of_lists_of_strings s !! index <> Some (RowInt z).
Proof.
  unfold scan_row. intros H E. rewrite E in H. discriminate.
Qed.

Lemma scan_from_visits_no_int (indices : list nat) :
  forall (s s' : scan_state) (i : nat) (z : Z),
    scan_from indices s = Ok s' -> In i indices ->
    list_of_lists_of_strings s !! i <> Some (RowInt z).
Proof.
  induction indices as [|j indices IH]; intros s s' i z H Hin;
    [destruct Hin |].
  simpl in H. destruct (scan_row j s) as [s1|] eqn:E; [| discriminate].
  rewrite bind_Ok in H. destruct Hin as [<- | Hin].
  - eapply scan_row_visits_no_int; eauto.
  - intros Hi.
    pose proof (scan_row_same_unless_list _ _ _ E) as Hsame.
    destruct (Forall2_lookup_l _ _ _ _ _ Hsame Hi) as (r' & Hi' & Hr).
    simpl in Hr. subst r'. exact (IH _ _ _ _ H Hin Hi').
Qed.

Lemma scan_dump_lines (rows : list row) (s : scan_state) :
  scan rows = Ok s ->
  exists dump : list string,
    dump_lines rows = Ok dump /\ length dump = length rows.
Proof.
  intros H.
  assert (Hno : Forall (fun r => forall z, r <> RowInt z) rows).
  { apply Forall_lookup. intros i r Hi z ->.
    apply (scan_from_visits_no_int _ _ _ i z H); [| exact Hi].
    apply in_seq. apply lookup_lt_Some in Hi. lia. }
  clear H. induction Hno as [|r rows Hr _ (dump & Hdump & Hlen)].
  - exists []. split; reflexivity.
  - destruct r as [t|l|z]; [| | now destruct (Hr z)].
    + eexists (_ :: dump). cbn [dump_lines dump_line]. run_binds.
      rewrite Hdump. run_binds. split; [reflexivity |].
      simpl. now rewrite Hlen.
    + eexists (_ :: dump). cbn [dump_lines dump_line]. run_binds.
      rewrite Hdump. run_binds. split; [reflexivity |].
      simpl. now rewrite Hlen.
Qed.

Lemma write_lines_text (texts : list string) :
  forall (rest : list field) (written : string),
    write_lines (map FStr texts ++ rest) written
    = write_lines rest (written +:+ lines_text texts).
Proof.
  induction texts as [|t texts IH]; intros rest written.
  - simpl. now rewrite append_empty_r.
  - cbn [map app write_lines lines_text]. rewrite IH.
    now rewrite !append_assoc.
Qed.

(** The default [save_filename = ''] skips both saving blocks. *)
Lemma columnize_output_saving_default (scriptName : string) (fuel : nat)
    (input_data : list row) (justify_cols : string) :
  columnize_output_saving scriptName fuel input_data justify_cols EmptyString
  = (columnize_output fuel input_data justify_cols, []).
Proof.
  unfold columnize_output_saving, columnize_output, render_table.
  destruct (resolve_input input_data) as [rows|o]; [| reflexivity].
  rewrite bind_Ok. destruct (length rows =? 0)%nat; [reflexivity |].
  cbn [String.eqb].
  destruct (scan rows) as [s|o]; [| reflexivity]. run_binds.
  destruct (pad_justify _ _) as [jl|o]; [| reflexivity]. run_binds.
  destruct (width_rows _ _ _) as [[rows' ws]|o]; [| reflexivity]. run_binds.
  destruct (render_rows fuel ws jl rows') as [out|o]; reflexivity.
Qed.

(** A returning call, repeated with a [save_filename]: the csv file holds
    one line per row, and the end is decided by the write of the lines. *)
Lemma columnize_output_saving_after_return (scriptName : string) (fuel : nat)
    (input_data : list row) (justify_cols save_filename : string)
    (status : Z) (lines : list field) (data : list row) :
  columnize_output fuel input_data justify_cols = Return status lines data ->
  save_filename <> EmptyString ->
  exists (rows : list row) (dump : list string),
    resolve_input input_data = Ok rows
    /\ dump_lines rows = Ok dump
    /\ length dump = length lines
    /\ columnize_output_saving scriptName fuel input_data justify_cols
         save_filename
       = let csv_file :=
           FileWrite (csv_file_name scriptName save_filename)
             (lines_text dump) in
         match write_lines lines EmptyString with
         | (content, None) =>
             (Return status lines data,
              [csv_file; FileWrite (txt_file_name save_filename) content])
         | (content, Some e) =>
             (Raise e,
              [csv_file; FileWrite (txt_file_name save_filename) content])
         end.
Proof.
  intros Hret Hsave.
  destruct (columnize_output_Return_inv _ _ _ _ _ _ Hret)
    as (rows & s & jl & rows' & ws & Hres & Hne & Hscan & Hjl & Hw & Hr
        & -> & ->).
  destruct (scan_dump_lines _ _ Hscan) as (dump & Hdump & Hlen).
  exists rows, dump. split; [exact Hres |]. split; [exact Hdump |]. split.
  { rewrite Hlen, (render_rows_length _ _ _ _ _ Hr).
    rewrite (width_rows_length _ _ _ _ _ Hw).
    symmetry. exact (proj1 (scan_from_shape _ _ _ Hscan)). }
  pose proof (resolve_input_first_is_list _ _ Hres) as Hfirst.
  destruct rows as [|r0 rows0]; [contradiction |].
  destruct Hfirst as [l0 ->].
  unfold columnize_output_saving. rewrite Hres. cbn [length Nat.eqb].
  apply String.eqb_neq in Hsave. rewrite Hsave.
  unfold save_input_data_to_csv_file. rewrite Hdump.
  rewrite write_csv_strings_text.
  change (EmptyString +:+ lines_text dump) with (lines_text dump).
  unfold render_table. rewrite Hscan. run_binds. rewrite Hjl. run_binds.
  rewrite Hw. run_binds. rewrite Hr. run_binds.
  cbn zeta. destruct (write_lines lines EmptyString) as [content [e|]];
    reflexivity.
Qed.

(** X11. Saving does not change the result. When a call returns and all its
    lines are strs, the same call with a [save_filename] returns the same
    status, lines and data, and writes two files, in this order: the csv
    file with one comma-joined line per resolved row, as the rows were
    before the scan padded them, and the text file with the returned lines,
    each followed by a newline. *)
Theorem saving_keeps_the_result_and_writes_two_files :
  forall (scriptName : string) (fuel : nat) (input_data : list row)
         (justify_cols save_filename : string) (status : Z)
         (texts : list string) (data : list row),
    columnize_output fuel input_data justify_cols
    = Return status (map FStr texts) data ->
    save_filename <> EmptyString ->
    exists (rows : list row) (dump : list string),
      resolve_input input_data = Ok rows
      /\ dump_lines rows = Ok dump
      /\ length dump = length texts
      /\ columnize_output_saving scriptName fuel input_data justify_cols
           save_filename
         = (Return status (map FStr texts) data,
            [FileWrite (csv_file_name scriptName save_filename)
               (lines_text dump);
             FileWrite (txt_file_name save_filename) (lines_text texts)]).
Proof.
  intros scriptName fuel input_data justify_cols save_filename status texts
    data Hret Hsave.
  destruct (columnize_output_saving_after_return scriptName _ _ _ _ _ _ _
              Hret Hsave) as (rows & dump & Hres & Hdump & Hlen & Heq).
  exists rows, dump. split; [exact Hres |]. split; [exact Hdump |].
  split; [now rewrite length_map in Hlen |].
  rewrite Heq. cbn zeta.
  rewrite <- (app_nil_r (map FStr texts)) at 1.
  rewrite write_lines_text. reflexivity.
Qed.

Lemma saving_keeps_the_result_and_writes_two_files_witness :
  exists (rows : list row) (dump : list string),
    resolve_input [RowStr "a,b"; RowStr "c"] = Ok rows
    /\ dump_lines rows = Ok dump
    /\ length dump = length ["a   b"; "c"]
    /\ columnize_output_saving "columnize_output.py" 3
         [RowStr "a,b"; RowStr "c"] "L,R" "out"
       = (Return 0 (map FStr ["a   b"; "c"]) [RowStr "a,b"; RowStr "c"],
          [FileWrite (csv_file_name "columnize_output.py" "out")
             (lines_text dump);
           FileWrite (txt_file_name "out") (lines_text ["a   b"; "c"])]).
Proof.
  apply (saving_keeps_the_result_and_writes_two_files "columnize_output.py"
           3 [RowStr "a,b"; RowStr "c"] "L,R" "out" 0 ["a   b"; "c"]
           [RowStr "a,b"; RowStr "c"]).
  - reflexivity.
  - discriminate.
Defined.

(** X12. A returned line that is no str breaks the saving call. When a call
    returns a list whose first element that is no str is [f] (the cell of a
    one-field row, which is emitted as it is), the same call with a
    [save_filename] raises [TypeError] at [row + '\n'] instead of
    returning: the csv file has been written, and the text file holds the
    lines before [f]. *)
Theorem line_that_is_no_str_breaks_the_saving_call :
  forall (scriptName : string) (fuel : nat) (input_data : list row)
         (justify_cols save_filename : string) (status : Z)
         (before : list string) (f : field) (after : list field)
         (data : list row),
    columnize_output fuel input_data justify_cols
    = Return status (map FStr before ++ f :: after) data ->
    is_text f = false ->
    save_filename <> EmptyString ->
    exists (rows : list row) (dump : list string),
      resolve_input input_data = Ok rows
      /\ dump_lines rows = Ok dump
      /\ columnize_output_saving scriptName fuel input_data justify_cols
           save_filename
         = (Raise TypeError,
            [FileWrite (csv_file_name scriptName save_filename)
               (lines_text dump);
             FileWrite (txt_file_name save_filename) (lines_text before)]).
Proof.
  intros scriptName fuel input_data justify_cols save_filename status before
    f after data Hret Hf Hsave.
  destruct (columnize_output_saving_after_return scriptName _ _ _ _ _ _ _
              Hret Hsave) as (rows & dump & Hres & Hdump & _ & Heq).
  exists rows, dump. split; [exact Hres |]. split; [exact Hdump |].
  rewrite Heq. cbn zeta. rewrite write_lines_text.
  destruct f as [t| |z]; [discriminate Hf | reflexivity | reflexivity].
Qed.

Lemma line_that_is_no_str_breaks_the_saving_call_witness :
  exists (rows : list row) (dump : list string),
    resolve_input [RowList [FInt 5]; RowList [FStr "a"; FStr "b"]] = Ok rows
    /\ dump_lines rows = Ok dump
    /\ columnize_output_saving "columnize_output.py" 3
         [RowList [FInt 5]; RowList [FStr "a"; FStr "b"]] "L,R" "out"
       = (Raise TypeError,
          [FileWrite (csv_file_name "columnize_output.py" "out")
             (lines_text dump);
           FileWrite (txt_file_name "out") (lines_text [])]).
Proof.
  apply (line_that_is_no_str_breaks_the_saving_call "columnize_output.py" 3
           [RowList [FInt 5]; RowList [FStr "a"; FStr "b"]] "L,R" "out" 0
           [] (FInt 5) [FStr "a   b"]
           [RowList [FInt 5]; RowList [FStr "a"; FStr "b"]]).
  - reflexivity.
  - reflexivity.
  - discriminate.
Defined.

(** ** Calling again on the table a call has left *)

Lemma width_cell_strs (i : nat) (l l' : list field) (ws ws' : list nat) :
  width_cell i (l, ws) = Ok (l', ws') ->
  exists f, l !! i = Some f /\ l' = <[i := FStr (str f)]> l.
Proof.
  unfold width_cell. destruct (l !! i) as [f|]; [| discriminate].
  intros H. exists f. split; [reflexivity |].
  destruct (length ws <? length (<[i:=FStr (str f)]> l))%nat;
    [now injection H as <- _ |].
  destruct (ws !! i) as [w|]; [| discriminate].
  destruct (w <? String.length (str f))%nat; now injection H as <- _.
Qed.

Lemma map_str_insert (i : nat) (l : list field) (f : field) :
  l !! i = Some f -> map str (<[i := FStr (str f)]> l) = map str l.
Proof.
  intros Hf. change (map str) with (fmap (M := list) str).
  rewrite list_fmap_insert. apply list_insert_id.
  now rewrite list_lookup_fmap, Hf.
Qed.

(** The inner loop keeps the texts of the cells, keeps the cells that are
    strs and leaves a str at every index it visited. *)
Lemma width_cells_strs (indices : list nat) :
  forall (l l' : list field) (ws ws' : list nat),
    width_cells indices (l, ws) = Ok (l', ws') ->
    map str l' = map str l
    /\ (forall (j : nat) (t : string),
          l !! j = Some (FStr t) -> l' !! j = Some (FStr t))
    /\ (forall i : nat, In i indices -> exists t, l' !! i = Some (FStr t)).
Proof.
  induction indices as [|i indices IH]; intros l l' ws ws' H.
  - injection H as <- _. split; [reflexivity |]. split; [auto |].
    intros i [].
  - cbn [width_cells] in H.
    destruct (width_cell i (l, ws)) as [[l1 ws1]|] eqn:E;
      [| rewrite bind_Abort in H; discriminate H].
    rewrite bind_Ok in H.
    destruct (width_cell_strs _ _ _ _ _ E) as (f & Hf & ->).
    destruct (IH _ _ _ _ H) as (Hmap & Hkeep & Hvis).
    assert (Hstep : forall (j : nat) (t : string),
              l !! j = Some (FStr t)
              -> <[i:=FStr (str f)]> l !! j = Some (FStr t)).
    { intros j t Hj. destruct (decide (i = j)) as [<- | Hne].
      - rewrite Hf in Hj. injection Hj as ->.
        apply list_lookup_insert_eq. now apply lookup_lt_Some in Hf.
      - now rewrite list_lookup_insert_ne. }
    split; [now rewrite Hmap, map_str_insert |].
    split; [auto |].
    intros k [<- | Hk]; [| auto].
    exists (str f). apply Hkeep, list_lookup_insert_eq.
    now apply lookup_lt_Some in Hf.
Qed.

(** The inner loop run again, on a row whose visited cells are strs with
    the same texts: nothing changes and the widths come out the same. *)
Lemma width_cells_again (indices : list nat) :
  forall (l m l' : list field) (ws ws' : list nat),
    map str m = map str l ->
    (forall i : nat, In i indices -> exists t, m !! i = Some (FStr t)) ->
    width_cells indices (l, ws) = Ok (l', ws') ->
    width_cells indices (m, ws) = Ok (m, ws').
Proof.
  induction indices as [|i indices IH]; intros l m l' ws ws' Hmap Hm H.
  - injection H as _ <-. reflexivity.
  - cbn [width_cells] in H.
    destruct (width_cell i (l, ws)) as [[l1 ws1]|] eqn:E;
      [| rewrite bind_Abort in H; discriminate H].
    rewrite bind_Ok in H.
    destruct (width_cell_strs _ _ _ _ _ E) as (f & Hf & ->).
    destruct (Hm i (or_introl eq_refl)) as [t Ht].
    assert (Htf : t = str f).
    { assert (Hl : map str m !! i = map str l !! i) by now rewrite Hmap.
      change (map str) with (fmap (M := list) str) in Hl.
      rewrite !list_lookup_fmap, Ht, Hf in Hl. now injection Hl. }
    assert (Hlen : length m = length l).
    { apply (f_equal length) in Hmap. now rewrite !length_map in Hmap. }
    assert (Estep : width_cell i (m, ws) = Ok (m, ws1)).
    { unfold width_cell in E |- *. rewrite Hf in E. rewrite Ht.
      cbn [str]. cbn zeta in E |- *.
      rewrite (list_insert_id m i (FStr t) Ht).
      rewrite length_insert in E. rewrite Hlen, Htf.
      destruct (length ws <? length l)%nat; [now inversion E |].
      destruct (ws !! i) as [w|]; [| discriminate].
      destruct (w <? String.length (str f))%nat; now inversion E. }
    cbn [width_cells]. rewrite Estep, bind_Ok.
    apply (IH (<[i:=FStr (str f)]> l) m l' ws1 ws');
      [now rewrite map_str_insert | | exact H].
    intros k Hk. apply Hm. now right.
Qed.

Lemma width_row_again (cmax : nat) (r r' : row) (ws ws' : list nat) :
  width_row cmax r ws = Ok (r', ws') -> width_row cmax r' ws = Ok (r', ws').
Proof.
  unfold width_row. destruct r as [t|l|z]; [| | discriminate].
  - destruct (String.length t =? 1)%nat eqn:E1.
    + intros [= <- <-]. now rewrite E1.
    + destruct cmax; [intros [= <- <-]; now rewrite E1 |].
      destruct (String.length t =? 0)%nat; discriminate.
  - destruct (length l =? 1)%nat eqn:E1.
    + intros [= <- <-]. now rewrite E1.
    + destruct (width_cells (seq 0 cmax) (l, ws)) as [[l1 ws1]|] eqn:E;
        [| discriminate].
      rewrite bind_Ok. intros [= <- <-].
      destruct (width_cells_strs _ _ _ _ _ E) as (Hmap & _ & Hvis).
      assert (Hlen : length l1 = length l).
      { apply (f_equal length) in Hmap. now rewrite !length_map in Hmap. }
      rewrite Hlen, E1.
      rewrite (width_cells_again _ l l1 l1 ws ws1 Hmap Hvis E).
      reflexivity.
Qed.

(** The width pass is idempotent: run again on the rows it left, from the
    same widths, it leaves the same rows and the same widths. *)
Lemma width_rows_again (cmax : nat) (rows : list row) :
  forall (ws : list nat) (rows' : list row) (ws' : list nat),
    width_rows cmax rows ws = Ok (rows', ws') ->
    width_rows cmax rows' ws = Ok (rows', ws').
Proof.
  induction rows as [|r rows IH]; intros ws rows' ws' H.
  - injection H as <- <-. reflexivity.
  - simpl in H.
    destruct (width_row cmax r ws) as [[r1 ws1]|] eqn:E; [| discriminate].
    rewrite bind_Ok in H. cbn beta iota in H.
    destruct (width_rows cmax rows ws1) as [[rest ws2]|] eqn:E2;
      [| discriminate].
    rewrite bind_Ok in H. injection H as <- <-.
    cbn [width_rows]. rewrite (width_row_again _ _ _ _ _ E). run_binds.
    rewrite (IH _ _ _ E2). reflexivity.
Qed.

(** What the width pass leaves of each list row: the field count is kept,
    and in an aligned row the first [cmax] cells exist and are strs. *)
Lemma width_rows_cells (cmax : nat) (rows : list row) :
  forall (ws : list nat) (rows' : list row) (ws' : list nat),
    width_rows cmax rows ws = Ok (rows', ws') ->
    Forall2
      (fun r r' : row =>
         forall l : list field,
           r = RowList l ->
           exists l' : list field,
             r' = RowList l' /\ length l' = length l
             /\ (length l <> 1%nat ->
                 forall i : nat,
                   (i < cmax)%nat -> exists t, l' !! i = Some (FStr t)))
      rows rows'.
Proof.
  induction rows as [|r rows IH]; intros ws rows' ws' H.
  - injection H as <- _. constructor.
  - cbn [width_rows] in H.
    destruct (width_row cmax r ws) as [[r1 ws1]|] eqn:E;
      [| rewrite bind_Abort in H; discriminate H].
    rewrite bind_Ok in H. cbn beta iota in H.
    destruct (width_rows cmax rows ws1) as [[rest ws2]|] eqn:E2;
      [| rewrite bind_Abort in H; discriminate H].
    rewrite bind_Ok in H. injection H as <- _.
    constructor; [| eapply IH; eauto].
    intros l ->. unfold width_row in E.
    destruct (length l =? 1)%nat eqn:E1.
    + injection E as <- _. exists l. split; [reflexivity |].
      split; [reflexivity |]. apply Nat.eqb_eq in E1. contradiction.
    + destruct (width_cells (seq 0 cmax) (l, ws)) as [[l1 ws1']|] eqn:Ec;
        [| rewrite bind_Abort in E; discriminate E].
      rewrite bind_Ok in E. injection E as <- _.
      destruct (width_cells_strs _ _ _ _ _ Ec) as (Hmap & _ & Hvis).
      exists l1. split; [reflexivity |]. split.
      * apply (f_equal length) in Hmap. now rewrite !length_map in Hmap.
      * intros _ i Hi. apply Hvis, in_seq. lia.
Qed.

Lemma none_to_empty_text (l : list field) :
  Forall (fun f => is_text f = true) l -> none_to_empty l = l.
Proof.
  induction 1 as [|f l Hf _ IH]; [reflexivity |].
  unfold none_to_empty in *. cbn [map]. rewrite IH.
  now destruct f.
Qed.

Lemma settled_row_ok (cm : nat) (r : row) : settled cm r -> row_ok cm r.
Proof. intros (l & -> & [H | [H _]]); exists l; auto. Qed.

Lemma settled_scanned (cm : nat) (r : row) : settled cm r -> scanned r = r.
Proof.
  intros (l & -> & [H | [_ H]]); cbn [scanned].
  - now rewrite H.
  - destruct (length l =? 1)%nat; [reflexivity |].
    now rewrite none_to_empty_text.
Qed.

(** A table of settled rows is scanned without any change. *)
Lemma scan_settled (cm : nat) (rows : list row) :
  Forall (settled cm) rows ->
  (existsb aligned_row rows = false -> cm = 0%nat) ->
  scan rows = Ok (ScanState rows cm 0).
Proof.
  intros Hs Hcm.
  rewrite (scan_uniform cm rows)
    by (eapply Forall_impl; [exact Hs | apply settled_row_ok]).
  f_equal. f_equal.
  - clear Hcm. induction Hs as [|r rows Hr _ IH]; [reflexivity |].
    cbn [map]. now rewrite (settled_scanned cm r Hr), IH.
  - destruct (existsb aligned_row rows); [reflexivity |].
    symmetry. now apply Hcm.
Qed.

(** The table of list rows after the scan and the width pass of a call:
    every row is settled for the column count of the scan, and that count
    is 0 unless an aligned row is left. *)
Lemma phases_leave_settled_rows (rows rows' : list row) (s : scan_state)
    (ws : list nat) :
  Forall is_list rows ->
  scan rows = Ok s ->
  width_rows (curr_max_num_cols s) (list_of_lists_of_strings s) []
  = Ok (rows', ws) ->
  Forall (settled (curr_max_num_cols s)) rows'
  /\ (existsb aligned_row rows' = false -> curr_max_num_cols s = 0%nat).
Proof.
  intros Hlist Hscan Hw.
  pose proof (width_rows_cells _ _ _ _ _ Hw) as Hcells.
  split.
  - destruct (scan_reconciles_list_rows rows Hlist)
      as (s0 & Hscan0 & _ & Hshape).
    assert (s0 = s) by congruence. subst s0.
    assert (Hany : Forall (fun r => has_fields 1 r
                             \/ has_fields (curr_max_num_cols s) r
                             \/ has_fields 0 r)
                     (list_of_lists_of_strings s)).
    { destruct Hshape as [[_ H] | [_ H]]; [| exact H].
      eapply Forall_impl; [exact H |]. auto. }
    clear Hshape Hscan Hscan0 Hw.
    induction Hcells as [|r r' R R' Hr _ IH]; [constructor |].
    inversion Hany as [|r0 R0 Hr0 HR0]; subst.
    constructor; [| apply IH; exact HR0].
    assert (Hl : exists l, r = RowList l
                 /\ (length l = 1 \/ length l = curr_max_num_cols s
                     \/ length l = 0)%nat).
    { destruct Hr0 as [(l & -> & H) | [(l & -> & H) | (l & -> & H)]];
        exists l; auto. }
    destruct Hl as (l & -> & Hl).
    destruct (Hr l eq_refl) as (l' & -> & Hlen & Hstr).
    exists l'. split; [reflexivity |].
    destruct (decide (length l = 1%nat)) as [H1 | H1]; [left; lia |].
    right. specialize (Hstr H1).
    assert (Hcm : length l' = curr_max_num_cols s).
    { destruct Hl as [H | [H | H]]; [contradiction | lia |].
      destruct (curr_max_num_cols s) as [|n] eqn:En; [lia |].
      destruct (Hstr 0%nat) as [t Ht]; [lia |].
      apply lookup_lt_Some in Ht. lia. }
    split; [exact Hcm |].
    apply Forall_lookup. intros i f Hi.
    destruct (Hstr i) as [t Ht];
      [apply lookup_lt_Some in Hi; lia |].
    rewrite Hi in Ht. now injection Ht as ->.
  - intros Hno.
    destruct (scan_tracked rows Hlist) as (s0 & Hscan0 & Hrel & Hreach & _).
    assert (s0 = s) by congruence. subst s0.
    destruct Hreach as [H0 | (lo & Hin & Hne & Hlo)]; [exact H0 |].
    exfalso.
    apply list_elem_of_lookup in Hin. destruct Hin as [j Hj].
    destruct (Forall2_lookup_l _ _ _ _ _ Hrel Hj) as (rc1 & Hj1 & Hr1).
    destruct Hr1 as (lo1 & lc & [= <-] & -> & _ & Hlc).
    destruct (Forall2_lookup_l _ _ _ _ _ Hcells Hj1) as (r2 & Hj2 & Hr2).
    destruct (Hr2 lc eq_refl) as (l2 & -> & Hlen2 & _).
    assert (Hal : aligned_row (RowList l2) = true).
    { cbn [aligned_row]. apply negb_true_iff, Nat.eqb_neq. lia. }
    assert (Hex : existsb aligned_row rows' = true).
    { apply existsb_exists. exists (RowList l2). split; [| exact Hal].
      apply list_elem_of_In. eapply list_elem_of_lookup_2. exact Hj2. }
    congruence.
Qed.

Lemma returned_list_table (fuel : nat) (input_data : list row)
    (justify_cols : string) (status : Z) (lines : list field)
    (data : list row) :
  Forall is_list input_data ->
  columnize_output fuel input_data justify_cols = Return status lines data ->
  exists (s : scan_state) (jl : list string) (ws : list nat),
    scan input_data = Ok s
    /\ pad_justify (split comma justify_cols) (curr_max_num_cols s) = Ok jl
    /\ width_rows (curr_max_num_cols s) (list_of_lists_of_strings s) []
       = Ok (data, ws)
    /\ render_rows fuel ws jl data = Ok lines
    /\ data <> [].
Proof.
  intros Hlist Hret.
  destruct (columnize_output_Return_inv _ _ _ _ _ _ Hret)
    as (rows & s & jl & rows' & ws & Hres & Hne & Hscan & Hjl & Hw & Hr
        & _ & ->).
  destruct input_data as [|r0 rest]; [discriminate Hres |].
  inversion Hlist as [|r1 rest1 [l0 ->] _]; subst.
  cbn [resolve_input] in Hres. injection Hres as <-.
  cbn [shares_input].
  exists s, jl, ws. split; [exact Hscan |]. split; [exact Hjl |].
  split; [exact Hw |]. split; [exact Hr |].
  intros ->. apply width_rows_length in Hw.
  pose proof (proj1 (scan_from_shape _ _ _ Hscan)) as Hlen.
  cbn [list_of_lists_of_strings length] in Hlen, Hw. lia.
Qed.

(** X13. What a returning call leaves of a table of list rows: every row of
    the caller's list has one field, or exactly as many fields as the
    column count of the scan, and then all of them are strs. *)
Theorem returning_call_leaves_a_uniform_table :
  forall (fuel : nat) (input_data : list row) (justify_cols : string)
         (status : Z) (lines : list field) (data : list row),
    Forall is_list input_data ->
    columnize_output fuel input_data justify_cols = Return status lines data ->
    exists s : scan_state,
      scan input_data = Ok s
      /\ length data = length input_data
      /\ Forall (settled (curr_max_num_cols s)) data.
Proof.
  intros fuel input_data justify_cols status lines data Hlist Hret.
  destruct (returned_list_table _ _ _ _ _ _ Hlist Hret)
    as (s & jl & ws & Hscan & _ & Hw & _ & _).
  exists s. split; [exact Hscan |]. split.
  - rewrite (width_rows_length _ _ _ _ _ Hw).
    exact (proj1 (scan_from_shape _ _ _ Hscan)).
  - exact (proj1 (phases_leave_settled_rows _ _ _ _ Hlist Hscan Hw)).
Qed.

Lemma returning_call_leaves_a_uniform_table_witness :
  exists s : scan_state,
    scan [RowList [FNone]; RowList [FStr "a"; FInt 12; FStr "c"];
          RowList [FStr "d"; FStr "e"]] = Ok s
    /\ length [RowList [FStr "None"; FStr EmptyString; FStr EmptyString];
               RowList [FStr "a"; FStr "12"; FStr "c"];
               RowList [FStr "d"; FStr "e"; FStr EmptyString]]
       = length [RowList [FNone]; RowList [FStr "a"; FInt 12; FStr "c"];
                 RowList [FStr "d"; FStr "e"]]
    /\ Forall (settled (curr_max_num_cols s))
         [RowList [FStr "None"; FStr EmptyString; FStr EmptyString];
          RowList [FStr "a"; FStr "12"; FStr "c"];
          RowList [FStr "d"; FStr "e"; FStr EmptyString]].
Proof.
  apply (returning_call_leaves_a_uniform_table 4
           [RowList [FNone]; RowList [FStr "a"; FInt 12; FStr "c"];
            RowList [FStr "d"; FStr "e"]] "L,R" 2
           [FStr "None        "; FStr "a      12  c"; FStr "d       e   "]).
  - repeat constructor; eexists; reflexivity.
  - reflexivity.
Defined.

(** X14. Calling again on the table a call has left. When a call on a table
    of list rows returns, the same call on the caller's list as it is now
    (padded in place, cells turned into strs) returns status 0, the same
    lines, and leaves the list as it is: the warnings of the first call are
    not repeated and no row is padded twice. *)
Theorem second_call_on_the_same_table_is_clean :
  forall (fuel : nat) (input_data : list row) (justify_cols : string)
         (status : Z) (lines : list field) (data : list row),
    Forall is_list input_data ->
    columnize_output fuel input_data justify_cols = Return status lines data ->
    columnize_output fuel data justify_cols = Return 0 lines data.
Proof.
  intros fuel input_data justify_cols status lines data Hlist Hret.
  destruct (returned_list_table _ _ _ _ _ _ Hlist Hret)
    as (s & jl & ws & Hscan & Hjl & Hw & Hr & Hne).
  destruct (phases_leave_settled_rows _ _ _ _ Hlist Hscan Hw) as [Hset Hcm].
  pose proof (scan_settled _ _ Hset Hcm) as Hscan2.
  pose proof (width_rows_again _ _ _ _ _ Hw) as Hw2.
  destruct data as [|r0 rest]; [contradiction |].
  inversion Hset as [|r1 rest1 (l0 & -> & _) _]; subst.
  unfold columnize_output. cbn [resolve_input]. run_binds.
  cbn [length Nat.eqb]. rewrite Hscan2. run_binds.
  cbn [curr_max_num_cols list_of_lists_of_strings rc].
  rewrite Hjl. run_binds. rewrite Hw2. run_binds. rewrite Hr. run_binds.
  reflexivity.
Qed.

Lemma second_call_on_the_same_table_is_clean_witness :
  columnize_output 4
    [RowList [FStr "None"; FStr EmptyString; FStr EmptyString];
     RowList [FStr "a"; FStr "12"; FStr "c"];
     RowList [FStr "d"; FStr "e"; FStr EmptyString]] "L,R"
  = Return 0
      [FStr "None        "; FStr "a      12  c"; FStr "d       e   "]
      [RowList [FStr "None"; FStr EmptyString; FStr EmptyString];
       RowList [FStr "a"; FStr "12"; FStr "c"];
       RowList [FStr "d"; FStr "e"; FStr EmptyString]].
Proof.
  apply (second_call_on_the_same_table_is_clean 4
           [RowList [FNone]; RowList [FStr "a"; FInt 12; FStr "c"];
            RowList [FStr "d"; FStr "e"]] "L,R" 2).
  - repeat constructor; eexists; reflexivity.
  - reflexivity.
Defined.

(** ** When the function ends the process *)







